(** * crypto_alert_bot.py: the target-level registry and the monitoring loop

    A shallow embedding of [CryptoLongEntryBot] (src/crypto_alert_bot.py).

    - Python floats are IEEE binary64 numbers: Rocq's primitive [float].
    - A Python [dict] keeps insertion order: an association list whose
      operations keep a key at most once.
    - The coroutines run on one asyncio event loop: between two [await]s a
      coroutine runs alone, and at every [await] other coroutines may run.
      The world outside a coroutine (price source, message transport, clock,
      the other handlers) is an [environment] that answers every [await].
    - What a coroutine does to the outside is recorded in a [trace]. *)

From Stdlib Require Import List String Ascii ZArith Floats Bool Arith Lia Sorted.
Import ListNotations.

(* ------------------------------------------------------------------ *)
(** * Python dictionaries *)

Class EqKey (K : Type) := {
  keqb : K -> K -> bool;
  keqb_eq : forall a b, keqb a b = true <-> a = b
}.

#[global] Instance EqKey_Z : EqKey Z := {| keqb := Z.eqb; keqb_eq := Z.eqb_eq |}.
#[global] Instance EqKey_string : EqKey string :=
  {| keqb := String.eqb; keqb_eq := String.eqb_eq |}.

Module Dict.
Section Ops.
Context {K V : Type} `{EqKey K}.

Definition t := list (K * V).

(** [d.get(k)] *)
Fixpoint get (d : t) (k : K) : option V :=
  match d with
  | [] => None
  | (k', v) :: d' => if keqb k k' then Some v else get d' k
  end.

(** [k in d] *)
Definition mem (d : t) (k : K) : bool :=
  match get d k with Some _ => true | None => false end.

(** [d[k] = v]: a present key keeps its place, a new key goes last. *)
Fixpoint set (d : t) (k : K) (v : V) : t :=
  match d with
  | [] => [(k, v)]
  | (k', v') :: d' =>
      if keqb k k' then (k', v) :: d' else (k', v') :: set d' k v
  end.

(** [del d[k]] once [k in d] is known; the other items keep their order. *)
Fixpoint remove (d : t) (k : K) : t :=
  match d with
  | [] => []
  | (k', v') :: d' => if keqb k k' then d' else (k', v') :: remove d' k
  end.

Definition keys (d : t) : list K := map fst d.

(** A dict holds a key once. *)
Definition wf (d : t) : Prop := NoDup (keys d).
End Ops.
Arguments t : clear implicits.
End Dict.

(* ------------------------------------------------------------------ *)
(** * Data model *)

Record TargetLevel := mkLevel {
  symbol : string;
  target_price : float;
  created_at : Z
}.

(** [self.user_levels]: user_id -> {symbol: TargetLevel} *)
Definition levels := Dict.t string TargetLevel.
Definition registry := Dict.t Z levels.

Definition level_of (reg : registry) (user_id : Z) (sym : string)
  : option TargetLevel :=
  match Dict.get reg user_id with
  | Some d => Dict.get d sym
  | None => None
  end.

(** Every (user, symbol, level) of the registry, users first. *)
Definition entries (reg : registry) : list (Z * string * TargetLevel) :=
  flat_map (fun ud => map (fun sl => (fst ud, fst sl, snd sl)) (snd ud)) reg.

(** How many entries the registry has for a user and symbol. *)
Definition count_symbol (reg : registry) (u : Z) (s : string) : nat :=
  List.length
    (filter (fun e => (fst (fst e) =? u)%Z && (snd (fst e) =? s)%string)
            (entries reg)).

(** A level is stored under its own symbol. *)
Definition keyed (d : levels) : Prop :=
  Forall (fun sl => symbol (snd sl) = fst sl) d.

Definition wf_registry (reg : registry) : Prop :=
  Dict.wf reg /\ Forall (fun ud => Dict.wf (snd ud) /\ keyed (snd ud)) reg.

(** [str.upper()] on ASCII text. *)
Definition upper_char (c : ascii) : ascii :=
  let n := nat_of_ascii c in
  if (97 <=? n)%nat && (n <=? 122)%nat then ascii_of_nat (n - 32) else c.

Fixpoint upper (s : string) : string :=
  match s with
  | EmptyString => EmptyString
  | String c s' => String (upper_char c) (upper s')
  end.

(* ------------------------------------------------------------------ *)
(** * Exceptions, messages, events *)

Inductive exn :=
| ValueError          (* float() of a token that is no number *)
| KeyError            (* a missing dict key *)
| RuntimeError        (* dictionary changed size during iteration *)
| ZeroDivisionError   (* float division by 0.0 *)
| TransportError.     (* the messaging API failed *)

Inductive status := ShouldHaveTriggered | Monitoring | Unknown.

Record row := mkRow {
  row_status : status;
  row_index : nat;
  row_symbol : string;
  row_level : TargetLevel;
  row_current : option float
}.

Inductive message :=
| InvalidFormat
| InvalidSymbol (sym : string)
| WarningAboveCurrent (target current : float)
| LevelUpdated (sym : string) (old_price target current : float)
| LevelAdded (sym : string) (target current : float)
| InvalidPrice
| ErrorTryAgain
| NoActiveLevels
| LevelList (rows : list row)
| NoLevelsToRemove
| SelectLevel (buttons : list (string * float))
| LevelRemoved (sym : string) (target : float)
| NoActiveLevelFor (sym : string)
| ErrorOccurred
| TargetHit (level : TargetLevel) (current : float).

Inductive origin := InAdd | InRemove | InAlert | InMonitor.

(** What the [logger] is given. *)
Inductive note :=
| Started
| Checked (total_checks : nat)
| AlertSent (user_id : Z) (level : TargetLevel) (current : float)
| Failed (src : origin) (e : exn).

Inductive event :=
| Lookup (sym : string)            (* get_binance_price(sym) is called *)
| Reply (user_id : Z) (m : message)
                                   (* update.message.reply_text returned *)
| Notify (user_id : Z) (level : TargetLevel) (current : float)
                                   (* send_target_hit_alert is called *)
| Sent (chat_id : Z) (m : message) (* bot.send_message returned *)
| Log (n : note)                   (* logger.info, logger.error *)
| Sleep (seconds : nat).           (* asyncio.sleep is called *)

(* ------------------------------------------------------------------ *)
(** * The environment of a coroutine *)

(** The registry writes of the front-end handlers, each one atomic (no
    [await] inside): the lazy creation of a user's sub-map ([start_command],
    [add_level_command]), the store of [add_level_command] and the [pop] of
    [remove_level_command] and [button_callback]. *)
Inductive mutation :=
| Touch (user_id : Z)
| Store (user_id : Z) (level : TargetLevel)
| Discard (user_id : Z) (sym : string).

Definition touch (reg : registry) (user_id : Z) : registry :=
  if Dict.mem reg user_id then reg else Dict.set reg user_id [].

Definition store (reg : registry) (user_id : Z) (level : TargetLevel) : registry :=
  match Dict.get reg user_id with
  | Some d => Dict.set reg user_id (Dict.set d (symbol level) level)
  | None => reg
  end.

Definition discard (reg : registry) (user_id : Z) (sym : string) : registry :=
  match Dict.get reg user_id with
  | Some d => Dict.set reg user_id (Dict.remove d sym)
  | None => reg
  end.

Definition apply_mutation (reg : registry) (m : mutation) : registry :=
  match m with
  | Touch u => touch reg u
  | Store u l => store (touch reg u) u l
  | Discard u s => discard reg u s
  end.

Definition apply_mutations (reg : registry) (ms : list mutation) : registry :=
  fold_left apply_mutation ms reg.

(** [prices n s]: the answer of the price source to the [n]-th lookup when it
    asks for [s] ([None]: unavailable).  The other fields are indexed by the
    number of [await]s passed so far: what the other coroutines write while
    this one is suspended, whether a message sent there is delivered, and the
    wall clock. *)
Record environment := mkEnv {
  prices : nat -> string -> option float;
  during : nat -> list mutation;
  delivered : nat -> bool;
  now : nat -> Z
}.

Record world := mkWorld {
  user_levels : registry;
  trace : list event;
  awaits : nat;
  lookups : nat
}.

(** No other coroutine writes the registry. *)
Definition quiet (env : environment) : Prop := forall n, during env n = [].

(** Quiet, and every message is delivered. *)
Definition calm (env : environment) : Prop :=
  forall n, during env n = [] /\ delivered env n = true.

(* ------------------------------------------------------------------ *)
(** * Coroutines: state, exceptions, trace *)

Inductive result (A : Type) :=
| Ok (a : A)
| Raise (e : exn).
Arguments Ok {A} a.
Arguments Raise {A} e.

Definition M (A : Type) := world -> result A * world.

Definition ret {A} (a : A) : M A := fun w => (Ok a, w).

Definition bind {A B} (m : M A) (k : A -> M B) : M B :=
  fun w => match m w with
           | (Ok a, w') => k a w'
           | (Raise e, w') => (Raise e, w')
           end.

Definition raise {A} (e : exn) : M A := fun w => (Raise e, w).

(** [try: m  except Exception as e: handler e] *)
Definition try_except {A} (m : M A) (handler : exn -> M A) : M A :=
  fun w => match m w with
           | (Ok a, w') => (Ok a, w')
           | (Raise e, w') => handler e w'
           end.

Declare Scope py_scope.
Delimit Scope py_scope with py.
Notation "x <- m ;; k" := (bind m (fun x => k))
  (at level 61, m at next level, right associativity) : py_scope.
Notation "m ;; k" := (bind m (fun _ => k))
  (at level 61, right associativity) : py_scope.
Open Scope py_scope.

Definition get_levels : M registry := fun w => (Ok (user_levels w), w).

Definition put_levels (reg : registry) : M unit :=
  fun w => (Ok tt, mkWorld reg (trace w) (awaits w) (lookups w)).

Definition emit (e : event) : M unit :=
  fun w => (Ok tt, mkWorld (user_levels w) (trace w ++ [e]) (awaits w) (lookups w)).

(** [self.user_levels[user_id]] *)
Definition levels_of (user_id : Z) : M levels :=
  reg <- get_levels ;;
  match Dict.get reg user_id with
  | Some d => ret d
  | None => raise KeyError
  end.

(** [for x in xs: ...] over a list made beforehand, such as
    [list(user_levels.items())]; [acc] carries the loop's local variables. *)
Fixpoint for_each {X A} (xs : list X) (body : X -> A -> M A) (acc : A) : M A :=
  match xs with
  | [] => ret acc
  | x :: xs' => acc' <- body x acc ;; for_each xs' body acc'
  end.

(** [for k, v in d.items(): ...] over the live dict that [read] gives.  Every
    [next()] first raises RuntimeError when the dict has not the size it had
    when the loop began, and otherwise yields the item at the next position.
    ([self.user_levels] only ever gains keys, so its item list is the table
    that CPython walks.) *)
Fixpoint iterate {K V A} (read : M (Dict.t K V)) (used remaining : nat)
    (body : K * V -> A -> M A) (acc : A) : M A :=
  d <- read ;;
  if negb (Nat.eqb (List.length d) used) then raise RuntimeError
  else match remaining with
       | O => ret acc
       | S r =>
           match nth_error d (used - remaining) with
           | Some kv => acc' <- body kv acc ;; iterate read used r body acc'
           | None => ret acc
           end
       end.

Definition for_items {K V A} (read : M (Dict.t K V))
    (body : K * V -> A -> M A) (acc : A) : M A :=
  d <- read ;;
  iterate read (List.length d) (List.length d) body acc.

(* ------------------------------------------------------------------ *)
(** * CryptoLongEntryBot *)

Section Bot.
(** The builtin [float(str)]; [None] stands for ValueError. *)
Variable py_float : string -> option float.
Variable env : environment.

(** An [await]: the other coroutines run.  Gives the number of the await. *)
Definition await : M nat :=
  fun w => (Ok (awaits w),
            mkWorld (apply_mutations (user_levels w) (during env (awaits w)))
                    (trace w) (S (awaits w)) (lookups w)).

Definition logger (n : note) : M unit := emit (Log n).

(** [datetime.now()] *)
Definition datetime_now : M Z := fun w => (Ok (now env (awaits w)), w).

(** [await update.message.reply_text(m)] *)
Definition reply_text (user_id : Z) (m : message) : M unit :=
  n <- await ;;
  if delivered env n then emit (Reply user_id m) else raise TransportError.

(** [await self.application.bot.send_message(chat_id, m)] *)
Definition send_message (chat_id : Z) (m : message) : M unit :=
  n <- await ;;
  if delivered env n then emit (Sent chat_id m) else raise TransportError.

(** [await asyncio.sleep(seconds)] *)
Definition sleep (seconds : nat) : M unit :=
  emit (Sleep seconds) ;; _ <- await ;; ret tt.

(** [get_binance_price]: every failure inside is caught there and gives
    [None], as a status other than 200 does (the error that it logs then is
    left out of the trace). *)
Definition get_binance_price (sym : string) : M (option float) :=
  emit (Lookup sym) ;;
  _ <- await ;;
  fun w => (Ok (prices env (lookups w) sym),
            mkWorld (user_levels w) (trace w) (awaits w) (S (lookups w))).

(** [if user_id not in self.user_levels: self.user_levels[user_id] = {}] *)
Definition ensure_user (user_id : Z) : M unit :=
  reg <- get_levels ;; put_levels (touch reg user_id).

Definition add_level_command (user_id : Z) (args : list string) : M unit :=
  ensure_user user_id ;;
  try_except
    (match args with
     | [a0; a1] =>
         let sym := upper a0 in
         target <- match py_float a1 with
                   | Some x => ret x
                   | None => raise ValueError
                   end ;;
         current_price <- get_binance_price sym ;;
         match current_price with
         | None => reply_text user_id (InvalidSymbol sym)
         | Some current =>
             (if (current <=? target)%float
              then reply_text user_id (WarningAboveCurrent target current)
              else ret tt) ;;
             d <- levels_of user_id ;;
             let old := Dict.get d sym in
             created <- datetime_now ;;
             let level := mkLevel sym target created in
             reg <- get_levels ;;
             put_levels (Dict.set reg user_id (Dict.set d sym level)) ;;
             match old with
             | Some old_level =>
                 reply_text user_id
                   (LevelUpdated sym (target_price old_level) target current)
             | None =>
                 if (current =? 0)%float then raise ZeroDivisionError
                 else reply_text user_id (LevelAdded sym target current)
             end
         end
     | _ => reply_text user_id InvalidFormat
     end)
    (fun e =>
       match e with
       | ValueError => reply_text user_id InvalidPrice
       | _ => logger (Failed InAdd e) ;; reply_text user_id ErrorTryAgain
       end).

(** One turn of the loop of [list_levels_command]; [rows] is [levels_text]. *)
Definition list_row (sl : string * TargetLevel) (rows : list row)
  : M (list row) :=
  let (sym, level) := sl in
  current_price <- get_binance_price sym ;;
  let i := S (List.length rows) in
  ret (rows ++
       [match current_price with
        | Some current =>
            if (current =? 0)%float then mkRow Unknown i sym level None
            else if (current <=? target_price level)%float
                 then mkRow ShouldHaveTriggered i sym level (Some current)
                 else mkRow Monitoring i sym level (Some current)
        | None => mkRow Unknown i sym level None
        end]).

(** The loop goes over the live sub-map, whose keys can also be removed
    while it awaits a price; the place in the item list then stands for the
    place in the table that CPython walks (the two are the same as long as no
    key is removed during the loop). *)
Definition list_levels_command (user_id : Z) : M unit :=
  reg <- get_levels ;;
  match Dict.get reg user_id with
  | None | Some [] => reply_text user_id NoActiveLevels
  | Some _ =>
      rows <- for_items (levels_of user_id) list_row [] ;;
      reply_text user_id (LevelList rows)
  end.

Definition remove_level_command (user_id : Z) (args : list string) : M unit :=
  reg <- get_levels ;;
  match Dict.get reg user_id with
  | None | Some [] => reply_text user_id NoLevelsToRemove
  | Some d =>
      try_except
        (match args with
         | [] =>
             reply_text user_id
               (SelectLevel (map (fun sl => (fst sl, target_price (snd sl))) d))
         | a0 :: _ =>
             let sym := upper a0 in
             match Dict.get d sym with
             | Some removed_level =>
                 put_levels (Dict.set reg user_id (Dict.remove d sym)) ;;
                 reply_text user_id
                   (LevelRemoved sym (target_price removed_level))
             | None => reply_text user_id (NoActiveLevelFor sym)
             end
         end)
        (fun e => logger (Failed InRemove e) ;; reply_text user_id ErrorOccurred)
  end.

Definition send_target_hit_alert (user_id : Z) (level : TargetLevel)
    (current : float) : M unit :=
  emit (Notify user_id level current) ;;
  try_except
    (if (target_price level =? 0)%float then raise ZeroDivisionError
     else send_message user_id (TargetHit level current) ;;
          logger (AlertSent user_id level current))
    (fun e => logger (Failed InAlert e)).

(** [del self.user_levels[user_id][symbol]] *)
Definition del_level (user_id : Z) (sym : string) : M unit :=
  d <- levels_of user_id ;;
  if Dict.mem d sym
  then reg <- get_levels ;; put_levels (Dict.set reg user_id (Dict.remove d sym))
  else raise KeyError.

(** The body of the inner loop of [check_all_levels]. *)
Definition check_level (user_id : Z) (sl : string * TargetLevel)
    (total_checks : nat) : M nat :=
  let (sym, level) := sl in
  current_price <- get_binance_price sym ;;
  match current_price with
  | None => ret total_checks
  | Some current =>
      (if (current <=? target_price level)%float
       then send_target_hit_alert user_id level current ;;
            del_level user_id sym
       else ret tt) ;;
      ret (S total_checks)
  end.

Definition check_all_levels : M unit :=
  total_checks <-
    for_items get_levels
      (fun ul total => for_each (snd ul) (check_level (fst ul)) total) 0 ;;
  if (0 <? total_checks)%nat then logger (Checked total_checks) else ret tt.

(** One turn of [while True] in [price_monitoring_loop]. *)
Definition monitoring_turn : M unit :=
  try_except
    (check_all_levels ;; sleep 300)
    (fun e => logger (Failed InMonitor e) ;; sleep 60).

Fixpoint monitoring_turns (n : nat) : M unit :=
  match n with
  | O => ret tt
  | S n' => monitoring_turn ;; monitoring_turns n'
  end.

(** [price_monitoring_loop], cut after [n] turns of its [while True]. *)
Definition price_monitoring_loop (n : nat) : M unit :=
  logger Started ;; monitoring_turns n.
End Bot.

(* ------------------------------------------------------------------ *)
(** * Reading a trace *)

(** The calls of [send_target_hit_alert], in order. *)
Definition alerts (tr : list event) : list (Z * TargetLevel * float) :=
  flat_map (fun e => match e with
                     | Notify u l p => [(u, l, p)]
                     | _ => []
                     end) tr.

(** The symbols asked of the price source, in order. *)
Definition looked (tr : list event) : list string :=
  flat_map (fun e => match e with Lookup s => [s] | _ => [] end) tr.

(** The periods slept, in order. *)
Definition sleeps (tr : list event) : list nat :=
  flat_map (fun e => match e with Sleep n => [n] | _ => [] end) tr.

Definition is_alert_for (user_id : Z) (sym : string)
    (a : Z * TargetLevel * float) : bool :=
  (fst (fst a) =? user_id)%Z && (symbol (snd (fst a)) =? sym)%string.

Definition count_alerts (user_id : Z) (sym : string)
    (xs : list (Z * TargetLevel * float)) : nat :=
  List.length (filter (is_alert_for user_id sym) xs).

(** How often the notifier was called for a level of [user_id] on [sym]. *)
Definition notified (user_id : Z) (sym : string) (tr : list event) : nat :=
  count_alerts user_id sym (alerts tr).

(** The events between two worlds of one run. *)
Definition since (w w' : world) : list event :=
  skipn (List.length (trace w)) (trace w').

(* ------------------------------------------------------------------ *)
(** * Undisturbed runs in closed form *)

(** The price at which lookup number [k] triggers the item [sl], if it does. *)
Definition fires (env : environment) (k : nat) (sl : string * TargetLevel)
  : option float :=
  match prices env k (fst sl) with
  | Some p => if (p <=? target_price (snd sl))%float then Some p else None
  | None => None
  end.

(** What [send_target_hit_alert] records after its call, when its await is
    number [n]. *)
Definition alert_outcome (env : environment) (n : nat) (u : Z)
    (l : TargetLevel) (p : float) : list event :=
  if (target_price l =? 0)%float then [Log (Failed InAlert ZeroDivisionError)]
  else if delivered env n then [Sent u (TargetHit l p); Log (AlertSent u l p)]
       else [Log (Failed InAlert TransportError)].

(** What [add_level_command] records after its lookup, when it stores. *)
Definition add_report (u : Z) (sym : string) (old : option TargetLevel)
    (target p : float) : list event :=
  (if (p <=? target)%float then [Reply u (WarningAboveCurrent target p)] else [])
  ++ match old with
     | Some old_level => [Reply u (LevelUpdated sym (target_price old_level) target p)]
     | None =>
         if (p =? 0)%float
         then [Log (Failed InAdd ZeroDivisionError); Reply u ErrorTryAgain]
         else [Reply u (LevelAdded sym target p)]
     end.

(** The items that a scan of [d] beginning with lookup [k] leaves. *)
Fixpoint sweep (env : environment) (k : nat) (d : levels) : levels :=
  match d with
  | [] => []
  | sl :: d' =>
      match fires env k sl with
      | Some _ => sweep env (S k) d'
      | None => sl :: sweep env (S k) d'
      end
  end.

Fixpoint sweep_all (env : environment) (k : nat) (reg : registry) : registry :=
  match reg with
  | [] => []
  | (u, d) :: reg' => (u, sweep env k d) :: sweep_all env (k + List.length d) reg'
  end.

(** The alerts of a scan of the entries [es] beginning with lookup [k]. *)
Fixpoint fired (env : environment) (k : nat)
    (es : list (Z * string * TargetLevel)) : list (Z * TargetLevel * float) :=
  match es with
  | [] => []
  | (u, s, l) :: es' =>
      match fires env k (s, l) with
      | Some p => (u, l, p) :: fired env (S k) es'
      | None => fired env (S k) es'
      end
  end.

(* ------------------------------------------------------------------ *)
(** * Insertion order, as a ledger of insertion times *)

(** For every user and symbol: the time at which the symbol entered the
    user's levels, and the level it has now. *)
Definition ledger := Z -> string -> option (nat * TargetLevel).

Definition empty_ledger : ledger := fun _ _ => None.

(** The write [m], made at time [t]. *)
Definition ledger_step (t : nat) (L : ledger) (m : mutation) : ledger :=
  match m with
  | Touch _ => L
  | Store u l =>
      fun u' s' =>
        if (u' =? u)%Z && (s' =? symbol l)%string
        then match L u (symbol l) with
             | Some (born, _) => Some (born, l)
             | None => Some (t, l)
             end
        else L u' s'
  | Discard u s =>
      fun u' s' => if (u' =? u)%Z && (s' =? s)%string then None else L u' s'
  end.

Fixpoint ledger_run (t : nat) (L : ledger) (ms : list mutation) : ledger :=
  match ms with
  | [] => L
  | m :: ms' => ledger_run (S t) (ledger_step t L m) ms'
  end.

(** [items] lists what the ledger holds for [user_id], oldest insertion
    first. *)
Definition in_insertion_order (L : ledger) (user_id : Z)
    (items : list (string * TargetLevel)) : Prop :=
  (forall s l, In (s, l) items <-> exists born, L user_id s = Some (born, l)) /\
  NoDup (map fst items) /\
  forall i j s1 l1 s2 l2 b1 b2,
    nth_error items i = Some (s1, l1) ->
    nth_error items j = Some (s2, l2) ->
    L user_id s1 = Some (b1, l1) ->
    L user_id s2 = Some (b2, l2) ->
    (i < j)%nat -> (b1 < b2)%nat.

(** The pair that a row of the list shows. *)
Definition shown (r : row) : string * TargetLevel := (row_symbol r, row_level r).

(** The pairs that a reply of [list_levels_command] shows. *)
Definition listed (m : message) : list (string * TargetLevel) :=
  match m with
  | LevelList rows => map shown rows
  | _ => []
  end.

(** The insertion time of a symbol of a user; 0 where the ledger has none. *)
Definition birth (L : ledger) (u : Z) (s : string) : nat :=
  match L u s with Some (b, _) => b | None => 0 end.

(** The registry [reg] and the ledger [L] agree at time [t]: the registry is well formed and holds the
    levels of the ledger, every insertion time is before [t], and every
    sub-map lists its symbols by rising insertion time. *)
Definition agrees (t : nat) (reg : registry) (L : ledger) : Prop :=
  wf_registry reg /\
  (forall u s, level_of reg u s = option_map snd (L u s)) /\
  (forall u s b l, L u s = Some (b, l) -> b < t) /\
  (forall u d, Dict.get reg u = Some d ->
     StronglySorted lt (map (birth L u) (Dict.keys d))).

(* ------------------------------------------------------------------ *)
(** * Worlds of the examples *)

(** Python's [float] on the price tokens of the examples; every other token
    of the examples is no number. *)
Definition float_of_token (s : string) : option float :=
  if (s =? "100")%string then Some 100%float
  else if (s =? "90")%string then Some 90%float
  else if (s =? "0")%string then Some 0%float
  else if (s =? "-5")%string then Some (-5)%float
  else None.

(** A source that quotes every symbol at [p]; no other coroutine writes and
    every message is delivered. *)
Definition steady (p : float) : environment :=
  mkEnv (fun _ _ => Some p) (fun _ => []) (fun _ => true) (fun n => Z.of_nat n).

(** A source that knows no symbol. *)
Definition blind : environment :=
  mkEnv (fun _ _ => None) (fun _ => []) (fun _ => true) (fun n => Z.of_nat n).

(** As [steady p], but no message is delivered. *)
Definition mute (p : float) : environment :=
  mkEnv (fun _ _ => Some p) (fun _ => []) (fun _ => false) (fun n => Z.of_nat n).

(** As [steady p], but a manual [/remove sym] of [user_id] runs during await
    number [at_await]. *)
Definition racing (p : float) (user_id : Z) (sym : string) (at_await : nat)
  : environment :=
  mkEnv (fun _ _ => Some p)
        (fun n => if Nat.eqb n at_await then [Discard user_id sym] else [])
        (fun _ => true) (fun n => Z.of_nat n).

Definition fresh : world := mkWorld [] [] 0 0.

Definition one_level (user_id : Z) (sym : string) (target : float) : world :=
  mkWorld [(user_id, [(sym, mkLevel sym target 0)])] [] 0 0.

(** The registry of the races: user 7 waits for SYM at 100. *)
Definition raced : world := one_level 7 "SYM" 100.

(* ------------------------------------------------------------------ *)
(** * Properties of runs *)

(** Whatever [m] does, it only appends to the trace, and what it appends
    satisfies [P]. *)
Definition appends {A} (P : event -> Prop) (m : M A) : Prop :=
  forall w, exists evs, trace (snd (m w)) = trace w ++ evs /\ Forall P evs.

Definition not_sleep (e : event) : Prop :=
  match e with Sleep _ => False | _ => True end.

(** From a registry that satisfies [P], [m] leads to a result and a registry
    that satisfy [Q]. *)
Definition hoare {A} (P : registry -> Prop) (m : M A)
    (Q : result A -> registry -> Prop) : Prop :=
  forall w, P (user_levels w) -> Q (fst (m w)) (user_levels (snd (m w))).

(** An invariant of the registry that the writes of the other coroutines
    keep. *)
Definition stable (I : registry -> Prop) : Prop :=
  forall reg m, I reg -> I (apply_mutation reg m).

(** The coroutine keeps [I], whether it returns or raises. *)
Definition keeps (I : registry -> Prop) {A} (m : M A) : Prop :=
  hoare I m (fun _ reg => I reg).

(* ------------------------------------------------------------------ *)
(** * The other handlers *)

(** [s.replace(old, new)] for an empty [old]: [new] before every character
    and at the end. *)
Fixpoint intersperse (new s : string) : string :=
  match s with
  | EmptyString => new
  | String c s' => (new ++ String c (intersperse new s'))%string
  end.

(** [s.replace(old, new)] for a non-empty [old], from left to right;
    [skip] characters of a match are still to be passed over. *)
Fixpoint replace_from (old new : string) (skip : nat) (s : string) : string :=
  match s with
  | EmptyString => EmptyString
  | String c s' =>
      match skip with
      | S k => replace_from old new k s'
      | O =>
          if prefix old s
          then (new ++ replace_from old new (String.length old - 1) s')%string
          else String c (replace_from old new 0 s')
      end
  end.

(** [s.replace(old, new)] *)
Definition str_replace (old new s : string) : string :=
  match old with
  | EmptyString => intersperse new s
  | String _ _ => replace_from old new 0 s
  end.

(** [callback_data=f"remove_{symbol}"], the data of the button that
    [remove_level_command] makes for a level. *)
Definition callback_data (sym : string) : string := ("remove_" ++ sym)%string.

(** What [start_command], [help_command] and [button_callback] show; these
    texts are the results of the coroutines below. *)
Inductive screen :=
| Welcome
| Help
| Cancelled
| LevelNotFound
| Removed (sym : string) (target : float).

Section Frontend.
Variable env : environment.

(** An await of the messaging API whose text the trace does not keep:
    [query.answer()], [query.edit_message_text(...)] and the replies of
    [/start] and [/help]. *)
Definition telegram_call : M unit :=
  n <- await env ;;
  if delivered env n then ret tt else raise TransportError.

Definition start_command (user_id : Z) : M screen :=
  ensure_user user_id ;;
  telegram_call ;;
  ret Welcome.

Definition help_command : M screen :=
  telegram_call ;;
  ret Help.

(** [query.data] is [data]; [None]: no branch of the handler applies and the
    message stays as it is. *)
Definition button_callback (user_id : Z) (data : string) : M (option screen) :=
  telegram_call ;;
  if (data =? "cancel")%string
  then telegram_call ;; ret (Some Cancelled)
  else if prefix "remove_" data
  then
    let sym := str_replace "remove_" EmptyString data in
    reg <- get_levels ;;
    match Dict.get reg user_id with
    | Some d =>
        match Dict.get d sym with
        | Some removed_level =>
            put_levels (Dict.set reg user_id (Dict.remove d sym)) ;;
            telegram_call ;;
            ret (Some (Removed sym (target_price removed_level)))
        | None => telegram_call ;; ret (Some LevelNotFound)
        end
    | None => telegram_call ;; ret (Some LevelNotFound)
    end
  else ret None.
End Frontend.

(* ------------------------------------------------------------------ *)
(** * More readers of runs *)

(** How many of the entries [es] get a price, the first at lookup [k]. *)
Fixpoint priced (env : environment) (k : nat)
    (es : list (Z * string * TargetLevel)) : nat :=
  match es with
  | [] => 0
  | (_, s, _) :: es' =>
      match prices env k s with
      | Some _ => S (priced env (S k) es')
      | None => priced env (S k) es'
      end
  end.

(** The row that [list_levels_command] makes of the item [sl] when the source
    answers [price]; [i] is its number. *)
Definition row_of (i : nat) (sl : string * TargetLevel) (price : option float)
  : row :=
  match price with
  | Some current =>
      if (current =? 0)%float then mkRow Unknown i (fst sl) (snd sl) None
      else if (current <=? target_price (snd sl))%float
           then mkRow ShouldHaveTriggered i (fst sl) (snd sl) (Some current)
           else mkRow Monitoring i (fst sl) (snd sl) (Some current)
  | None => mkRow Unknown i (fst sl) (snd sl) None
  end.

(** The rows of the items [d], numbered from [i], the first price being the
    answer to lookup [k]. *)
Fixpoint rows_of (env : environment) (k i : nat) (d : levels) : list row :=
  match d with
  | [] => []
  | sl :: d' => row_of i sl (prices env k (fst sl)) :: rows_of env (S k) (S i) d'
  end.

(** The entries other than the one of [user_id] and [sym]. *)
Definition without (user_id : Z) (sym : string)
    (es : list (Z * string * TargetLevel)) : list (Z * string * TargetLevel) :=
  filter (fun e => negb ((fst (fst e) =? user_id)%Z && (snd (fst e) =? sym)%string))
         es.

(** A new user signs up during await number [at_await]; else as [steady p]. *)
Definition growing (p : float) (user_id : Z) (at_await : nat) : environment :=
  mkEnv (fun _ _ => Some p)
        (fun n => if Nat.eqb n at_await then [Touch user_id] else [])
        (fun _ => true) (fun n => Z.of_nat n).


(** The totals that [check_all_levels] logged, in order. *)
Definition checked (tr : list event) : list nat :=
  flat_map (fun e => match e with Log (Checked n) => [n] | _ => [] end) tr.

Definition not_checked (e : event) : Prop :=
  match e with Log (Checked _) => False | _ => True end.

(** The registry has the users [ks0], in this order, before any other. *)
Definition users_from (ks0 : list Z) (reg : registry) : Prop :=
  exists ks, Dict.keys reg = ks0 ++ ks.

(** No other coroutine deletes a level: neither [/remove], nor a button, nor
    the scan takes a key out of a sub-map meanwhile. *)
Definition is_discard (m : mutation) : bool :=
  match m with Discard _ _ => true | _ => false end.

Definition no_discard (env : environment) : Prop :=
  forall n, forallb (fun m => negb (is_discard m)) (during env n) = true.

(** As [steady p], but an [/add] of [user_id] stores [level] during await
    number [at_await]. *)
Definition adding (p : float) (user_id : Z) (level : TargetLevel)
    (at_await : nat) : environment :=
  mkEnv (fun _ _ => Some p)
        (fun n => if Nat.eqb n at_await then [Store user_id level] else [])
        (fun _ => true) (fun n => Z.of_nat n).

(** [len(self.user_levels[user_id])]; 0 for a user the registry does not
    know. *)
Definition size_of (reg : registry) (user_id : Z) : nat :=
  match Dict.get reg user_id with
  | Some d => List.length d
  | None => 0
  end.

(** The registry [reg] after what the other coroutines write during [k]
    awaits, of which the first is await number [a]. *)
Fixpoint drift (env : environment) (a k : nat) (reg : registry) : registry :=
  match k with
  | O => reg
  | S k' => drift env (S a) k' (apply_mutations reg (during env a))
  end.

(* ------------------------------------------------------------------ *)
(** * Facts about dictionaries *)

Section DictFacts.
Context {K V : Type} `{EqKey K}.
Implicit Types (d : Dict.t K V) (k : K) (v : V).

Lemma keqb_refl k : keqb k k = true.
Proof. now apply keqb_eq. Qed.

Lemma keqb_neq k k' : k <> k' -> keqb k k' = false.
Proof.
  intros Hne. destruct (keqb k k') eqn:E; [|reflexivity].
  apply keqb_eq in E. contradiction.
Qed.

Lemma keqb_case k k' : {k = k' /\ keqb k k' = true} + {k <> k' /\ keqb k k' = false}.
Proof.
  destruct (keqb k k') eqn:E.
  - left. split; [now apply keqb_eq | reflexivity].
  - right. split; [|reflexivity]. intros ->. now rewrite keqb_refl in E.
Qed.

Lemma get_none_iff d k : Dict.get d k = None <-> ~ In k (Dict.keys d).
Proof.
  induction d as [|[k' v'] d IH]; simpl.
  - tauto.
  - destruct (keqb_case k k') as [[-> E]|[Hne E]]; rewrite E.
    + split; [discriminate | intros Hn; exfalso; apply Hn; now left].
    + rewrite IH. split; intros Hn.
      * intros [Heq|Hin]; [now apply Hne | now apply Hn].
      * intros Hin. apply Hn. now right.
Qed.

Lemma get_in d k v : Dict.get d k = Some v -> In (k, v) d.
Proof.
  induction d as [|[k' v'] d IH]; simpl; [discriminate|].
  destruct (keqb_case k k') as [[-> E]|[Hne E]]; rewrite E.
  - intros [= ->]. now left.
  - intros Hg. right. now apply IH.
Qed.

Lemma in_get d k v : Dict.wf d -> In (k, v) d -> Dict.get d k = Some v.
Proof.
  unfold Dict.wf, Dict.keys.
  induction d as [|[k' v'] d IH]; simpl; [tauto|].
  intros Hnd [Heq|Hin]; inversion Hnd as [|? ? Hnotin Hnd']; subst.
  - inversion Heq; subst. now rewrite keqb_refl.
  - destruct (keqb_case k k') as [[-> E]|[Hne E]]; rewrite E.
    + exfalso. apply Hnotin. change k' with (fst (k', v)). now apply in_map.
    + now apply IH.
Qed.

Lemma get_set_same d k v : Dict.get (Dict.set d k v) k = Some v.
Proof.
  induction d as [|[k' v'] d IH]; simpl.
  - now rewrite keqb_refl.
  - destruct (keqb k k') eqn:E; simpl; rewrite E; [reflexivity | exact IH].
Qed.

Lemma get_set_other d k k' v :
  k <> k' -> Dict.get (Dict.set d k v) k' = Dict.get d k'.
Proof.
  intros Hne. induction d as [|[k0 v0] d IH]; simpl.
  - rewrite keqb_neq; [reflexivity | congruence].
  - destruct (keqb_case k k0) as [[-> E]|[Hne0 E]]; rewrite E; simpl.
    + rewrite keqb_neq; [reflexivity | congruence].
    + now rewrite IH.
Qed.

Lemma get_remove_other d k k' :
  k <> k' -> Dict.get (Dict.remove d k) k' = Dict.get d k'.
Proof.
  intros Hne. induction d as [|[k0 v0] d IH]; simpl; [reflexivity|].
  destruct (keqb_case k k0) as [[-> E]|[Hne0 E]]; rewrite E; simpl.
  - rewrite keqb_neq; [reflexivity | congruence].
  - now rewrite IH.
Qed.

Lemma keys_set_present d k v :
  Dict.mem d k = true -> Dict.keys (Dict.set d k v) = Dict.keys d.
Proof.
  unfold Dict.mem, Dict.keys.
  induction d as [|[k0 v0] d IH]; simpl; [discriminate|].
  destruct (keqb k k0) eqn:E; simpl; [reflexivity|].
  intros Hm. now rewrite IH.
Qed.

Lemma set_absent d k v : Dict.get d k = None -> Dict.set d k v = d ++ [(k, v)].
Proof.
  induction d as [|[k0 v0] d IH]; simpl; [reflexivity|].
  destruct (keqb k k0) eqn:E; [discriminate|].
  intros Hg. now rewrite IH.
Qed.

Lemma mem_false_get d k : Dict.mem d k = false -> Dict.get d k = None.
Proof. unfold Dict.mem. now destruct (Dict.get d k). Qed.

Lemma wf_set d k v : Dict.wf d -> Dict.wf (Dict.set d k v).
Proof.
  intros Hwf. unfold Dict.wf. destruct (Dict.mem d k) eqn:Hm.
  - now rewrite keys_set_present.
  - apply mem_false_get in Hm. rewrite (set_absent _ _ _ Hm).
    unfold Dict.keys. rewrite map_app. simpl.
    apply NoDup_app; [exact Hwf | constructor; [tauto | constructor] |].
    intros x Hx [<-|[]]. now apply get_none_iff in Hm.
Qed.

Lemma keys_remove_incl d k x :
  In x (Dict.keys (Dict.remove d k)) -> In x (Dict.keys d).
Proof.
  unfold Dict.keys. induction d as [|[k0 v0] d IH]; simpl; [tauto|].
  destruct (keqb k k0); simpl; [tauto|]. intros [Hx|Hx]; [now left | right; now apply IH].
Qed.

Lemma wf_remove d k : Dict.wf d -> Dict.wf (Dict.remove d k).
Proof.
  unfold Dict.wf. induction d as [|[k0 v0] d IH]; simpl; intros Hnd.
  - constructor.
  - inversion Hnd as [|? ? Hnotin Hnd']; subst.
    destruct (keqb k k0); simpl; [exact Hnd'|].
    constructor; [|now apply IH].
    intros Hin. apply Hnotin. now apply keys_remove_incl in Hin.
Qed.

Lemma get_remove_same d k : Dict.wf d -> Dict.get (Dict.remove d k) k = None.
Proof.
  unfold Dict.wf. induction d as [|[k0 v0] d IH]; simpl; intros Hnd; [reflexivity|].
  inversion Hnd as [|? ? Hnotin Hnd']; subst.
  destruct (keqb_case k k0) as [[-> E]|[Hne E]]; rewrite E; simpl.
  - now apply get_none_iff.
  - rewrite E. now apply IH.
Qed.

Lemma in_dict_remove d k x : In x (Dict.remove d k) -> In x d.
Proof.
  induction d as [|[k0 v0] d IH]; simpl; [tauto|].
  destruct (keqb k k0); simpl; [tauto|]. intros [Hx|Hx]; [now left | right; now apply IH].
Qed.

Lemma in_dict_set d k v x : In x (Dict.set d k v) -> In x d \/ x = (k, v).
Proof.
  induction d as [|[k0 v0] d IH]; simpl.
  - intros [<-|[]]. now right.
  - destruct (keqb_case k k0) as [[-> E]|[Hne E]]; rewrite E; simpl.
    + intros [<-|Hx]; [now right | left; now right].
    + intros [<-|Hx]; [left; now left|]. destruct (IH Hx); [left; now right | now right].
Qed.

(** A key that is in no item of [pre] is found behind [pre]. *)
Lemma get_app_skip pre d k :
  ~ In k (Dict.keys pre) -> Dict.get (pre ++ d) k = Dict.get d k.
Proof.
  unfold Dict.keys. induction pre as [|[k0 v0] pre IH]; simpl; [reflexivity|].
  intros Hn. rewrite keqb_neq; [apply IH; tauto | intros ->; tauto].
Qed.

Lemma set_app_skip pre d k v :
  ~ In k (Dict.keys pre) -> Dict.set (pre ++ d) k v = pre ++ Dict.set d k v.
Proof.
  unfold Dict.keys. induction pre as [|[k0 v0] pre IH]; simpl; [reflexivity|].
  intros Hn. rewrite keqb_neq; [f_equal; apply IH; tauto | intros ->; tauto].
Qed.

Lemma remove_app_skip pre d k :
  ~ In k (Dict.keys pre) -> Dict.remove (pre ++ d) k = pre ++ Dict.remove d k.
Proof.
  unfold Dict.keys. induction pre as [|[k0 v0] pre IH]; simpl; [reflexivity|].
  intros Hn. rewrite keqb_neq; [f_equal; apply IH; tauto | intros ->; tauto].
Qed.
End DictFacts.

(* ------------------------------------------------------------------ *)
(** * Traces only grow *)

Section Appends.
Context (P : event -> Prop).

Lemma appends_ret {A} (a : A) : appends P (ret a).
Proof. intros w. exists []. simpl. now rewrite app_nil_r. Qed.

Lemma appends_raise {A} e : appends P (@raise A e).
Proof. intros w. exists []. simpl. now rewrite app_nil_r. Qed.

Lemma appends_bind {A B} (m : M A) (k : A -> M B) :
  appends P m -> (forall a, appends P (k a)) -> appends P (bind m k).
Proof.
  intros Hm Hk w. unfold bind. destruct (Hm w) as (e1 & E1 & F1).
  destruct (m w) as [[a|e] w1]; simpl in *.
  - destruct (Hk a w1) as (e2 & E2 & F2). exists (e1 ++ e2).
    rewrite E2, E1, app_assoc. split; [reflexivity | now apply Forall_app].
  - now exists e1.
Qed.

Lemma appends_try {A} (m : M A) (h : exn -> M A) :
  appends P m -> (forall e, appends P (h e)) -> appends P (try_except m h).
Proof.
  intros Hm Hh w. unfold try_except. destruct (Hm w) as (e1 & E1 & F1).
  destruct (m w) as [[a|e] w1]; simpl in *.
  - now exists e1.
  - destruct (Hh e w1) as (e2 & E2 & F2). exists (e1 ++ e2).
    rewrite E2, E1, app_assoc. split; [reflexivity | now apply Forall_app].
Qed.

Lemma appends_emit e : P e -> appends P (emit e).
Proof. intros He w. exists [e]. simpl. split; [reflexivity | now constructor]. Qed.

Lemma appends_get_levels : appends P get_levels.
Proof. intros w. exists []. simpl. now rewrite app_nil_r. Qed.

Lemma appends_put_levels reg : appends P (put_levels reg).
Proof. intros w. exists []. simpl. now rewrite app_nil_r. Qed.

Lemma appends_await env : appends P (await env).
Proof. intros w. exists []. simpl. now rewrite app_nil_r. Qed.

Lemma appends_if {A} (b : bool) (m1 m2 : M A) :
  appends P m1 -> appends P m2 -> appends P (if b then m1 else m2).
Proof. now destruct b. Qed.

Lemma appends_levels_of u : appends P (levels_of u).
Proof.
  apply appends_bind; [apply appends_get_levels|]. intros reg.
  destruct (Dict.get reg u); [apply appends_ret | apply appends_raise].
Qed.

Lemma appends_for_each {X A} (xs : list X) (body : X -> A -> M A) acc :
  (forall x a, appends P (body x a)) -> appends P (for_each xs body acc).
Proof.
  intros Hb. revert acc. induction xs as [|x xs IH]; intros acc; simpl.
  - apply appends_ret.
  - apply appends_bind; [apply Hb | intros a; apply IH].
Qed.

Lemma appends_iterate {K V A} (read : M (Dict.t K V)) used remaining
    (body : K * V -> A -> M A) acc :
  appends P read -> (forall x a, appends P (body x a)) ->
  appends P (iterate read used remaining body acc).
Proof.
  intros Hr Hb. revert acc. induction remaining as [|r IH]; intros acc; simpl.
  - apply appends_bind; [exact Hr|]. intros d.
    apply appends_if; [apply appends_raise | apply appends_ret].
  - apply appends_bind; [exact Hr|]. intros d.
    apply appends_if; [apply appends_raise|].
    destruct (nth_error d (used - S r)); [|apply appends_ret].
    apply appends_bind; [apply Hb | intros a; apply IH].
Qed.

Lemma appends_for_items {K V A} (read : M (Dict.t K V))
    (body : K * V -> A -> M A) acc :
  appends P read -> (forall x a, appends P (body x a)) ->
  appends P (for_items read body acc).
Proof.
  intros Hr Hb. apply appends_bind; [exact Hr|]. intros d.
  now apply appends_iterate.
Qed.
End Appends.

Ltac appends_auto :=
  repeat match goal with
    | |- appends _ (ret _) => apply appends_ret
    | |- appends _ (raise _) => apply appends_raise
    | |- appends _ get_levels => apply appends_get_levels
    | |- appends _ (put_levels _) => apply appends_put_levels
    | |- appends _ (await _) => apply appends_await
    | |- appends _ (levels_of _) => apply appends_levels_of
    | |- appends _ (emit _) => apply appends_emit; simpl; exact I
    | |- appends _ (bind _ _) => apply appends_bind; [|intros ?]
    | |- appends _ (try_except _ _) => apply appends_try; [|intros ?]
    | |- appends _ (for_each _ _ _) => apply appends_for_each; intros ? ?
    | |- appends _ (for_items _ _ _) => apply appends_for_items; [|intros ? ?]
    | |- appends _ (if _ then _ else _) => apply appends_if
    | |- appends _ (let (_, _) := ?x in _) => destruct x
    | |- appends _ (match ?x with _ => _ end) => destruct x
    | |- appends _ (fun w => _) =>
        intros w; exists []; simpl; now rewrite app_nil_r
    end.

Lemma get_binance_price_no_sleep env sym :
  appends not_sleep (get_binance_price env sym).
Proof. unfold get_binance_price. appends_auto. Qed.

Lemma send_target_hit_alert_no_sleep env u l p :
  appends not_sleep (send_target_hit_alert env u l p).
Proof. unfold send_target_hit_alert, send_message, logger. appends_auto. Qed.

Lemma check_level_no_sleep env u sl t :
  appends not_sleep (check_level env u sl t).
Proof.
  unfold check_level, del_level. destruct sl as [sym level].
  apply appends_bind; [apply get_binance_price_no_sleep|].
  intros [p|]; [|apply appends_ret].
  apply appends_bind; [|intros; apply appends_ret].
  apply appends_if; [|apply appends_ret].
  apply appends_bind; [apply send_target_hit_alert_no_sleep|]. intros _.
  appends_auto.
Qed.

Lemma check_all_levels_no_sleep env : appends not_sleep (check_all_levels env).
Proof.
  unfold check_all_levels, logger.
  apply appends_bind.
  - apply appends_for_items; [apply appends_get_levels|]. intros ul t.
    apply appends_for_each. intros sl t'. apply check_level_no_sleep.
  - intros t. appends_auto.
Qed.

Lemma since_app w w' evs : trace w' = trace w ++ evs -> since w w' = evs.
Proof.
  intros E. unfold since. rewrite E.
  rewrite skipn_app, skipn_all, Nat.sub_diag. reflexivity.
Qed.

Lemma sleeps_app a b : sleeps (a ++ b) = sleeps a ++ sleeps b.
Proof. apply flat_map_app. Qed.

Lemma sleeps_no_sleep evs : Forall not_sleep evs -> sleeps evs = [].
Proof.
  induction 1 as [|e evs He _ IH]; [reflexivity|].
  destruct e; simpl in *; try exact IH. contradiction.
Qed.

(* ------------------------------------------------------------------ *)
(** * The monitoring loop *)

(** One turn of the loop: the scan, then one sleep, 300 after a scan that
    returned and 60 after a scan that raised; the turn itself returns. *)
Lemma monitoring_turn_spec env w :
  exists w2, monitoring_turn env w = (Ok tt, w2) /\
    match check_all_levels env w with
    | (Ok _, w1) => trace w2 = trace w1 ++ [Sleep 300]
    | (Raise e, w1) => trace w2 = trace w1 ++ [Log (Failed InMonitor e); Sleep 60]
    end.
Proof.
  unfold monitoring_turn, try_except, bind at 1.
  destruct (check_all_levels env w) as [[[]|e] w1]; simpl.
  - eexists. split; reflexivity.
  - eexists. split; [reflexivity|]. simpl. now rewrite <- app_assoc.
Qed.

Lemma monitoring_turn_sleeps env w :
  exists w2 evs s, monitoring_turn env w = (Ok tt, w2) /\
    trace w2 = trace w ++ evs /\ (s = 300 \/ s = 60) /\ sleeps evs = [s].
Proof.
  destruct (monitoring_turn_spec env w) as (w2 & E & T).
  destruct (check_all_levels_no_sleep env w) as (evs & Ev & F).
  destruct (check_all_levels env w) as [[[]|e] w1]; simpl in *.
  - exists w2, (evs ++ [Sleep 300]), 300. repeat split.
    + exact E.
    + now rewrite T, Ev, app_assoc.
    + now left.
    + rewrite sleeps_app, (sleeps_no_sleep _ F). reflexivity.
  - exists w2, (evs ++ [Log (Failed InMonitor e); Sleep 60]), 60. repeat split.
    + exact E.
    + now rewrite T, Ev, app_assoc.
    + now right.
    + rewrite sleeps_app, (sleeps_no_sleep _ F). reflexivity.
Qed.

Lemma monitoring_turns_sleeps env n : forall w,
  exists w' evs, monitoring_turns env n w = (Ok tt, w') /\
    trace w' = trace w ++ evs /\
    List.length (sleeps evs) = n /\
    Forall (fun s => s = 300 \/ s = 60) (sleeps evs).
Proof.
  induction n as [|n IH]; intros w; simpl.
  - exists w, []. simpl. rewrite app_nil_r. repeat split; constructor.
  - destruct (monitoring_turn_sleeps env w) as (w2 & a & s & E & Ea & Hs & Sa).
    destruct (IH w2) as (w' & evs & E' & T' & L' & F').
    unfold bind. rewrite E, E'.
    exists w', (a ++ evs). repeat split.
    + now rewrite T', Ea, app_assoc.
    + rewrite sleeps_app, length_app, Sa, L'. reflexivity.
    + rewrite sleeps_app, Sa. apply Forall_app. split; [|exact F'].
      constructor; [exact Hs | constructor].
Qed.

(** C7: an exception that escapes a scan is caught at the turn's boundary: it
    is logged, the loop sleeps 60 instead of 300 and goes on with the next
    turn; and for every number of turns the loop runs them all and returns
    from each, sleeping once per turn, 300 or 60. *)
Theorem monitoring_loop_survives (env : environment) (w : world) :
  (forall e w1, check_all_levels env w = (Raise e, w1) ->
     exists w2, monitoring_turn env w = (Ok tt, w2) /\
       since w1 w2 = [Log (Failed InMonitor e); Sleep 60] /\
       forall n, monitoring_turns env (S n) w = monitoring_turns env n w2) /\
  (forall w1, check_all_levels env w = (Ok tt, w1) ->
     exists w2, monitoring_turn env w = (Ok tt, w2) /\
       since w1 w2 = [Sleep 300] /\
       forall n, monitoring_turns env (S n) w = monitoring_turns env n w2) /\
  (forall n, exists w',
     price_monitoring_loop env n w = (Ok tt, w') /\
     List.length (sleeps (since w w')) = n /\
     Forall (fun s => s = 300 \/ s = 60) (sleeps (since w w'))).
Proof.
  split; [|split].
  - intros e w1 Hc. destruct (monitoring_turn_spec env w) as (w2 & E & T).
    rewrite Hc in T. exists w2. split; [exact E|]. split.
    + now apply since_app.
    + intros n. simpl. unfold bind. now rewrite E.
  - intros w1 Hc. destruct (monitoring_turn_spec env w) as (w2 & E & T).
    rewrite Hc in T. exists w2. split; [exact E|]. split.
    + now apply since_app.
    + intros n. simpl. unfold bind. now rewrite E.
  - intros n. unfold price_monitoring_loop, logger, bind at 1. simpl.
    destruct (monitoring_turns_sleeps env n
                (mkWorld (user_levels w) (trace w ++ [Log Started])
                         (awaits w) (lookups w)))
      as (w' & evs & E & T & L & F).
    exists w'. split; [exact E|]. simpl in T.
    rewrite (since_app w w' ([Log Started] ++ evs)).
    + rewrite sleeps_app. simpl. split; assumption.
    + now rewrite T, <- app_assoc.
Qed.

Lemma monitoring_loop_survives_witness :
  check_all_levels (racing 95 7 "SYM" 0) raced
    = (Raise KeyError, snd (check_all_levels (racing 95 7 "SYM" 0) raced)) /\
  exists w2, monitoring_turn (racing 95 7 "SYM" 0) raced = (Ok tt, w2) /\
    since (snd (check_all_levels (racing 95 7 "SYM" 0) raced)) w2
      = [Log (Failed InMonitor KeyError); Sleep 60] /\
    forall n, monitoring_turns (racing 95 7 "SYM" 0) (S n) raced
              = monitoring_turns (racing 95 7 "SYM" 0) n w2.
Proof.
  split; [reflexivity|].
  apply (proj1 (monitoring_loop_survives (racing 95 7 "SYM" 0) raced) KeyError).
  reflexivity.
Defined.

(* ------------------------------------------------------------------ *)
(** * Coroutines in a quiet or calm environment *)

Lemma calm_quiet env : calm env -> quiet env.
Proof. intros H n. apply H. Qed.

Lemma get_binance_price_quiet env sym w :
  quiet env ->
  get_binance_price env sym w =
    (Ok (prices env (lookups w) sym),
     mkWorld (user_levels w) (trace w ++ [Lookup sym]) (S (awaits w))
             (S (lookups w))).
Proof.
  intros Q. unfold get_binance_price, bind, emit, await. simpl.
  rewrite Q. reflexivity.
Qed.

Lemma reply_text_calm env u m w :
  calm env ->
  reply_text env u m w =
    (Ok tt, mkWorld (user_levels w) (trace w ++ [Reply u m]) (S (awaits w))
                    (lookups w)).
Proof.
  intros C. unfold reply_text, bind, await.
  destruct (C (awaits w)) as [-> ->]. reflexivity.
Qed.

(** ** The registry under [touch], [store] and [discard] *)

Lemma level_of_touch reg u u' s :
  level_of (touch reg u) u' s = level_of reg u' s.
Proof.
  unfold touch, level_of. destruct (Dict.mem reg u) eqn:Hm; [reflexivity|].
  apply mem_false_get in Hm.
  destruct (Z.eq_dec u u') as [<-|Hne].
  - now rewrite get_set_same, Hm.
  - now rewrite get_set_other.
Qed.

Lemma get_touch_same reg u : exists d, Dict.get (touch reg u) u = Some d /\
  (forall s, Dict.get d s = level_of reg u s).
Proof.
  unfold touch, level_of, Dict.mem. destruct (Dict.get reg u) as [d|] eqn:Hg.
  - exists d. now rewrite Hg.
  - exists []. now rewrite get_set_same.
Qed.

Lemma entries_set_absent (reg : registry) u :
  Dict.get reg u = None -> entries (Dict.set reg u []) = entries reg.
Proof.
  intros Hg. rewrite (set_absent _ _ _ Hg). unfold entries.
  rewrite flat_map_app. simpl. now rewrite app_nil_r.
Qed.

Lemma entries_touch reg u : entries (touch reg u) = entries reg.
Proof.
  unfold touch. destruct (Dict.mem reg u) eqn:Hm; [reflexivity|].
  apply entries_set_absent. now apply mem_false_get.
Qed.

Lemma level_of_set_same (reg : registry) u d s :
  level_of (Dict.set reg u d) u s = Dict.get d s.
Proof. unfold level_of. now rewrite get_set_same. Qed.

Lemma level_of_set_other (reg : registry) u u' d s :
  u <> u' -> level_of (Dict.set reg u d) u' s = level_of reg u' s.
Proof. intros Hne. unfold level_of. now rewrite get_set_other. Qed.

Ltac unfold_py :=
  cbv beta iota zeta delta
    [add_level_command list_levels_command remove_level_command
     send_target_hit_alert del_level check_level ensure_user
     try_except bind get_levels put_levels levels_of datetime_now
     get_binance_price reply_text send_message sleep logger emit await
     ret raise].

(** ** [add_level_command] where the price source knows the symbol *)

Lemma add_level_command_stores py_float env u a0 a1 target p w :
  calm env ->
  py_float a1 = Some target ->
  prices env (lookups w) (upper a0) = Some p ->
  exists w' d created,
    add_level_command py_float env u [a0; a1] w = (Ok tt, w') /\
    Dict.get (touch (user_levels w) u) u = Some d /\
    user_levels w' =
      Dict.set (touch (user_levels w) u) u
        (Dict.set d (upper a0) (mkLevel (upper a0) target created)) /\
    trace w' = trace w ++ Lookup (upper a0)
                 :: add_report u (upper a0) (Dict.get d (upper a0)) target p /\
    lookups w' = S (lookups w).
Proof.
  intros C Hf Hp.
  destruct (get_touch_same (user_levels w) u) as (d & Hd & _).
  pose proof (fun n => proj1 (C n)) as Cq.
  pose proof (fun n => proj2 (C n)) as Cd.
  exists (snd (add_level_command py_float env u [a0; a1] w)), d.
  unfold add_report. unfold_py.
  rewrite Hf. unfold_py. cbn [user_levels trace awaits lookups].
  rewrite !Cq, ?Cd. cbn [apply_mutations fold_left]. rewrite Hp.
  destruct (p <=? target)%float; cbn [user_levels trace awaits lookups];
    rewrite ?Cq, ?Cd; cbn [apply_mutations fold_left user_levels trace awaits lookups];
    rewrite Hd; destruct (Dict.get d (upper a0)) as [old|];
    try destruct (p =? 0)%float;
    cbn [user_levels trace awaits lookups];
    rewrite ?Cq, ?Cd; cbn [apply_mutations fold_left user_levels trace awaits lookups snd];
    eexists; repeat split; rewrite <- ?app_assoc; reflexivity.
Qed.

(** ** Well-formed registries *)

Lemma wf_registry_get reg u d :
  wf_registry reg -> Dict.get reg u = Some d -> Dict.wf d /\ keyed d.
Proof.
  intros [_ F] Hg. apply get_in in Hg.
  rewrite Forall_forall in F. exact (F _ Hg).
Qed.

Lemma wf_registry_set reg u d :
  wf_registry reg -> Dict.wf d -> keyed d -> wf_registry (Dict.set reg u d).
Proof.
  intros [W F] Wd Kd. split; [now apply wf_set|].
  rewrite Forall_forall in *. intros x Hx.
  destruct (in_dict_set _ _ _ _ Hx) as [Hin| ->]; [now apply F | now split].
Qed.

Lemma wf_touch reg u : wf_registry reg -> wf_registry (touch reg u).
Proof.
  intros W. unfold touch. destruct (Dict.mem reg u); [exact W|].
  apply wf_registry_set; [exact W | constructor | constructor].
Qed.

Lemma keyed_set d l : keyed d -> keyed (Dict.set d (symbol l) l).
Proof.
  unfold keyed. rewrite !Forall_forall. intros F x Hx.
  destruct (in_dict_set _ _ _ _ Hx) as [Hin| ->]; [now apply F | reflexivity].
Qed.

Lemma keyed_remove d s : keyed d -> keyed (Dict.remove d s).
Proof.
  unfold keyed. rewrite !Forall_forall. intros F x Hx.
  apply F. now apply in_dict_remove in Hx.
Qed.

Lemma wf_store reg u l : wf_registry reg -> wf_registry (store reg u l).
Proof.
  intros W. unfold store. destruct (Dict.get reg u) as [d|] eqn:Hg; [|exact W].
  destruct (wf_registry_get _ _ _ W Hg) as [Wd Kd].
  apply wf_registry_set; [exact W | now apply wf_set | now apply keyed_set].
Qed.

Lemma wf_discard reg u s : wf_registry reg -> wf_registry (discard reg u s).
Proof.
  intros W. unfold discard. destruct (Dict.get reg u) as [d|] eqn:Hg; [|exact W].
  destruct (wf_registry_get _ _ _ W Hg) as [Wd Kd].
  apply wf_registry_set; [exact W | now apply wf_remove | now apply keyed_remove].
Qed.

Lemma wf_apply_mutations ms : forall reg,
  wf_registry reg -> wf_registry (apply_mutations reg ms).
Proof.
  unfold apply_mutations.
  induction ms as [|m ms IH]; intros reg W; simpl; [exact W|].
  apply IH. destruct m; simpl.
  - now apply wf_touch.
  - now apply wf_store, wf_touch.
  - now apply wf_discard.
Qed.

(** ** Counting the entries of a symbol *)

Lemma count_items_absent (u u0 : Z) (s : string) (d : levels) :
  u0 <> u ->
  filter (fun e : Z * string * TargetLevel =>
            (fst (fst e) =? u)%Z && (snd (fst e) =? s)%string)
         (map (fun sl => (u0, fst sl, snd sl)) d) = [].
Proof.
  intros Hne. induction d as [|[s0 l0] d IH]; simpl; [reflexivity|].
  destruct (Z.eqb_spec u0 u) as [E|_]; [contradiction|]. exact IH.
Qed.

Lemma count_items (u : Z) (s : string) (d : levels) :
  Dict.wf d ->
  List.length
    (filter (fun e : Z * string * TargetLevel =>
               (fst (fst e) =? u)%Z && (snd (fst e) =? s)%string)
            (map (fun sl => (u, fst sl, snd sl)) d))
  = match Dict.get d s with Some _ => 1 | None => 0 end.
Proof.
  unfold Dict.wf, Dict.keys.
  induction d as [|[s0 l0] d IH]; simpl; intros Hnd; [reflexivity|].
  inversion Hnd as [|? ? Hnotin Hnd']; subst.
  rewrite Z.eqb_refl. simpl.
  rewrite (String.eqb_sym s0 s).
  destruct (String.eqb_spec s s0) as [->|Hne]; simpl.
  - rewrite IH by exact Hnd'.
    replace (Dict.get d s0) with (@None TargetLevel); [reflexivity|].
    symmetry. now apply get_none_iff.
  - now apply IH.
Qed.

Lemma count_symbol_absent_user reg u s :
  ~ In u (Dict.keys reg) -> count_symbol reg u s = 0.
Proof.
  unfold count_symbol, entries, Dict.keys.
  induction reg as [|[u0 d0] reg IH]; simpl; intros Hn; [reflexivity|].
  rewrite filter_app, length_app, count_items_absent by tauto.
  simpl. apply IH. tauto.
Qed.

Lemma count_symbol_wf reg u s :
  wf_registry reg ->
  count_symbol reg u s = match level_of reg u s with Some _ => 1 | None => 0 end.
Proof.
  intros [W F]. unfold level_of. revert W F. unfold Dict.wf.
  induction reg as [|[u0 d0] reg IH]; simpl; intros W F; [reflexivity|].
  inversion W as [|? ? Hnotin W']; subst.
  inversion F as [|? ? [Wd _] F']; subst. simpl in Wd.
  unfold count_symbol, entries in *. simpl.
  rewrite filter_app, length_app.
  destruct (Z.eqb_spec u u0) as [->|Hne].
  - rewrite count_items by exact Wd.
    fold (entries reg). fold (count_symbol reg u0 s).
    rewrite count_symbol_absent_user by exact Hnotin. lia.
  - rewrite count_items_absent by congruence. simpl. now apply IH.
Qed.

Ltac calm_run C :=
  let Cq := fresh "Cq" in
  let Cd := fresh "Cd" in
  pose proof (fun n => proj1 (C n)) as Cq;
  pose proof (fun n => proj2 (C n)) as Cd;
  unfold_py; cbn [user_levels trace awaits lookups];
  rewrite ?Cq, ?Cd;
  cbn [apply_mutations fold_left user_levels trace awaits lookups].

Lemma add_level_command_invalid_price py_float env u a0 a1 w :
  calm env ->
  py_float a1 = None ->
  add_level_command py_float env u [a0; a1] w =
    (Ok tt, mkWorld (touch (user_levels w) u) (trace w ++ [Reply u InvalidPrice])
                    (S (awaits w)) (lookups w)).
Proof.
  intros C Hf. unfold_py. rewrite Hf. calm_run C. reflexivity.
Qed.

Lemma add_level_command_invalid_symbol py_float env u a0 a1 target w :
  calm env ->
  py_float a1 = Some target ->
  prices env (lookups w) (upper a0) = None ->
  add_level_command py_float env u [a0; a1] w =
    (Ok tt, mkWorld (touch (user_levels w) u)
                    (trace w ++ [Lookup (upper a0); Reply u (InvalidSymbol (upper a0))])
                    (S (S (awaits w))) (S (lookups w))).
Proof.
  intros C Hf Hp. unfold_py. rewrite Hf. calm_run C. rewrite Hp.
  calm_run C. now rewrite <- app_assoc.
Qed.

Lemma remove_level_command_pops env u s rest d lvl w :
  calm env ->
  Dict.get (user_levels w) u = Some d ->
  Dict.get d (upper s) = Some lvl ->
  remove_level_command env u (s :: rest) w =
    (Ok tt, mkWorld (Dict.set (user_levels w) u (Dict.remove d (upper s)))
                    (trace w ++ [Reply u (LevelRemoved (upper s) (target_price lvl))])
                    (S (awaits w)) (lookups w)).
Proof.
  intros C Hd Hl. unfold_py. rewrite Hd.
  destruct d as [|sl d]; [discriminate|].
  rewrite Hl. calm_run C. reflexivity.
Qed.

(** ** The level that [add_level_command] leaves *)

Lemma add_level_command_level py_float env u a0 a1 target p w :
  calm env ->
  py_float a1 = Some target ->
  prices env (lookups w) (upper a0) = Some p ->
  exists w' created,
    add_level_command py_float env u [a0; a1] w = (Ok tt, w') /\
    level_of (user_levels w') u (upper a0)
      = Some (mkLevel (upper a0) target created) /\
    (forall u' s', (u', s') <> (u, upper a0) ->
       level_of (user_levels w') u' s' = level_of (user_levels w) u' s') /\
    since w w' = Lookup (upper a0)
                   :: add_report u (upper a0)
                        (level_of (user_levels w) u (upper a0)) target p /\
    lookups w' = S (lookups w) /\
    (wf_registry (user_levels w) -> wf_registry (user_levels w')).
Proof.
  intros C Hf Hp.
  destruct (add_level_command_stores py_float env u a0 a1 target p w C Hf Hp)
    as (w' & d & created & E & Hd & Hreg & Htr & Hl).
  destruct (get_touch_same (user_levels w) u) as (d' & Hd' & Hsame).
  rewrite Hd in Hd'. injection Hd' as <-.
  exists w', created. split; [exact E|]. rewrite Hreg.
  split; [|split; [|split; [|split]]].
  - now rewrite level_of_set_same, get_set_same.
  - intros u' s' Hne. destruct (Z.eq_dec u u') as [<-|Hu].
    + rewrite level_of_set_same, get_set_other by congruence. apply Hsame.
    + rewrite level_of_set_other by exact Hu. apply level_of_touch.
  - rewrite <- Hsame. now apply since_app.
  - exact Hl.
  - intros W. apply wf_touch with (u := u) in W.
    destruct (wf_registry_get _ _ _ W Hd) as [Wd Kd].
    apply wf_registry_set; [exact W | now apply wf_set |].
    exact (keyed_set d (mkLevel (upper a0) target created) Kd).
Qed.

(** C2, as the code has it: a price token that is no number, and a symbol
    that the price source does not know, are turned down with a message, and
    the registry keeps every entry it had and gets no new one; the sign of
    the price is not looked at: a price that is zero or negative is stored as
    any other. *)
Theorem add_level_command_rejects (py_float : string -> option float)
    (env : environment) (u : Z) (a0 a1 : string) (w : world) :
  calm env ->
  (py_float a1 = None ->
   exists w', add_level_command py_float env u [a0; a1] w = (Ok tt, w') /\
     since w w' = [Reply u InvalidPrice] /\
     entries (user_levels w') = entries (user_levels w)) /\
  (forall target, py_float a1 = Some target ->
   prices env (lookups w) (upper a0) = None ->
   exists w', add_level_command py_float env u [a0; a1] w = (Ok tt, w') /\
     since w w' = [Lookup (upper a0); Reply u (InvalidSymbol (upper a0))] /\
     entries (user_levels w') = entries (user_levels w)) /\
  (forall target p, py_float a1 = Some target ->
   prices env (lookups w) (upper a0) = Some p ->
   (target <=? 0)%float = true ->
   exists w' created,
     add_level_command py_float env u [a0; a1] w = (Ok tt, w') /\
     level_of (user_levels w') u (upper a0)
       = Some (mkLevel (upper a0) target created)).
Proof.
  intros C. split; [|split].
  - intros Hf. eexists. split; [now apply add_level_command_invalid_price|].
    split; [now apply since_app | apply entries_touch].
  - intros target Hf Hp. eexists.
    split; [now apply (add_level_command_invalid_symbol _ _ _ _ _ target)|].
    split; [now apply since_app | apply entries_touch].
  - intros target p Hf Hp _.
    destruct (add_level_command_level py_float env u a0 a1 target p w C Hf Hp)
      as (w' & created & E & L & _).
    now exists w', created.
Qed.

Lemma steady_calm p : calm (steady p).
Proof. intros n. split; reflexivity. Qed.

Lemma blind_calm : calm blind.
Proof. intros n. split; reflexivity. Qed.

Lemma add_level_command_rejects_witness :
  (exists w', add_level_command float_of_token (steady 120) 7 ["sym"; "abc"]%string fresh
              = (Ok tt, w') /\
     since fresh w' = [Reply 7 InvalidPrice] /\
     entries (user_levels w') = entries (user_levels fresh)) /\
  (exists w', add_level_command float_of_token blind 7 ["sym"; "100"]%string fresh
              = (Ok tt, w') /\
     since fresh w' = [Lookup "SYM"; Reply 7 (InvalidSymbol "SYM")] /\
     entries (user_levels w') = entries (user_levels fresh)).
Proof.
  split.
  - apply (proj1 (add_level_command_rejects float_of_token (steady 120) 7
                    "sym" "abc" fresh (steady_calm 120))).
    reflexivity.
  - apply (proj1 (proj2 (add_level_command_rejects float_of_token blind 7
                           "sym" "100" fresh blind_calm)) 100%float);
      reflexivity.
Defined.

(** C2 fails for a price that is a number but not positive: with a source
    that quotes the symbol, [/add sym -5] and [/add sym 0] return normally and
    the level is stored. *)
Lemma add_level_command_stores_nonpositive :
  float_of_token "-5" = Some (-5)%float /\ ((-5) <=? 0)%float = true /\
  add_level_command float_of_token (steady 120) 7 ["sym"; "-5"]%string fresh
    = (Ok tt,
       mkWorld [(7%Z, [("SYM"%string, mkLevel "SYM" (-5) 1)])]
               [Lookup "SYM"; Reply 7 (LevelAdded "SYM" (-5) 120)] 2 1) /\
  float_of_token "0" = Some 0%float /\ (0 <=? 0)%float = true /\
  add_level_command float_of_token (steady 120) 7 ["sym"; "0"]%string fresh
    = (Ok tt,
       mkWorld [(7%Z, [("SYM"%string, mkLevel "SYM" 0 1)])]
               [Lookup "SYM"; Reply 7 (LevelAdded "SYM" 0 120)] 2 1).
Proof. repeat split; reflexivity. Qed.

(** C3, as the code has it: where the price source quotes the symbol (and
    the messages get through), the command returns and the level is stored
    under the upper-cased symbol, for a user the registry did not know as for
    any other, and also when the target is at or above the current price,
    which only adds a warning to the replies; no other entry changes.  Where
    the price source does not quote the symbol the command stores nothing. *)
Theorem add_level_command_succeeds (py_float : string -> option float)
    (env : environment) (u : Z) (a0 a1 : string) (target : float) (w : world) :
  calm env ->
  py_float a1 = Some target ->
  (forall p, prices env (lookups w) (upper a0) = Some p ->
   exists w' created,
     add_level_command py_float env u [a0; a1] w = (Ok tt, w') /\
     level_of (user_levels w') u (upper a0)
       = Some (mkLevel (upper a0) target created) /\
     (forall u' s', (u', s') <> (u, upper a0) ->
        level_of (user_levels w') u' s' = level_of (user_levels w) u' s') /\
     ((p <=? target)%float = true ->
        In (Reply u (WarningAboveCurrent target p)) (since w w'))) /\
  (prices env (lookups w) (upper a0) = None ->
   exists w',
     add_level_command py_float env u [a0; a1] w = (Ok tt, w') /\
     In (Reply u (InvalidSymbol (upper a0))) (since w w') /\
     entries (user_levels w') = entries (user_levels w)).
Proof.
  intros C Hf. split.
  - intros p Hp.
    destruct (add_level_command_level py_float env u a0 a1 target p w C Hf Hp)
      as (w' & created & E & Hl & Ho & Hs & _).
    exists w', created. repeat split; try assumption.
    intros Hle. rewrite Hs. unfold add_report. rewrite Hle. right. now left.
  - intros Hp. eexists.
    split; [now apply (add_level_command_invalid_symbol _ _ _ _ _ target)|].
    split; [|apply entries_touch].
    erewrite since_app by (cbn [trace]; reflexivity). right. now left.
Qed.

Lemma add_level_command_succeeds_witness :
  exists w' created,
    add_level_command float_of_token (steady 90) 7 ["sym"; "100"]%string fresh
      = (Ok tt, w') /\
    level_of (user_levels w') 7 (upper "sym")
      = Some (mkLevel (upper "sym") 100 created) /\
    (forall u' s', (u', s') <> (7%Z, upper "sym") ->
       level_of (user_levels w') u' s' = level_of (user_levels fresh) u' s') /\
    ((90 <=? 100)%float = true ->
       In (Reply 7 (WarningAboveCurrent 100 90)) (since fresh w')).
Proof.
  apply (proj1 (add_level_command_succeeds float_of_token (steady 90) 7 "sym"
                  "100" 100 fresh (steady_calm 90) eq_refl) 90%float).
  reflexivity.
Defined.

(** C3 fails where the price source does not know the symbol: the command
    answers "invalid symbol" and stores nothing, however valid the price. *)
Lemma add_level_command_unknown_symbol :
  float_of_token "100" = Some 100%float /\
  add_level_command float_of_token blind 7 ["sym"; "100"]%string fresh
    = (Ok tt, mkWorld [(7%Z, [])] [Lookup "SYM"; Reply 7 (InvalidSymbol "SYM")] 2 1) /\
  level_of (user_levels (snd (add_level_command float_of_token blind 7
                                ["sym"; "100"]%string fresh))) 7 "SYM" = None.
Proof. repeat split; reflexivity. Qed.

(** ** One level per user and symbol, whatever the other coroutines do *)

Lemma hoare_ret {A} (P : registry -> Prop) (a : A) Q :
  (forall reg, P reg -> Q (Ok a) reg) -> hoare P (ret a) Q.
Proof. intros H w Hw. now apply H. Qed.

Lemma hoare_raise {A} (P : registry -> Prop) e (Q : result A -> registry -> Prop) :
  (forall reg, P reg -> Q (Raise e) reg) -> hoare P (raise e) Q.
Proof. intros H w Hw. now apply H. Qed.

Lemma hoare_bind {A B} (P : registry -> Prop) (m : M A) (k : A -> M B)
    (Q1 : result A -> registry -> Prop) (Q : result B -> registry -> Prop) :
  hoare P m Q1 ->
  (forall a, hoare (Q1 (Ok a)) (k a) Q) ->
  (forall e reg, Q1 (Raise e) reg -> Q (Raise e) reg) ->
  hoare P (bind m k) Q.
Proof.
  intros Hm Hk He w Hw. unfold bind. specialize (Hm w Hw).
  destruct (m w) as [[a|e] w1]; simpl in *.
  - now apply Hk.
  - now apply He.
Qed.

Lemma hoare_try {A} (P : registry -> Prop) (m : M A) (h : exn -> M A)
    (Q1 Q : result A -> registry -> Prop) :
  hoare P m Q1 ->
  (forall e, hoare (Q1 (Raise e)) (h e) Q) ->
  (forall a reg, Q1 (Ok a) reg -> Q (Ok a) reg) ->
  hoare P (try_except m h) Q.
Proof.
  intros Hm Hh Ha w Hw. unfold try_except. specialize (Hm w Hw).
  destruct (m w) as [[a|e] w1]; simpl in *.
  - now apply Ha.
  - now apply Hh.
Qed.

Lemma hoare_emit (P : registry -> Prop) e :
  hoare P (emit e) (fun _ reg => P reg).
Proof. intros w Hw. exact Hw. Qed.

Lemma stable_mutations I ms : stable I ->
  forall reg, I reg -> I (apply_mutations reg ms).
Proof.
  intros S. unfold apply_mutations.
  induction ms as [|m ms IH]; intros reg Hr; simpl; [exact Hr|].
  apply IH, S, Hr.
Qed.

Lemma wf_stable : stable wf_registry.
Proof.
  intros reg m W. destruct m; simpl.
  - now apply wf_touch.
  - now apply wf_store, wf_touch.
  - now apply wf_discard.
Qed.

Section Invariant.
Variable env : environment.
Variable I : registry -> Prop.
Hypothesis I_stable : stable I.

Lemma keeps_ret {A} (a : A) : keeps I (ret a).
Proof. now apply hoare_ret. Qed.

Lemma keeps_raise {A} e : keeps I (@raise A e).
Proof. now apply hoare_raise. Qed.

Lemma keeps_bind {A B} (m : M A) (k : A -> M B) :
  keeps I m -> (forall a, keeps I (k a)) -> keeps I (bind m k).
Proof.
  intros Hm Hk. apply hoare_bind with (Q1 := fun _ reg => I reg); auto.
Qed.

Lemma keeps_try {A} (m : M A) (h : exn -> M A) :
  keeps I m -> (forall e, keeps I (h e)) -> keeps I (try_except m h).
Proof.
  intros Hm Hh. apply hoare_try with (Q1 := fun _ reg => I reg); auto.
Qed.

Lemma keeps_emit e : keeps I (emit e).
Proof. apply hoare_emit. Qed.

Lemma keeps_await : keeps I (await env).
Proof. intros w Hw. simpl. now apply stable_mutations. Qed.

Lemma keeps_if {A} (b : bool) (m1 m2 : M A) :
  keeps I m1 -> keeps I m2 -> keeps I (if b then m1 else m2).
Proof. now destruct b. Qed.

Lemma keeps_state {A} (f : world -> A) (g : world -> nat) :
  keeps I (fun w => (Ok (f w), mkWorld (user_levels w) (trace w) (awaits w) (g w))).
Proof. intros w Hw. exact Hw. Qed.

(** A write of a registry computed from the one just read. *)
Lemma keeps_update (f : registry -> registry) :
  (forall reg, I reg -> I (f reg)) ->
  keeps I (reg <- get_levels ;; put_levels (f reg)).
Proof. intros Hf w Hw. simpl. now apply Hf. Qed.

Lemma keeps_levels_of u : keeps I (levels_of u).
Proof.
  intros w Hw. unfold levels_of, bind, get_levels.
  destruct (Dict.get (user_levels w) u); exact Hw.
Qed.

Lemma keeps_for_each {X A} (xs : list X) (body : X -> A -> M A) acc :
  (forall x a, keeps I (body x a)) -> keeps I (for_each xs body acc).
Proof.
  intros Hb. revert acc. induction xs as [|x xs IH]; intros acc; simpl.
  - apply keeps_ret.
  - apply keeps_bind; [apply Hb | intros a; apply IH].
Qed.

Lemma keeps_iterate {K V A} (read : M (Dict.t K V)) used remaining
    (body : K * V -> A -> M A) acc :
  keeps I read -> (forall x a, keeps I (body x a)) ->
  keeps I (iterate read used remaining body acc).
Proof.
  intros Hr Hb. revert acc. induction remaining as [|r IH]; intros acc; simpl.
  - apply keeps_bind; [exact Hr|]. intros d.
    apply keeps_if; [apply keeps_raise | apply keeps_ret].
  - apply keeps_bind; [exact Hr|]. intros d.
    apply keeps_if; [apply keeps_raise|].
    destruct (nth_error d (used - S r)); [|apply keeps_ret].
    apply keeps_bind; [apply Hb | intros a; apply IH].
Qed.

Lemma keeps_for_items {K V A} (read : M (Dict.t K V))
    (body : K * V -> A -> M A) acc :
  keeps I read -> (forall x a, keeps I (body x a)) ->
  keeps I (for_items read body acc).
Proof.
  intros Hr Hb. apply keeps_bind; [exact Hr|]. intros d.
  now apply keeps_iterate.
Qed.

Lemma keeps_reply_text u m : keeps I (reply_text env u m).
Proof.
  apply keeps_bind; [apply keeps_await|]. intros n.
  apply keeps_if; [apply keeps_emit | apply keeps_raise].
Qed.

Lemma keeps_send_message u m : keeps I (send_message env u m).
Proof.
  apply keeps_bind; [apply keeps_await|]. intros n.
  apply keeps_if; [apply keeps_emit | apply keeps_raise].
Qed.

Lemma keeps_get_binance_price s : keeps I (get_binance_price env s).
Proof.
  apply keeps_bind; [apply keeps_emit|]. intros _.
  apply keeps_bind; [apply keeps_await|]. intros _.
  apply (keeps_state (fun w => prices env (lookups w) s) (fun w => S (lookups w))).
Qed.

Lemma keeps_sleep n : keeps I (sleep env n).
Proof.
  apply keeps_bind; [apply keeps_emit|]. intros _.
  apply keeps_bind; [apply keeps_await|]. intros _. apply keeps_ret.
Qed.

Lemma keeps_send_target_hit_alert u l p : keeps I (send_target_hit_alert env u l p).
Proof.
  apply keeps_bind; [apply keeps_emit|]. intros _.
  apply keeps_try; [|intros e; apply keeps_emit].
  apply keeps_if; [apply keeps_raise|].
  apply keeps_bind; [apply keeps_send_message | intros _; apply keeps_emit].
Qed.
End Invariant.

Lemma wf_set_levels reg u d d' :
  wf_registry reg -> Dict.get reg u = Some d ->
  (Dict.wf d -> Dict.wf d') -> (keyed d -> keyed d') ->
  wf_registry (Dict.set reg u d').
Proof.
  intros W Hg Hw Hk. destruct (wf_registry_get _ _ _ W Hg) as [Wd Kd].
  apply wf_registry_set; auto.
Qed.

(** [self.user_levels[user_id][sym] = level] and [del ...[sym]], on the sub-map
    read in the same step. *)
Lemma keeps_wf_levels_update {A} u (k : levels -> M A) :
  (forall d, hoare (fun reg => wf_registry reg /\ Dict.get reg u = Some d)
                   (k d) (fun _ reg => wf_registry reg)) ->
  keeps wf_registry (d <- levels_of u ;; k d).
Proof.
  intros Hk w W. unfold levels_of, bind, get_levels.
  destruct (Dict.get (user_levels w) u) as [d|] eqn:Hg; simpl.
  - apply (Hk d w). now split.
  - exact W.
Qed.

Lemma del_level_wf u sym : keeps wf_registry (del_level u sym).
Proof.
  unfold del_level. apply keeps_wf_levels_update.
  intros d w [W Hg]. destruct (Dict.mem d sym); simpl; [|exact W].
  apply (wf_set_levels _ _ d); auto using wf_remove, keyed_remove.
Qed.

Lemma add_level_command_wf py_float env u args :
  keeps wf_registry (add_level_command py_float env u args).
Proof.
  pose proof wf_stable as S.
  unfold add_level_command, ensure_user.
  apply keeps_bind; [apply keeps_update; intros reg W; now apply wf_touch|].
  intros _. apply keeps_try.
  2:{ intros e. destruct e; try (apply keeps_bind; [apply keeps_emit | intros _]);
        now apply keeps_reply_text. }
  destruct args as [|a0 [|a1 [|a2 rest]]]; try now apply keeps_reply_text.
  apply keeps_bind.
  { destruct (py_float a1); [apply keeps_ret | apply keeps_raise]. }
  intros target. apply keeps_bind; [now apply keeps_get_binance_price|].
  intros [current|]; [|now apply keeps_reply_text].
  apply keeps_bind.
  { apply keeps_if; [now apply keeps_reply_text | apply keeps_ret]. }
  intros _. apply keeps_wf_levels_update. intros d w [W Hg].
  unfold bind at 1, datetime_now. cbv beta iota.
  unfold bind at 1, get_levels. cbv beta iota.
  unfold bind at 1, put_levels. cbv beta iota.
  set (level := mkLevel (upper a0) target (now env (awaits w))).
  assert (W' : wf_registry
                 (Dict.set (user_levels w) u (Dict.set d (upper a0) level))).
  { apply (wf_set_levels _ _ d); auto using wf_set.
    intros Kd. exact (keyed_set d level Kd). }
  destruct (Dict.get d (upper a0)) as [old|].
  - now apply (keeps_reply_text env wf_registry S).
  - destruct (current =? 0)%float; [exact W'|].
    now apply (keeps_reply_text env wf_registry S).
Qed.

Lemma remove_level_command_wf env u args :
  keeps wf_registry (remove_level_command env u args).
Proof.
  pose proof wf_stable as S.
  intros w W. unfold remove_level_command, bind at 1, get_levels. cbv beta iota.
  destruct (Dict.get (user_levels w) u) as [[|sl d]|] eqn:Hg;
    try now apply (keeps_reply_text env wf_registry S).
  revert w W Hg.
  enough (H : forall reg, wf_registry reg ->
                Dict.get reg u = Some (sl :: d) ->
                hoare (fun r => r = reg)
                  (try_except
                     match args with
                     | [] =>
                         reply_text env u
                           (SelectLevel
                              (map (fun sl0 => (fst sl0, target_price (snd sl0)))
                                   (sl :: d)))
                     | a0 :: _ =>
                         match Dict.get (sl :: d) (upper a0) with
                         | Some removed_level =>
                             put_levels
                               (Dict.set reg u (Dict.remove (sl :: d) (upper a0)));;
                             reply_text env u
                               (LevelRemoved (upper a0) (target_price removed_level))
                         | None => reply_text env u (NoActiveLevelFor (upper a0))
                         end
                     end
                     (fun e => logger (Failed InRemove e);;
                               reply_text env u ErrorOccurred))
                  (fun _ r => wf_registry r)).
  { intros w W Hg. now apply (H (user_levels w) W Hg w). }
  intros reg W Hg.
  apply hoare_try with (Q1 := fun _ r => wf_registry r).
  - destruct args as [|a0 rest].
    + intros w Hw. apply (keeps_reply_text env wf_registry S). now rewrite Hw.
    + destruct (Dict.get (sl :: d) (upper a0)) as [lvl|].
      * intros w Hw. unfold bind, put_levels. cbv beta iota.
        apply (keeps_reply_text env wf_registry S). cbn [user_levels snd].
        apply (wf_set_levels _ _ (sl :: d));
          [exact W | exact Hg | apply wf_remove | apply keyed_remove].
      * intros w Hw. apply (keeps_reply_text env wf_registry S). now rewrite Hw.
  - intros e. apply keeps_bind; [apply keeps_emit | intros _].
    now apply keeps_reply_text.
  - auto.
Qed.

Lemma check_level_wf env u sl t : keeps wf_registry (check_level env u sl t).
Proof.
  pose proof wf_stable as S.
  unfold check_level. destruct sl as [sym level].
  apply keeps_bind; [now apply keeps_get_binance_price|].
  intros [current|]; [|apply keeps_ret].
  apply keeps_bind; [|intros _; apply keeps_ret].
  apply keeps_if; [|apply keeps_ret].
  apply keeps_bind; [now apply keeps_send_target_hit_alert|].
  intros _. apply del_level_wf.
Qed.

Lemma check_all_levels_wf env : keeps wf_registry (check_all_levels env).
Proof.
  unfold check_all_levels.
  apply keeps_bind.
  - apply keeps_for_items.
    + intros w W. exact W.
    + intros ul t. apply keeps_for_each. intros sl t'. apply check_level_wf.
  - intros t. apply keeps_if; [apply keeps_emit | apply keeps_ret].
Qed.

Lemma monitoring_turns_wf env n : keeps wf_registry (monitoring_turns env n).
Proof.
  pose proof wf_stable as S.
  induction n as [|n IH]; simpl; [apply keeps_ret|].
  apply keeps_bind; [|intros _; exact IH].
  apply keeps_try.
  - apply keeps_bind; [apply check_all_levels_wf | intros _; now apply keeps_sleep].
  - intros e. apply keeps_bind; [apply keeps_emit | intros _; now apply keeps_sleep].
Qed.

Lemma price_monitoring_loop_wf env n :
  keeps wf_registry (price_monitoring_loop env n).
Proof.
  unfold price_monitoring_loop.
  apply keeps_bind; [apply keeps_emit | intros _; apply monitoring_turns_wf].
Qed.

Lemma list_levels_command_wf env u : keeps wf_registry (list_levels_command env u).
Proof.
  pose proof wf_stable as S.
  assert (R : forall m, keeps wf_registry (reply_text env u m)).
  { intros m. now apply keeps_reply_text. }
  intros w W. unfold list_levels_command, bind at 1, get_levels. cbv beta iota.
  destruct (Dict.get (user_levels w) u) as [[|sl d]|]; try now apply R.
  revert w W. apply keeps_bind; [|intros rows; apply R].
  apply keeps_for_items; [apply keeps_levels_of|].
  intros [sym level] rows. unfold list_row.
  apply keeps_bind; [now apply keeps_get_binance_price | intros p; apply keeps_ret].
Qed.

Lemma in_add_report_updated u sym old target p :
  In (Reply u (LevelUpdated sym (target_price old) target p))
     (Lookup sym :: add_report u sym (Some old) target p).
Proof.
  right. unfold add_report. apply in_or_app. right. now left.
Qed.

(** C5: whatever the other coroutines do, every coroutine leaves a registry
    with at most one level per user and symbol; and of two adds of one symbol
    the second replaces the level of the first: it reports an update with
    the first price as the old one, the stored price is the second, and the
    user has one entry for the symbol. *)
Theorem add_level_command_replaces (py_float : string -> option float)
    (env : environment) (u : Z) (a t1 t2 : string) (x1 x2 p1 p2 : float)
    (w : world) :
  (forall env' u' args n,
     keeps wf_registry (add_level_command py_float env' u' args) /\
     keeps wf_registry (remove_level_command env' u' args) /\
     keeps wf_registry (list_levels_command env' u') /\
     keeps wf_registry (price_monitoring_loop env' n)) /\
  (forall reg u' s, wf_registry reg -> (count_symbol reg u' s <= 1)%nat) /\
  (calm env -> wf_registry (user_levels w) ->
   py_float t1 = Some x1 -> py_float t2 = Some x2 ->
   prices env (lookups w) (upper a) = Some p1 ->
   prices env (S (lookups w)) (upper a) = Some p2 ->
   exists w1 w2 created,
     add_level_command py_float env u [a; t1] w = (Ok tt, w1) /\
     add_level_command py_float env u [a; t2] w1 = (Ok tt, w2) /\
     In (Reply u (LevelUpdated (upper a) x1 x2 p2)) (since w1 w2) /\
     level_of (user_levels w2) u (upper a) = Some (mkLevel (upper a) x2 created) /\
     count_symbol (user_levels w2) u (upper a) = 1%nat).
Proof.
  split; [|split].
  - intros env' u' args n. split; [|split; [|split]].
    + apply add_level_command_wf.
    + apply remove_level_command_wf.
    + apply list_levels_command_wf.
    + apply price_monitoring_loop_wf.
  - intros reg u' s W. rewrite count_symbol_wf by exact W.
    destruct (level_of reg u' s); lia.
  - intros C W Hf1 Hf2 Hp1 Hp2.
    destruct (add_level_command_level py_float env u a t1 x1 p1 w C Hf1 Hp1)
      as (w1 & c1 & E1 & L1 & _ & _ & Hl1 & W1).
    rewrite <- Hl1 in Hp2.
    destruct (add_level_command_level py_float env u a t2 x2 p2 w1 C Hf2 Hp2)
      as (w2 & c2 & E2 & L2 & _ & S2 & _ & W2).
    exists w1, w2, c2. repeat split; try assumption.
    + rewrite S2, L1. apply (in_add_report_updated u (upper a) (mkLevel (upper a) x1 c1)).
    + rewrite count_symbol_wf by auto. now rewrite L2.
Qed.

Lemma add_level_command_replaces_witness :
  exists w1 w2 created,
    add_level_command float_of_token (steady 120) 7 ["SYM"; "100"]%string fresh
      = (Ok tt, w1) /\
    add_level_command float_of_token (steady 120) 7 ["SYM"; "90"]%string w1
      = (Ok tt, w2) /\
    In (Reply 7 (LevelUpdated (upper "SYM") 100 90 120)) (since w1 w2) /\
    level_of (user_levels w2) 7 (upper "SYM")
      = Some (mkLevel (upper "SYM") 90 created) /\
    count_symbol (user_levels w2) 7 (upper "SYM") = 1%nat.
Proof.
  apply (proj2 (proj2 (add_level_command_replaces float_of_token (steady 120) 7
                         "SYM" "100" "90" 100 90 120 120 fresh))).
  - apply steady_calm.
  - split; constructor.
  - reflexivity.
  - reflexivity.
  - reflexivity.
  - reflexivity.
Defined.

(** ** Upper case *)

Lemma upper_char_idempotent c : upper_char (upper_char c) = upper_char c.
Proof. destruct c as [[] [] [] [] [] [] [] []]; reflexivity. Qed.

Lemma upper_idempotent s : upper (upper s) = upper s.
Proof.
  induction s as [|c s IH]; simpl; [reflexivity|].
  now rewrite upper_char_idempotent, IH.
Qed.

(** C10: the commands compare symbols in upper case.  For a level stored
    under [k] and any spelling [s] with [upper s = k]: [/remove s] removes
    that level, and [/add s price] replaces it and leaves one entry for [k];
    [k] itself is in upper case, as every symbol that an add stores. *)
Theorem commands_ignore_case (py_float : string -> option float)
    (env : environment) (u : Z) (k s : string) (lvl : TargetLevel) (w : world) :
  calm env ->
  wf_registry (user_levels w) ->
  level_of (user_levels w) u k = Some lvl ->
  upper s = k ->
  (exists w', remove_level_command env u [s] w = (Ok tt, w') /\
     level_of (user_levels w') u k = None /\
     since w w' = [Reply u (LevelRemoved k (target_price lvl))]) /\
  (forall t x p, py_float t = Some x -> prices env (lookups w) k = Some p ->
     exists w' created,
       add_level_command py_float env u [s; t] w = (Ok tt, w') /\
       level_of (user_levels w') u k = Some (mkLevel k x created) /\
       count_symbol (user_levels w') u k = 1%nat /\
       In (Reply u (LevelUpdated k (target_price lvl) x p)) (since w w')) /\
  upper k = k /\
  (forall a t x p w0, py_float t = Some x ->
     prices env (lookups w0) (upper a) = Some p ->
     level_of (user_levels (snd (add_level_command py_float env u [a; t] w0)))
              u (upper (upper a)) <> None).
Proof.
  intros C W Hl <-. split; [|split; [|split]].
  - unfold level_of in Hl.
    destruct (Dict.get (user_levels w) u) as [d|] eqn:Hd; [|discriminate].
    eexists. split; [apply (remove_level_command_pops env u s [] d lvl w C Hd Hl)|].
    cbn [user_levels trace]. split; [|now apply since_app].
    rewrite level_of_set_same. apply get_remove_same.
    now apply (wf_registry_get _ _ _ W Hd).
  - intros t x p Hf Hp.
    destruct (add_level_command_level py_float env u s t x p w C Hf Hp)
      as (w' & c & E & L & _ & S & _ & W').
    exists w', c. repeat split; try assumption.
    + rewrite count_symbol_wf by auto. now rewrite L.
    + rewrite S, Hl. apply in_add_report_updated.
  - apply upper_idempotent.
  - intros a t x p w0 Hf Hp.
    destruct (add_level_command_level py_float env u a t x p w0 C Hf Hp)
      as (w' & c & E & L & _).
    rewrite E, upper_idempotent. cbn [snd]. now rewrite L.
Qed.

Lemma commands_ignore_case_witness :
  (exists w', remove_level_command (steady 120) 7 ["Sym"]%string raced = (Ok tt, w') /\
     level_of (user_levels w') 7 "SYM" = None /\
     since raced w' = [Reply 7 (LevelRemoved "SYM" 100)]) /\
  (exists w' created,
     add_level_command float_of_token (steady 120) 7 ["sYm"; "90"]%string raced
       = (Ok tt, w') /\
     level_of (user_levels w') 7 "SYM" = Some (mkLevel "SYM" 90 created) /\
     count_symbol (user_levels w') 7 "SYM" = 1%nat /\
     In (Reply 7 (LevelUpdated "SYM" 100 90 120)) (since raced w')).
Proof.
  assert (W : wf_registry (user_levels raced)).
  { split; repeat constructor; simpl; tauto. }
  split.
  - apply (proj1 (commands_ignore_case float_of_token (steady 120) 7 "SYM" "Sym"
                    (mkLevel "SYM" 100 0) raced (steady_calm 120) W
                    eq_refl eq_refl)).
  - apply (proj1 (proj2 (commands_ignore_case float_of_token (steady 120) 7 "SYM"
                    "sYm" (mkLevel "SYM" 100 0) raced (steady_calm 120) W
                    eq_refl eq_refl)) "90"%string 90%float 120%float);
      reflexivity.
Defined.

(* ------------------------------------------------------------------ *)
(** * The scan in a quiet environment *)

Lemma send_target_hit_alert_quiet env u l p w :
  quiet env ->
  send_target_hit_alert env u l p w =
    (Ok tt,
     mkWorld (user_levels w)
             (trace w ++ Notify u l p :: alert_outcome env (awaits w) u l p)
             (if (target_price l =? 0)%float then awaits w else S (awaits w))
             (lookups w)).
Proof.
  intros Q. unfold alert_outcome. unfold_py. cbn [user_levels trace awaits lookups].
  destruct (target_price l =? 0)%float.
  - cbn [user_levels trace awaits lookups]. now rewrite <- app_assoc.
  - rewrite Q. cbn [apply_mutations fold_left user_levels trace awaits lookups].
    destruct (delivered env (awaits w)); cbn [user_levels trace awaits lookups];
      now rewrite <- !app_assoc.
Qed.

Lemma alerts_app a b : alerts (a ++ b) = alerts a ++ alerts b.
Proof. apply flat_map_app. Qed.

Lemma looked_app a b : looked (a ++ b) = looked a ++ looked b.
Proof. apply flat_map_app. Qed.

Lemma alerts_alert_outcome env n u l p : alerts (alert_outcome env n u l p) = [].
Proof.
  unfold alert_outcome.
  destruct (target_price l =? 0)%float; [reflexivity|].
  now destruct (delivered env n).
Qed.

Lemma looked_alert_outcome env n u l p : looked (alert_outcome env n u l p) = [].
Proof.
  unfold alert_outcome.
  destruct (target_price l =? 0)%float; [reflexivity|].
  now destruct (delivered env n).
Qed.

(** One turn of the inner loop on an item that is still in the registry. *)
Lemma check_level_quiet env u sym l t w d :
  quiet env ->
  Dict.get (user_levels w) u = Some d ->
  Dict.mem d sym = true ->
  exists t' a evs,
    check_level env u (sym, l) t w =
      (Ok t',
       mkWorld (match fires env (lookups w) (sym, l) with
                | Some _ => Dict.set (user_levels w) u (Dict.remove d sym)
                | None => user_levels w
                end)
               (trace w ++ evs) a (S (lookups w))) /\
    alerts evs = match fires env (lookups w) (sym, l) with
                 | Some p => [(u, l, p)]
                 | None => []
                 end /\
    looked evs = [sym].
Proof.
  intros Q Hd Hm. unfold check_level, bind at 1.
  rewrite get_binance_price_quiet by exact Q. unfold fires. cbn [fst snd].
  destruct (prices env (lookups w) sym) as [p|].
  - destruct (p <=? target_price l)%float.
    + unfold bind at 1. unfold bind at 1.
      rewrite send_target_hit_alert_quiet by exact Q.
      unfold del_level, levels_of, bind, get_levels, put_levels, ret.
      cbn [user_levels trace awaits lookups]. rewrite Hd, Hm.
      cbn [user_levels trace awaits lookups]. rewrite <- app_assoc.
      do 3 eexists. split; [reflexivity|].
      split.
      * cbn. now rewrite alerts_alert_outcome.
      * cbn. now rewrite looked_alert_outcome.
    + unfold bind, ret. do 3 eexists. split; [reflexivity|]. split; reflexivity.
  - unfold ret. do 3 eexists. split; [reflexivity|]. split; reflexivity.
Qed.

Lemma fired_app env es1 : forall k es2,
  fired env k (es1 ++ es2)
  = fired env k es1 ++ fired env (k + List.length es1) es2.
Proof.
  induction es1 as [|[[u s] l] es1 IH]; intros k es2; simpl.
  - now rewrite Nat.add_0_r.
  - rewrite IH. replace (S k + List.length es1) with (k + S (List.length es1)) by lia.
    now destruct (fires env k (s, l)).
Qed.

Lemma get_middle {V} (regL regR : Dict.t Z V) u d :
  ~ In u (Dict.keys regL) -> Dict.get (regL ++ (u, d) :: regR) u = Some d.
Proof.
  intros Hn. rewrite get_app_skip by exact Hn. simpl. now rewrite Z.eqb_refl.
Qed.

Lemma set_middle {V} (regL regR : Dict.t Z V) u d d' :
  ~ In u (Dict.keys regL) ->
  Dict.set (regL ++ (u, d) :: regR) u d' = regL ++ (u, d') :: regR.
Proof.
  intros Hn. rewrite set_app_skip by exact Hn. simpl. now rewrite Z.eqb_refl.
Qed.

Lemma wf_app_head {V} (pre : Dict.t string V) s l rest :
  Dict.wf (pre ++ (s, l) :: rest) ->
  ~ In s (Dict.keys pre) /\ Dict.wf (pre ++ rest).
Proof.
  unfold Dict.wf, Dict.keys. rewrite !map_app. simpl. intros Hnd.
  apply NoDup_remove in Hnd. destruct Hnd as [Hnd Hn]. split; [|exact Hnd].
  intros Hin. apply Hn. apply in_or_app. now left.
Qed.

(** The inner loop over the snapshot [snap] of the sub-map of [u], of which
    the items [pre] were scanned and left before. *)
Lemma scan_user_quiet env u regL regR : forall snap pre t w,
  quiet env ->
  user_levels w = regL ++ (u, pre ++ snap) :: regR ->
  ~ In u (Dict.keys regL) ->
  Dict.wf (pre ++ snap) ->
  exists t' a evs,
    for_each snap (check_level env u) t w =
      (Ok t',
       mkWorld (regL ++ (u, pre ++ sweep env (lookups w) snap) :: regR)
               (trace w ++ evs) a (lookups w + List.length snap)) /\
    alerts evs
      = fired env (lookups w) (map (fun sl => (u, fst sl, snd sl)) snap) /\
    looked evs = map fst snap.
Proof.
  induction snap as [|[s l] snap IH]; intros pre t w Q Hreg Hu Hwf.
  - exists t, (awaits w), [].
    cbn [for_each sweep fired map List.length]. unfold ret.
    rewrite <- Hreg, app_nil_r, Nat.add_0_r. now destruct w.
  - destruct (wf_app_head _ _ _ _ Hwf) as [Hs Hwf'].
    assert (Hd : Dict.get (user_levels w) u = Some (pre ++ (s, l) :: snap)).
    { rewrite Hreg. now apply get_middle. }
    assert (Hm : Dict.mem (pre ++ (s, l) :: snap) s = true).
    { unfold Dict.mem. rewrite get_app_skip by exact Hs. simpl.
      now rewrite String.eqb_refl. }
    destruct (check_level_quiet env u s l t w _ Q Hd Hm)
      as (t1 & a1 & ev1 & E1 & A1 & L1).
    cbn [for_each]. unfold bind at 1. rewrite E1.
    cbn [sweep fired map fst snd]. 
    destruct (fires env (lookups w) (s, l)) as [p|] eqn:F.
    + (* the item triggers and is deleted *)
      set (w1 := mkWorld _ _ _ _) in *.
      assert (Hreg1 : user_levels w1 = regL ++ (u, pre ++ snap) :: regR).
      { subst w1. cbn [user_levels]. rewrite Hreg, set_middle by exact Hu.
        rewrite remove_app_skip by exact Hs. simpl. now rewrite String.eqb_refl. }
      destruct (IH pre t1 w1 Q Hreg1 Hu Hwf') as (t' & a & evs & E & A & L).
      exists t', a, (ev1 ++ evs). rewrite E. subst w1. cbn [lookups trace] in *.
      split; [|split].
      * f_equal. f_equal; [now rewrite <- app_assoc | simpl; lia].
      * now rewrite alerts_app, A1, A.
      * now rewrite looked_app, L1, L.
    + (* the item stays *)
      set (w1 := mkWorld _ _ _ _) in *.
      assert (Hreg1 : user_levels w1 = regL ++ (u, (pre ++ [(s, l)]) ++ snap) :: regR).
      { subst w1. cbn [user_levels]. rewrite Hreg, <- app_assoc. reflexivity. }
      assert (Hwf1 : Dict.wf ((pre ++ [(s, l)]) ++ snap)).
      { now rewrite <- app_assoc. }
      destruct (IH (pre ++ [(s, l)]) t1 w1 Q Hreg1 Hu Hwf1)
        as (t' & a & evs & E & A & L).
      exists t', a, (ev1 ++ evs). rewrite E. subst w1. cbn [lookups trace] in *.
      split; [|split].
      * f_equal. f_equal; [|now rewrite <- app_assoc | simpl; lia].
        now rewrite <- app_assoc.
      * now rewrite alerts_app, A1, A.
      * now rewrite looked_app, L1, L.
Qed.

Lemma entries_cons u d (reg : registry) :
  entries ((u, d) :: reg) = map (fun sl => (u, fst sl, snd sl)) d ++ entries reg.
Proof. reflexivity. Qed.

Lemma wf_users_app (done : registry) u d rest :
  Dict.wf (done ++ (u, d) :: rest) -> ~ In u (Dict.keys done).
Proof.
  unfold Dict.wf, Dict.keys. rewrite map_app. simpl. intros Hnd.
  apply NoDup_remove_2 in Hnd. intros Hin. apply Hnd, in_or_app. now left.
Qed.

(** The outer loop, at the users [rest], the users [done] being scanned. *)
Lemma scan_all_quiet env : forall rest done used t w,
  quiet env ->
  user_levels w = done ++ rest ->
  used = List.length (done ++ rest) ->
  Dict.wf (done ++ rest) ->
  Forall (fun ud => Dict.wf (snd ud)) rest ->
  exists t' a evs,
    iterate get_levels used (List.length rest)
      (fun ul total => for_each (snd ul) (check_level env (fst ul)) total) t w =
      (Ok t',
       mkWorld (done ++ sweep_all env (lookups w) rest) (trace w ++ evs) a
               (lookups w + List.length (entries rest))) /\
    alerts evs = fired env (lookups w) (entries rest) /\
    looked evs = map (fun e => snd (fst e)) (entries rest).
Proof.
  induction rest as [|[u d] rest IH]; intros done used t w Q Hreg Hused Hwf Hds.
  - exists t, (awaits w), [].
    cbn [iterate List.length]. unfold bind, get_levels, ret.
    rewrite Hreg, <- Hused, Nat.eqb_refl. cbn [negb].
    cbn [sweep_all entries flat_map fired map List.length].
    rewrite <- Hreg, app_nil_r, Nat.add_0_r. now destruct w.
  - cbn [iterate List.length]. unfold bind at 1, get_levels at 1.
    rewrite Hreg, <- Hused, Nat.eqb_refl. cbn [negb].
    assert (Hpos : used - S (List.length rest) = List.length done).
    { rewrite Hused, length_app. simpl. lia. }
    rewrite Hpos, nth_error_app2, Nat.sub_diag by lia. cbn [nth_error fst snd].
    pose proof (wf_users_app _ _ _ _ Hwf) as Hu.
    inversion Hds as [|? ? Hd Hds']; subst x l. cbn [snd] in Hd.
    destruct (scan_user_quiet env u done rest d [] t w Q Hreg Hu Hd)
      as (t1 & a1 & ev1 & E1 & A1 & L1).
    unfold bind at 1. rewrite E1. cbn [app] in *.
    set (w1 := mkWorld _ _ _ _) in *.
    assert (Hreg1 : user_levels w1
                    = (done ++ [(u, sweep env (lookups w) d)]) ++ rest).
    { subst w1. cbn [user_levels]. now rewrite <- app_assoc. }
    assert (Hused1 : used
                     = List.length ((done ++ [(u, sweep env (lookups w) d)]) ++ rest)).
    { rewrite Hused, !length_app. simpl. lia. }
    assert (Hwf1 : Dict.wf ((done ++ [(u, sweep env (lookups w) d)]) ++ rest)).
    { unfold Dict.wf, Dict.keys in *. rewrite <- app_assoc.
      rewrite map_app in *. exact Hwf. }
    destruct (IH _ used t1 w1 Q Hreg1 Hused1 Hwf1 Hds')
      as (t' & a & evs & E & A & L).
    exists t', a, (ev1 ++ evs). rewrite E. subst w1. cbn [lookups trace] in *.
    rewrite entries_cons, fired_app, map_app, !length_app, !length_map.
    split; [|split].
    + f_equal. f_equal; [|now rewrite <- app_assoc | lia].
      now rewrite <- app_assoc.
    + now rewrite alerts_app, A1, A.
    + rewrite looked_app, L1, L, map_map. reflexivity.
Qed.

(** A scan that no other coroutine disturbs, in closed form. *)
Lemma check_all_levels_quiet env w :
  quiet env ->
  wf_registry (user_levels w) ->
  exists a evs,
    check_all_levels env w =
      (Ok tt,
       mkWorld (sweep_all env (lookups w) (user_levels w)) (trace w ++ evs) a
               (lookups w + List.length (entries (user_levels w)))) /\
    alerts evs = fired env (lookups w) (entries (user_levels w)) /\
    looked evs = map (fun e => snd (fst e)) (entries (user_levels w)).
Proof.
  intros Q [Wu Wd].
  assert (Wd' : Forall (fun ud : Z * levels => Dict.wf (snd ud)) (user_levels w)).
  { revert Wd. apply Forall_impl. now intros ud [H _]. }
  destruct (scan_all_quiet env (user_levels w) [] (List.length (user_levels w))
              0 w Q eq_refl eq_refl Wu Wd')
    as (t' & a & evs & E & A & L).
  unfold check_all_levels, for_items, bind at 1, bind at 1, get_levels at 1.
  cbv beta iota. rewrite E. cbn [app].
  destruct (0 <? t') eqn:Ht.
  - exists a, (evs ++ [Log (Checked t')]). unfold logger, emit.
    cbn [user_levels trace awaits lookups]. rewrite <- app_assoc.
    split; [reflexivity|].
    rewrite alerts_app, looked_app, A, L. cbn. now rewrite !app_nil_r.
  - exists a, evs. unfold ret. split; [reflexivity | now split].
Qed.

(** ** What a scan leaves and what it notifies, item by item *)

Lemma keys_sweep_incl env d : forall k x,
  In x (Dict.keys (sweep env k d)) -> In x (Dict.keys d).
Proof.
  induction d as [|[s l] d IH]; intros k x; simpl; [tauto|].
  destruct (fires env k (s, l)); simpl.
  - intros Hx. right. now apply (IH (S k)).
  - intros [Hx|Hx]; [now left | right; now apply (IH (S k))].
Qed.

Lemma sweep_get_absent env k d s :
  Dict.get d s = None -> Dict.get (sweep env k d) s = None.
Proof.
  rewrite !get_none_iff. intros Hn Hin. apply Hn. now apply keys_sweep_incl in Hin.
Qed.

Lemma sweep_get env d : forall k i s l,
  Dict.wf d -> nth_error d i = Some (s, l) ->
  Dict.get (sweep env k d) s
  = match fires env (k + i) (s, l) with Some _ => None | None => Some l end.
Proof.
  induction d as [|[s0 l0] d IH]; intros k i s l Hwf Hn.
  - now destruct i.
  - unfold Dict.wf in Hwf. simpl in Hwf.
    inversion Hwf as [|? ? Hnotin Hwf']; subst.
    destruct i as [|i]; simpl in Hn.
    + injection Hn as -> ->. rewrite Nat.add_0_r. simpl.
      destruct (fires env k (s, l)).
      * apply sweep_get_absent. now apply get_none_iff.
      * simpl. now rewrite String.eqb_refl.
    + assert (Hne : s <> s0).
      { intros ->. apply Hnotin. apply nth_error_In in Hn.
        change s0 with (fst (s0, l)). now apply in_map. }
      replace (k + S i) with (S k + i) by lia. simpl.
      destruct (fires env k (s0, l0)).
      * now apply (IH (S k) i).
      * simpl. destruct (String.eqb_spec s s0) as [E|_]; [contradiction|].
        now apply (IH (S k) i).
Qed.

Lemma fired_count_other_user env u u0 s d : forall k,
  u0 <> u ->
  count_alerts u s (fired env k (map (fun sl => (u0, fst sl, snd sl)) d)) = 0.
Proof.
  unfold count_alerts.
  induction d as [|[s0 l0] d IH]; intros k Hne; simpl; [reflexivity|].
  destruct (fires env k (s0, l0)); simpl; [|now apply IH].
  unfold is_alert_for at 1. simpl.
  destruct (Z.eqb_spec u0 u) as [E|_]; [contradiction|]. simpl. now apply IH.
Qed.

Lemma fired_count_absent env u s d : forall k,
  keyed d -> ~ In s (Dict.keys d) ->
  count_alerts u s (fired env k (map (fun sl => (u, fst sl, snd sl)) d)) = 0.
Proof.
  unfold count_alerts, keyed.
  induction d as [|[s0 l0] d IH]; intros k Hk Hn; simpl; [reflexivity|].
  inversion Hk as [|? ? Hs0 Hk']; subst. simpl in Hs0, Hn.
  destruct (fires env k (s0, l0)); simpl.
  - unfold is_alert_for at 1. simpl. rewrite Hs0.
    destruct (String.eqb_spec s0 s) as [E|_]; [exfalso; now apply Hn; left|].
    rewrite andb_false_r. apply IH; tauto.
  - apply IH; tauto.
Qed.

Lemma fired_count_at env u d : forall k i s l,
  Dict.wf d -> keyed d -> nth_error d i = Some (s, l) ->
  count_alerts u s (fired env k (map (fun sl => (u, fst sl, snd sl)) d))
  = match fires env (k + i) (s, l) with Some _ => 1 | None => 0 end.
Proof.
  induction d as [|[s0 l0] d IH]; intros k i s l Hwf Hk Hn.
  - now destruct i.
  - unfold Dict.wf in Hwf. simpl in Hwf.
    inversion Hwf as [|? ? Hnotin Hwf']; subst.
    inversion Hk as [|? ? Hs0 Hk']; subst. simpl in Hs0.
    destruct i as [|i]; simpl in Hn.
    + injection Hn as -> ->. rewrite Nat.add_0_r. simpl.
      pose proof (fired_count_absent env u s d (S k) Hk' Hnotin) as H0.
      unfold count_alerts in *.
      destruct (fires env k (s, l)); [|exact H0].
      simpl. unfold is_alert_for at 1. simpl.
      rewrite Hs0, Z.eqb_refl, String.eqb_refl. simpl. now rewrite H0.
    + assert (Hne : s0 <> s).
      { intros ->. apply Hnotin. apply nth_error_In in Hn.
        change s with (fst (s, l)). now apply in_map. }
      replace (k + S i) with (S k + i) by lia. simpl.
      change (S (k + i)) with (S k + i).
      pose proof (IH (S k) i s l Hwf' Hk' Hn) as H1.
      unfold count_alerts in *.
      destruct (fires env k (s0, l0)); [|exact H1].
      simpl. unfold is_alert_for at 1. simpl. rewrite Hs0.
      destruct (String.eqb_spec s0 s) as [E|_]; [contradiction|].
      rewrite andb_false_r. exact H1.
Qed.

Lemma count_alerts_app u s a b :
  count_alerts u s (a ++ b) = count_alerts u s a + count_alerts u s b.
Proof. unfold count_alerts. now rewrite filter_app, length_app. Qed.

Lemma entries_user_in reg u s l : In (u, s, l) (entries reg) -> In u (Dict.keys reg).
Proof.
  unfold entries, Dict.keys. rewrite in_flat_map. intros ([u0 d0] & Hin & Hx).
  apply in_map_iff in Hx. destruct Hx as (sl & E & _). simpl in E.
  injection E as <- _ _. change u0 with (fst (u0, d0)). now apply in_map.
Qed.

Lemma level_entries reg u s l :
  level_of reg u s = Some l -> In (u, s, l) (entries reg).
Proof.
  unfold level_of. destruct (Dict.get reg u) as [d|] eqn:Hd; [|discriminate].
  intros Hl. apply get_in in Hd. apply get_in in Hl.
  unfold entries. rewrite in_flat_map. exists (u, d). split; [exact Hd|].
  simpl. apply in_map_iff. now exists (s, l).
Qed.

Lemma level_of_cons_same u d (reg : registry) s :
  level_of ((u, d) :: reg) u s = Dict.get d s.
Proof. unfold level_of. simpl. now rewrite Z.eqb_refl. Qed.

Lemma level_of_cons_other u u0 d (reg : registry) s :
  u <> u0 -> level_of ((u0, d) :: reg) u s = level_of reg u s.
Proof.
  intros Hne. unfold level_of. simpl.
  now destruct (Z.eqb_spec u u0) as [E|_]; [contradiction|].
Qed.

Lemma wf_registry_cons u d reg :
  wf_registry ((u, d) :: reg) ->
  ~ In u (Dict.keys reg) /\ Dict.wf d /\ keyed d /\ wf_registry reg.
Proof.
  intros [Wu Wd]. unfold Dict.wf in Wu. simpl in Wu.
  inversion Wu as [|? ? Hn Wu']; subst.
  inversion Wd as [|? ? [Wd0 Kd0] Wd']; subst.
  repeat split; assumption.
Qed.

(** The entry at place [i] of the registry: what the scan that begins with
    lookup [k] leaves of it, and how often it notifies for it. *)
Lemma sweep_all_at env reg : forall k i u s l,
  wf_registry reg ->
  nth_error (entries reg) i = Some (u, s, l) ->
  level_of (sweep_all env k reg) u s
    = match fires env (k + i) (s, l) with Some _ => None | None => Some l end /\
  count_alerts u s (fired env k (entries reg))
    = match fires env (k + i) (s, l) with Some _ => 1 | None => 0 end.
Proof.
  induction reg as [|[u0 d0] reg IH]; intros k i u s l W Hn.
  - now destruct i.
  - destruct (wf_registry_cons _ _ _ W) as (Hu0 & Wd0 & Kd0 & W').
    rewrite entries_cons in *. rewrite fired_app, count_alerts_app, length_map.
    cbn [sweep_all].
    destruct (Nat.lt_ge_cases i (List.length d0)) as [Hlt|Hge].
    + rewrite nth_error_app1 in Hn by now rewrite length_map.
      rewrite nth_error_map in Hn.
      destruct (nth_error d0 i) as [[s1 l1]|] eqn:Hd; [|discriminate].
      simpl in Hn. injection Hn as <- <- <-.
      rewrite level_of_cons_same.
      rewrite (sweep_get env d0 k i s1 l1 Wd0 Hd).
      rewrite (fired_count_at env u0 d0 k i s1 l1 Wd0 Kd0 Hd).
      split; [reflexivity|].
      assert (H0 : forall k', count_alerts u0 s1 (fired env k' (entries reg)) = 0).
      { clear -Hu0. induction reg as [|[u1 d1] reg IHr]; intros k'; [reflexivity|].
        rewrite entries_cons, fired_app, count_alerts_app.
        rewrite fired_count_other_user by (intros ->; apply Hu0; now left).
        apply IHr. intros Hin. apply Hu0. now right. }
      rewrite H0. lia.
    + rewrite nth_error_app2 in Hn by now rewrite length_map.
      rewrite length_map in Hn.
      assert (Hne : u <> u0).
      { intros ->. apply Hu0. apply nth_error_In in Hn.
        now apply entries_user_in in Hn. }
      rewrite level_of_cons_other by exact Hne.
      rewrite fired_count_other_user by congruence.
      destruct (IH (k + List.length d0) (i - List.length d0) u s l W' Hn) as [H1 H2].
      replace (k + List.length d0 + (i - List.length d0)) with (k + i) in * by lia.
      now split.
Qed.

(** A user and symbol without entry: the scan leaves none and notifies none. *)
Lemma sweep_all_absent env reg : forall k u s,
  wf_registry reg ->
  level_of reg u s = None ->
  level_of (sweep_all env k reg) u s = None /\
  count_alerts u s (fired env k (entries reg)) = 0.
Proof.
  induction reg as [|[u0 d0] reg IH]; intros k u s W Hl.
  - now split.
  - destruct (wf_registry_cons _ _ _ W) as (Hu0 & Wd0 & Kd0 & W').
    rewrite entries_cons, fired_app, count_alerts_app, length_map.
    cbn [sweep_all].
    destruct (Z.eq_dec u u0) as [->|Hne].
    + rewrite level_of_cons_same in *. split.
      * now apply sweep_get_absent.
      * rewrite fired_count_absent by (auto; now apply get_none_iff).
        assert (Hreg : level_of reg u0 s = None).
        { unfold level_of. replace (Dict.get reg u0) with (@None levels); [reflexivity|].
          symmetry. now apply get_none_iff. }
        now destruct (IH (k + List.length d0) u0 s W' Hreg) as [_ ->].
    + rewrite level_of_cons_other in * by exact Hne.
      rewrite fired_count_other_user by congruence.
      destruct (IH (k + List.length d0) u s W' Hl) as [H1 H2]. now split.
Qed.

(** ** The order of notifier and delete, in any environment *)

Lemma send_target_hit_alert_run env u l p w :
  send_target_hit_alert env u l p w =
    (Ok tt,
     mkWorld (if (target_price l =? 0)%float then user_levels w
              else apply_mutations (user_levels w) (during env (awaits w)))
             (trace w ++ Notify u l p :: alert_outcome env (awaits w) u l p)
             (if (target_price l =? 0)%float then awaits w else S (awaits w))
             (lookups w)).
Proof.
  unfold alert_outcome. unfold_py. cbn [user_levels trace awaits lookups].
  destruct (target_price l =? 0)%float.
  - cbn [user_levels trace awaits lookups]. now rewrite <- app_assoc.
  - cbn [user_levels trace awaits lookups].
    destruct (delivered env (awaits w)); cbn [user_levels trace awaits lookups];
      now rewrite <- !app_assoc.
Qed.

Lemma del_level_trace u s w : trace (snd (del_level u s w)) = trace w.
Proof.
  unfold del_level, levels_of, bind, get_levels, put_levels, ret, raise.
  destruct (Dict.get (user_levels w) u) as [d|]; [|reflexivity].
  now destruct (Dict.mem d s).
Qed.

Lemma del_level_absent u s w :
  wf_registry (user_levels w) ->
  level_of (user_levels (snd (del_level u s w))) u s = None.
Proof.
  intros W. unfold del_level, levels_of, bind, get_levels, put_levels, ret, raise.
  unfold level_of.
  destruct (Dict.get (user_levels w) u) as [d|] eqn:Hd; cbn [snd user_levels].
  - destruct (Dict.mem d s) eqn:Hm; cbn [snd user_levels].
    + rewrite get_set_same. apply get_remove_same.
      now apply (wf_registry_get _ _ _ W Hd).
    + rewrite Hd. now apply mem_false_get.
  - now rewrite Hd.
Qed.

(** The world in which the delete of a triggered item runs: the lookup and
    the alert are over, and the registry has only the writes of the other
    coroutines. *)
Lemma check_level_fires_run env u s l t w p :
  prices env (lookups w) s = Some p ->
  (p <=? target_price l)%float = true ->
  check_level env u (s, l) t w =
    (del_level u s ;; ret (S t))
      (mkWorld
         (if (target_price l =? 0)%float
          then apply_mutations (user_levels w) (during env (awaits w))
          else apply_mutations
                 (apply_mutations (user_levels w) (during env (awaits w)))
                 (during env (S (awaits w))))
         (trace w ++ Lookup s :: Notify u l p
            :: alert_outcome env (S (awaits w)) u l p)
         (if (target_price l =? 0)%float then S (awaits w) else S (S (awaits w)))
         (S (lookups w))).
Proof.
  intros Hp Hle. unfold check_level, bind at 1.
  unfold get_binance_price at 1, bind at 1, bind at 1, emit at 1, await at 1.
  cbn [user_levels trace awaits lookups]. rewrite Hp, Hle.
  unfold bind at 1. unfold bind at 1. rewrite send_target_hit_alert_run.
  cbn [user_levels trace awaits lookups]. rewrite <- app_assoc. cbn [app].
  unfold bind.
  match goal with |- context [del_level u s ?w2] =>
    now destruct (del_level u s w2) as [[[]|e] w3] end.
Qed.

(** After the turn of a triggered item, in any environment: the trace has the
    lookup, the call of the notifier and what became of the alert, and the
    registry has no level for the user and symbol. *)
Lemma check_level_fires_after env u s l t w p :
  prices env (lookups w) s = Some p ->
  (p <=? target_price l)%float = true ->
  trace (snd (check_level env u (s, l) t w))
    = trace w ++ Lookup s :: Notify u l p
        :: alert_outcome env (S (awaits w)) u l p /\
  (wf_registry (user_levels w) ->
   level_of (user_levels (snd (check_level env u (s, l) t w))) u s = None).
Proof.
  intros Hp Hle. rewrite (check_level_fires_run env u s l t w p Hp Hle).
  set (w2 := mkWorld _ _ _ _).
  assert (W2 : wf_registry (user_levels w) -> wf_registry (user_levels w2)).
  { intros W. subst w2. cbn [user_levels].
    destruct (target_price l =? 0)%float; repeat apply wf_apply_mutations; exact W. }
  pose proof (del_level_trace u s w2) as T.
  pose proof (del_level_absent u s w2) as A.
  unfold bind, ret.
  destruct (del_level u s w2) as [[[]|e] w3]; cbn [snd] in *;
    (split; [exact T | intros W; apply A, W2, W]).
Qed.

Lemma notified_alert env n u l p s :
  notified u (symbol l) (Lookup s :: Notify u l p :: alert_outcome env n u l p) = 1.
Proof.
  unfold notified. cbn [alerts flat_map app].
  fold (alerts (alert_outcome env n u l p)). rewrite alerts_alert_outcome.
  unfold count_alerts, is_alert_for. cbn.
  now rewrite Z.eqb_refl, String.eqb_refl.
Qed.

(** One turn of the inner loop, in any environment, on an item that does not
    trigger: only the lookup is made, and the monitor writes nothing. *)
Lemma check_level_passes env u s l t w :
  fires env (lookups w) (s, l) = None ->
  check_level env u (s, l) t w =
    (Ok (match prices env (lookups w) s with Some _ => S t | None => t end),
     mkWorld (apply_mutations (user_levels w) (during env (awaits w)))
             (trace w ++ [Lookup s]) (S (awaits w)) (S (lookups w))).
Proof.
  unfold fires. cbn [fst snd]. intros F.
  unfold check_level, bind at 1, get_binance_price, bind, emit, await, ret.
  cbn [user_levels trace awaits lookups].
  destruct (prices env (lookups w) s) as [p|]; [|reflexivity].
  now destruct (p <=? target_price l)%float.
Qed.

(** ** Floats *)

Lemma SFcompare_swap (x y : spec_float) c :
  SFcompare x y = Some c -> SFcompare y x = Some (CompOpp c).
Proof.
  destruct x as [sa|sa| |sa ma ea], y as [sb|sb| |sb mb eb]; simpl;
    try destruct sa; try destruct sb; simpl; intros H; inversion H; subst;
    try reflexivity.
  all: rewrite (Z.compare_antisym ea eb); destruct (Z.compare ea eb); simpl;
    try reflexivity.
  all: change (PosDef.Pos.compare_cont Eq) with Pos.compare;
    rewrite (Pos.compare_antisym ma mb); destruct (Pos.compare ma mb);
    reflexivity.
Qed.

(** [a < b] excludes [b <= a]. *)
Lemma ltb_not_leb (a b : float) : (a <? b)%float = true -> (b <=? a)%float = false.
Proof.
  rewrite ltb_spec, leb_spec. unfold SFltb, SFleb.
  destruct (SFcompare (Prim2SF a) (Prim2SF b)) as [c|] eqn:E; [|discriminate].
  rewrite (SFcompare_swap _ _ _ E). destruct c; simpl; congruence.
Qed.

(** ** The scan, entry by entry *)

Lemma in_alerts tr u l p : In (u, l, p) (alerts tr) <-> In (Notify u l p) tr.
Proof.
  unfold alerts. rewrite in_flat_map. split.
  - intros (e & He & Hin). destruct e; simpl in Hin; try contradiction.
    destruct Hin as [E|[]]. injection E as -> -> ->. exact He.
  - intros Hin. exists (Notify u l p). split; [exact Hin | now left].
Qed.

Lemma fired_in env es : forall k i u s l p,
  nth_error es i = Some (u, s, l) -> fires env (k + i) (s, l) = Some p ->
  In (u, l, p) (fired env k es).
Proof.
  induction es as [|[[u0 s0] l0] es IH]; intros k i u s l p Hn Hf.
  - now destruct i.
  - destruct i as [|i]; simpl in Hn.
    + injection Hn as -> -> ->. rewrite Nat.add_0_r in Hf. simpl.
      rewrite Hf. now left.
    + replace (k + S i) with (S k + i) in Hf by lia.
      pose proof (IH (S k) i u s l p Hn Hf) as Hin. simpl.
      destruct (fires env k (s0, l0)); [now right | exact Hin].
Qed.

Lemma fires_le env k s l p :
  prices env k s = Some p -> (p <=? target_price l)%float = true ->
  fires env k (s, l) = Some p.
Proof. intros Hp Hle. unfold fires. simpl. now rewrite Hp, Hle. Qed.

Lemma fires_gt env k s l p :
  prices env k s = Some p -> (target_price l <? p)%float = true ->
  fires env k (s, l) = None.
Proof.
  intros Hp Hlt. unfold fires. simpl. now rewrite Hp, (ltb_not_leb _ _ Hlt).
Qed.

Lemma fires_unavailable env k s l :
  prices env k s = None -> fires env k (s, l) = None.
Proof. intros Hp. unfold fires. simpl. now rewrite Hp. Qed.

(** C4: a turn of the inner loop on an item whose fetched price is at or
    below its target calls the notifier once and leaves no level for the user
    and symbol; on an item whose price is above its target it only makes the
    lookup: no notifier, no write.  That holds in any environment.  And in a
    scan that no other coroutine disturbs every entry gets its turn: an entry
    whose fetched price is at or below its target is notified exactly once
    and is gone after the scan, an entry whose fetched price is above its
    target stays as it is and is not notified. *)
Theorem check_all_levels_triggers (env : environment) (w : world) (i : nat)
    (u : Z) (s : string) (l : TargetLevel) :
  (forall t w0 p, prices env (lookups w0) s = Some p ->
     ((p <=? target_price l)%float = true ->
      wf_registry (user_levels w0) ->
      level_of (user_levels (snd (check_level env u (s, l) t w0))) u s = None /\
      notified u (symbol l) (since w0 (snd (check_level env u (s, l) t w0))) = 1) /\
     ((target_price l <? p)%float = true ->
      check_level env u (s, l) t w0 =
        (Ok (S t),
         mkWorld (apply_mutations (user_levels w0) (during env (awaits w0)))
                 (trace w0 ++ [Lookup s]) (S (awaits w0)) (S (lookups w0))))) /\
  (quiet env ->
   wf_registry (user_levels w) ->
   nth_error (entries (user_levels w)) i = Some (u, s, l) ->
   exists w', check_all_levels env w = (Ok tt, w') /\
     (forall p, prices env (lookups w + i) s = Some p ->
        (p <=? target_price l)%float = true ->
        level_of (user_levels w') u s = None /\
        notified u s (since w w') = 1 /\
        In (Notify u l p) (since w w')) /\
     (forall p, prices env (lookups w + i) s = Some p ->
        (target_price l <? p)%float = true ->
        level_of (user_levels w') u s = Some l /\
        notified u s (since w w') = 0)).
Proof.
  split.
  - intros t w0 p Hp. split.
    + intros Hle W0.
      destruct (check_level_fires_after env u s l t w0 p Hp Hle) as [T Habs].
      split; [now apply Habs|].
      erewrite since_app by exact T. apply notified_alert.
    + intros Hgt. rewrite (check_level_passes env u s l t w0).
      * now rewrite Hp.
      * now apply (fires_gt env _ s l p).
  - intros Q W Hn.
    destruct (check_all_levels_quiet env w Q W) as (a & evs & E & A & L).
    destruct (sweep_all_at env (user_levels w) (lookups w) i u s l W Hn) as [H1 H2].
    eexists. split; [exact E|].
    rewrite (since_app w _ evs) by reflexivity. cbn [user_levels].
    unfold notified. rewrite A.
    split; intros p Hp Hc.
    + pose proof (fires_le env _ s l p Hp Hc) as F. rewrite F in H1, H2.
      repeat split; [exact H1 | exact H2 |].
      apply in_alerts. rewrite A. now apply (fired_in env _ _ i u s l p).
    + pose proof (fires_gt env _ s l p Hp Hc) as F. rewrite F in H1, H2.
      now split.
Qed.

Lemma steady_quiet p : quiet (steady p).
Proof. intros n. reflexivity. Qed.

Lemma raced_wf : wf_registry (user_levels raced).
Proof. split; repeat constructor; simpl; tauto. Qed.

Lemma check_all_levels_triggers_witness :
  exists w', check_all_levels (steady 95) raced = (Ok tt, w') /\
    level_of (user_levels w') 7 "SYM" = None /\
    notified 7 "SYM" (since raced w') = 1 /\
    In (Notify 7 (mkLevel "SYM" 100 0) 95) (since raced w').
Proof.
  destruct (proj2 (check_all_levels_triggers (steady 95) raced 0 7 "SYM"
                     (mkLevel "SYM" 100 0)) (steady_quiet 95) raced_wf eq_refl)
    as (w' & E & Hle & _).
  exists w'. split; [exact E|]. apply (Hle 95%float); reflexivity.
Defined.

(** One turn of the loop in a quiet environment. *)
Lemma monitoring_turn_quiet env w :
  quiet env ->
  wf_registry (user_levels w) ->
  exists a evs,
    monitoring_turn env w =
      (Ok tt,
       mkWorld (sweep_all env (lookups w) (user_levels w)) (trace w ++ evs) a
               (lookups w + List.length (entries (user_levels w)))) /\
    alerts evs = fired env (lookups w) (entries (user_levels w)) /\
    looked evs = map (fun e => snd (fst e)) (entries (user_levels w)).
Proof.
  intros Q W.
  destruct (check_all_levels_quiet env w Q W) as (a & evs & E & A & L).
  unfold monitoring_turn, try_except, bind at 1. rewrite E.
  unfold sleep, bind, emit, await, ret. cbn [user_levels trace awaits lookups].
  rewrite Q. cbn [apply_mutations fold_left].
  exists (S a), (evs ++ [Sleep 300]). rewrite <- app_assoc.
  split; [reflexivity|].
  rewrite alerts_app, looked_app, A, L. cbn. now rewrite !app_nil_r.
Qed.

(** C8: a turn of the inner loop on an item whose price the source does not
    give only makes the lookup: no notifier, no write, in any environment.
    And in a scan that no other coroutine disturbs an entry whose price the
    source does not give stays in the registry as it is and is not notified,
    and the next scan asks for its price again. *)
Theorem unavailable_price_skips (env : environment) (w : world) (i : nat)
    (u : Z) (s : string) (l : TargetLevel) :
  (forall t w0, prices env (lookups w0) s = None ->
     check_level env u (s, l) t w0 =
       (Ok t,
        mkWorld (apply_mutations (user_levels w0) (during env (awaits w0)))
                (trace w0 ++ [Lookup s]) (S (awaits w0)) (S (lookups w0)))) /\
  (quiet env ->
   wf_registry (user_levels w) ->
   nth_error (entries (user_levels w)) i = Some (u, s, l) ->
   prices env (lookups w + i) s = None ->
   exists w1, monitoring_turn env w = (Ok tt, w1) /\
     level_of (user_levels w1) u s = Some l /\
     notified u s (since w w1) = 0 /\
     exists w2 j, check_all_levels env w1 = (Ok tt, w2) /\
       nth_error (entries (user_levels w1)) j = Some (u, s, l) /\
       nth_error (looked (since w1 w2)) j = Some s).
Proof.
  split.
  - intros t w0 Hp. rewrite (check_level_passes env u s l t w0).
    + now rewrite Hp.
    + now apply fires_unavailable.
  - intros Q W Hn Hp.
    destruct (monitoring_turn_quiet env w Q W) as (a & evs & E & A & _).
    destruct (sweep_all_at env (user_levels w) (lookups w) i u s l W Hn) as [H1 H2].
    rewrite (fires_unavailable env _ s l Hp) in H1, H2.
    eexists. split; [exact E|]. cbn [user_levels].
    rewrite (since_app w _ evs) by reflexivity.
    split; [exact H1|]. split; [unfold notified; now rewrite A|].
    set (w1 := mkWorld _ _ _ _).
    assert (W1 : wf_registry (user_levels w1)).
    { pose proof (monitoring_turns_wf env 1 w W) as K.
      simpl in K. unfold bind in K. rewrite E in K. exact K. }
    destruct (check_all_levels_quiet env w1 Q W1) as (a2 & evs2 & E2 & _ & L2).
    destruct (In_nth_error _ _ (level_entries _ _ _ _ H1)) as [j Hj].
    eexists. exists j. split; [exact E2|]. split; [exact Hj|].
    rewrite (since_app w1 _ evs2) by reflexivity.
    rewrite L2, nth_error_map. subst w1. cbn [user_levels] in *. now rewrite Hj.
Qed.

Lemma unavailable_price_skips_witness :
  exists w1, monitoring_turn blind raced = (Ok tt, w1) /\
    level_of (user_levels w1) 7 "SYM" = Some (mkLevel "SYM" 100 0) /\
    notified 7 "SYM" (since raced w1) = 0 /\
    exists w2 j, check_all_levels blind w1 = (Ok tt, w2) /\
      nth_error (entries (user_levels w1)) j = Some (7%Z, "SYM"%string, mkLevel "SYM" 100 0) /\
      nth_error (looked (since w1 w2)) j = Some "SYM"%string.
Proof.
  apply (proj2 (unavailable_price_skips blind raced 0 7 "SYM" (mkLevel "SYM" 100 0))).
  - intros n. reflexivity.
  - exact raced_wf.
  - reflexivity.
  - reflexivity.
Defined.

Lemma sweep_all_wf env w :
  quiet env -> wf_registry (user_levels w) ->
  wf_registry (sweep_all env (lookups w) (user_levels w)).
Proof.
  intros Q W. destruct (check_all_levels_quiet env w Q W) as (a & evs & E & _).
  pose proof (check_all_levels_wf env w W) as K. now rewrite E in K.
Qed.

(** One turn of the inner loop on an item that is in the registry and
    triggers. *)
Lemma check_level_fires_quiet env u sym l t w d p :
  quiet env ->
  Dict.get (user_levels w) u = Some d ->
  Dict.mem d sym = true ->
  prices env (lookups w) sym = Some p ->
  (p <=? target_price l)%float = true ->
  check_level env u (sym, l) t w =
    (Ok (S t),
     mkWorld (Dict.set (user_levels w) u (Dict.remove d sym))
             (trace w ++ Lookup sym :: Notify u l p
                :: alert_outcome env (S (awaits w)) u l p)
             (if (target_price l =? 0)%float then S (awaits w) else S (S (awaits w)))
             (S (lookups w))).
Proof.
  intros Q Hd Hm Hp Hle. unfold check_level, bind at 1.
  rewrite get_binance_price_quiet by exact Q. rewrite Hp, Hle.
  unfold bind at 1. unfold bind at 1.
  rewrite send_target_hit_alert_quiet by exact Q.
  unfold del_level, levels_of, bind, get_levels, put_levels, ret.
  cbn [user_levels trace awaits lookups]. rewrite Hd, Hm.
  cbn [user_levels trace awaits lookups]. now rewrite <- app_assoc.
Qed.

Lemma monitoring_turns_quiet_absent env u s : forall n w,
  quiet env -> wf_registry (user_levels w) ->
  level_of (user_levels w) u s = None ->
  exists w' evs, monitoring_turns env n w = (Ok tt, w') /\
    trace w' = trace w ++ evs /\ count_alerts u s (alerts evs) = 0.
Proof.
  induction n as [|n IH]; intros w Q W Hl.
  - exists w, []. simpl. unfold ret. now rewrite app_nil_r.
  - destruct (monitoring_turn_quiet env w Q W) as (a & ev1 & E1 & A1 & _).
    destruct (sweep_all_absent env (user_levels w) (lookups w) u s W Hl) as [H1 H2].
    cbn [monitoring_turns]. unfold bind. rewrite E1.
    set (w1 := mkWorld _ _ _ _).
    destruct (IH w1 Q (sweep_all_wf env w Q W) H1) as (w' & evs & E & T & C).
    exists w', (ev1 ++ evs). split; [exact E|]. split.
    + rewrite T. subst w1. cbn [trace]. now rewrite app_assoc.
    + now rewrite alerts_app, count_alerts_app, A1, H2, C.
Qed.

Lemma monitoring_turns_quiet_once env u s : forall n w,
  quiet env -> wf_registry (user_levels w) ->
  exists w' evs, monitoring_turns env n w = (Ok tt, w') /\
    trace w' = trace w ++ evs /\ count_alerts u s (alerts evs) <= 1.
Proof.
  induction n as [|n IH]; intros w Q W.
  - exists w, []. simpl. unfold ret. rewrite app_nil_r. repeat split. cbn. lia.
  - destruct (level_of (user_levels w) u s) as [l|] eqn:Hl.
    2:{ destruct (monitoring_turns_quiet_absent env u s (S n) w Q W Hl)
          as (w' & evs & E & T & C).
        exists w', evs. repeat split; try assumption. lia. }
    destruct (In_nth_error _ _ (level_entries _ _ _ _ Hl)) as [i Hi].
    destruct (monitoring_turn_quiet env w Q W) as (a & ev1 & E1 & A1 & _).
    destruct (sweep_all_at env (user_levels w) (lookups w) i u s l W Hi) as [H1 H2].
    cbn [monitoring_turns]. unfold bind. rewrite E1.
    set (w1 := mkWorld _ _ _ _).
    pose proof (sweep_all_wf env w Q W) as W1.
    destruct (fires env (lookups w + i) (s, l)).
    + destruct (monitoring_turns_quiet_absent env u s n w1 Q W1 H1)
        as (w' & evs & E & T & C).
      exists w', (ev1 ++ evs). split; [exact E|]. split.
      * rewrite T. subst w1. cbn [trace]. now rewrite app_assoc.
      * rewrite alerts_app, count_alerts_app, A1, H2, C. lia.
    + destruct (IH w1 Q W1) as (w' & evs & E & T & C).
      exists w', (ev1 ++ evs). split; [exact E|]. split.
      * rewrite T. subst w1. cbn [trace]. now rewrite app_assoc.
      * rewrite alerts_app, count_alerts_app, A1, H2. lia.
Qed.

(** C6: in any environment, an entry that triggers has no level left after
    its turn, whatever became of the alert: when the message is not delivered
    (or cannot be built) the failure is logged and nothing brings the entry
    back.  Where no other coroutine writes, the turn returns normally, and
    over any number of turns of the loop the notifier is called at most once
    for a user and symbol. *)
Theorem alert_at_most_once (env : environment) (w : world) (u : Z)
    (s : string) (l : TargetLevel) (p : float) (t : nat) :
  wf_registry (user_levels w) ->
  (prices env (lookups w) s = Some p ->
   (p <=? target_price l)%float = true ->
   level_of (user_levels (snd (check_level env u (s, l) t w))) u s = None /\
   since w (snd (check_level env u (s, l) t w))
     = Lookup s :: Notify u l p :: alert_outcome env (S (awaits w)) u l p /\
   (delivered env (S (awaits w)) = false ->
    exists e, since w (snd (check_level env u (s, l) t w))
              = [Lookup s; Notify u l p; Log (Failed InAlert e)])) /\
  (quiet env ->
   (level_of (user_levels w) u s = Some l ->
    prices env (lookups w) s = Some p ->
    (p <=? target_price l)%float = true ->
    fst (check_level env u (s, l) t w) = Ok (S t)) /\
   (forall n, exists w',
      price_monitoring_loop env n w = (Ok tt, w') /\
      notified u s (since w w') <= 1)).
Proof.
  intros W. split.
  - intros Hp Hle.
    destruct (check_level_fires_after env u s l t w p Hp Hle) as [T3 Habs].
    assert (S3 : since w (snd (check_level env u (s, l) t w))
                 = Lookup s :: Notify u l p
                     :: alert_outcome env (S (awaits w)) u l p).
    { now apply since_app. }
    split; [now apply Habs|]. split; [exact S3|].
    intros Hdel. rewrite S3. unfold alert_outcome. rewrite Hdel.
    destruct (target_price l =? 0)%float; eexists; reflexivity.
  - intros Q. split.
    + intros Hl Hp Hle. unfold level_of in Hl.
      destruct (Dict.get (user_levels w) u) as [d|] eqn:Hd; [|discriminate].
      assert (Hm : Dict.mem d s = true) by (unfold Dict.mem; now rewrite Hl).
      now rewrite (check_level_fires_quiet env u s l t w d p Q Hd Hm Hp Hle).
    + intros n. unfold price_monitoring_loop, logger, bind, emit.
      set (w0 := mkWorld _ _ _ _).
      destruct (monitoring_turns_quiet_once env u s n w0 Q W)
        as (w' & evs & E & T & C).
      exists w'. split; [exact E|].
      rewrite (since_app w w' ([Log Started] ++ evs)).
      * unfold notified. rewrite alerts_app. exact C.
      * rewrite T. subst w0. cbn [trace]. now rewrite <- app_assoc.
Qed.

Lemma mute_quiet p : quiet (mute p).
Proof. intros n. reflexivity. Qed.

Lemma alert_at_most_once_witness :
  (level_of (user_levels
               (snd (check_level (mute 95) 7 ("SYM"%string, mkLevel "SYM" 100 0)
                       0 raced))) 7 "SYM" = None /\
   since raced
     (snd (check_level (mute 95) 7 ("SYM"%string, mkLevel "SYM" 100 0) 0 raced))
     = Lookup "SYM" :: Notify 7 (mkLevel "SYM" 100 0) 95
         :: alert_outcome (mute 95) 1 7 (mkLevel "SYM" 100 0) 95 /\
   (delivered (mute 95) 1 = false ->
    exists e,
      since raced
        (snd (check_level (mute 95) 7 ("SYM"%string, mkLevel "SYM" 100 0) 0 raced))
      = [Lookup "SYM"; Notify 7 (mkLevel "SYM" 100 0) 95;
         Log (Failed InAlert e)])) /\
  fst (check_level (mute 95) 7 ("SYM"%string, mkLevel "SYM" 100 0) 0 raced)
    = Ok 1 /\
  (forall n, exists w',
     price_monitoring_loop (mute 95) n raced = (Ok tt, w') /\
     notified 7 "SYM" (since raced w') <= 1).
Proof.
  destruct (alert_at_most_once (mute 95) raced 7 "SYM" (mkLevel "SYM" 100 0) 95 0
              raced_wf) as [H1 H2].
  destruct (H2 (mute_quiet 95)) as [H3 H4].
  split; [apply H1; reflexivity|].
  split; [apply H3; reflexivity | exact H4].
Defined.

(** C1, as the code has it: for a scanned item whose fetched price is at or
    below its target the notifier is called at once, for the level as it was
    snapshotted and whatever the registry holds by then; the monitor writes
    nothing to the registry before the notifier has returned, and only then
    deletes the key, after which the registry has no level for it. *)
Theorem notify_precedes_delete (env : environment) (u : Z) (s : string)
    (l : TargetLevel) (t : nat) (w : world) (p : float) :
  prices env (lookups w) s = Some p ->
  (p <=? target_price l)%float = true ->
  exists w1 w2,
    get_binance_price env s w = (Ok (Some p), w1) /\
    user_levels w1 = apply_mutations (user_levels w) (during env (awaits w)) /\
    send_target_hit_alert env u l p w1 = (Ok tt, w2) /\
    user_levels w2 =
      (if (target_price l =? 0)%float then user_levels w1
       else apply_mutations (user_levels w1) (during env (awaits w1))) /\
    since w w2 = Lookup s :: Notify u l p :: alert_outcome env (awaits w1) u l p /\
    check_level env u (s, l) t w = (del_level u s ;; ret (S t)) w2 /\
    notified u (symbol l) (since w (snd (check_level env u (s, l) t w))) = 1 /\
    (wf_registry (user_levels w) ->
     level_of (user_levels (snd (check_level env u (s, l) t w))) u s = None).
Proof.
  intros Hp Hle.
  set (w1 := mkWorld (apply_mutations (user_levels w) (during env (awaits w)))
                     (trace w ++ [Lookup s]) (S (awaits w)) (S (lookups w))).
  assert (E1 : get_binance_price env s w = (Ok (Some p), w1)).
  { unfold get_binance_price, bind, emit, await.
    cbn [user_levels trace awaits lookups]. now rewrite Hp. }
  pose proof (send_target_hit_alert_run env u l p w1) as E2.
  pose proof (check_level_fires_run env u s l t w p Hp Hle) as E3.
  destruct (check_level_fires_after env u s l t w p Hp Hle) as [T3 Habs].
  exists w1. eexists. split; [exact E1|]. split; [reflexivity|].
  split; [exact E2|]. split; [reflexivity|]. split; [|split; [|split]].
  - apply since_app. subst w1. cbn [trace awaits]. now rewrite <- app_assoc.
  - rewrite E3. subst w1. cbn [user_levels trace awaits lookups].
    now rewrite <- app_assoc.
  - erewrite since_app by exact T3. apply notified_alert.
  - exact Habs.
Qed.

Lemma notify_precedes_delete_witness :
  exists w1 w2,
    get_binance_price (racing 95 7 "SYM" 0) "SYM" raced = (Ok (Some 95%float), w1) /\
    user_levels w1 = [(7%Z, [])] /\
    send_target_hit_alert (racing 95 7 "SYM" 0) 7 (mkLevel "SYM" 100 0) 95 w1
      = (Ok tt, w2) /\
    since raced w2 = [Lookup "SYM"; Notify 7 (mkLevel "SYM" 100 0) 95;
                      Sent 7 (TargetHit (mkLevel "SYM" 100 0) 95);
                      Log (AlertSent 7 (mkLevel "SYM" 100 0) 95)].
Proof.
  destruct (notify_precedes_delete (racing 95 7 "SYM" 0) 7 "SYM"
              (mkLevel "SYM" 100 0) 0 raced 95 eq_refl eq_refl)
    as (w1 & w2 & E1 & R1 & E2 & _ & S2 & _).
  exists w1, w2. repeat split; assumption.
Defined.

(** C1 fails: the monitor has no claim step.  A manual remove that lands
    while the price is fetched, or while the alert is being sent, does not keep
    the notifier from being called: in both runs the alert is sent, and the
    delete then raises KeyError and ends the scan. *)
Lemma notify_despite_manual_remove :
  level_of (apply_mutations (user_levels raced) (during (racing 95 7 "SYM" 0) 0))
           7 "SYM" = None /\
  check_all_levels (racing 95 7 "SYM" 0) raced =
    (Raise KeyError,
     mkWorld [(7%Z, [])]
       [Lookup "SYM"; Notify 7 (mkLevel "SYM" 100 0) 95;
        Sent 7 (TargetHit (mkLevel "SYM" 100 0) 95);
        Log (AlertSent 7 (mkLevel "SYM" 100 0) 95)] 2 1) /\
  check_all_levels (racing 95 7 "SYM" 1) raced =
    (Raise KeyError,
     mkWorld [(7%Z, [])]
       [Lookup "SYM"; Notify 7 (mkLevel "SYM" 100 0) 95;
        Sent 7 (TargetHit (mkLevel "SYM" 100 0) 95);
        Log (AlertSent 7 (mkLevel "SYM" 100 0) 95)] 2 1).
Proof. repeat split; reflexivity. Qed.

(* ------------------------------------------------------------------ *)
(** * Insertion order *)

Lemma get_touch reg u0 u :
  Dict.get (touch reg u0) u
  = match Dict.get reg u with
    | Some d => Some d
    | None => if (u =? u0)%Z then Some [] else None
    end.
Proof.
  unfold touch, Dict.mem. destruct (Dict.get reg u0) as [d0|] eqn:H0.
  - destruct (Z.eqb_spec u u0) as [->|Hne]; [now rewrite H0|].
    now destruct (Dict.get reg u).
  - destruct (Z.eqb_spec u u0) as [->|Hne].
    + now rewrite get_set_same, H0.
    + rewrite get_set_other by congruence. now destruct (Dict.get reg u).
Qed.

Lemma sorted_snoc (xs : list nat) (t : nat) :
  StronglySorted lt xs -> Forall (fun x => x < t) xs ->
  StronglySorted lt (xs ++ [t]).
Proof.
  induction 1 as [|x xs Hs IH Hx]; intros Hlt; simpl.
  - repeat constructor.
  - inversion Hlt as [|? ? Hxt Hlt']; subst. constructor; [now apply IH|].
    apply Forall_app. split; [exact Hx | now constructor].
Qed.

Lemma sorted_remove (f : string -> nat) (d : levels) k :
  StronglySorted lt (map f (Dict.keys d)) ->
  StronglySorted lt (map f (Dict.keys (Dict.remove d k))).
Proof.
  induction d as [|[k0 v0] d IH]; simpl; intros Hs; [constructor|].
  inversion Hs as [|? ? Hs' Hall]; subst.
  destruct (String.eqb k k0); [exact Hs'|]. simpl.
  constructor; [now apply IH|].
  rewrite Forall_forall in *. intros x Hx. apply Hall.
  apply in_map_iff in Hx. destruct Hx as (y & <- & Hy).
  apply in_map. now apply keys_remove_incl in Hy.
Qed.

Lemma sorted_nth (xs : list nat) : StronglySorted lt xs ->
  forall i j a b, i < j -> nth_error xs i = Some a -> nth_error xs j = Some b ->
  a < b.
Proof.
  induction 1 as [|x xs Hs IH Hx]; intros i j a b Hij Hi Hj.
  - now destruct i.
  - destruct j as [|j]; [lia|]. simpl in Hj. destruct i as [|i]; simpl in Hi.
    + injection Hi as <-. rewrite Forall_forall in Hx. apply Hx.
      now apply nth_error_In in Hj.
    + apply (IH i j); [lia | assumption | assumption].
Qed.

Lemma get_store_same reg u l d :
  Dict.get reg u = Some d ->
  Dict.get (store reg u l) u = Some (Dict.set d (symbol l) l).
Proof. intros Hd. unfold store. rewrite Hd. apply get_set_same. Qed.

Lemma get_store_other reg u0 u l :
  u0 <> u -> Dict.get (store reg u0 l) u = Dict.get reg u.
Proof.
  intros Hne. unfold store. destruct (Dict.get reg u0); [|reflexivity].
  now apply get_set_other.
Qed.

Lemma get_discard_same reg u s d :
  Dict.get reg u = Some d ->
  Dict.get (discard reg u s) u = Some (Dict.remove d s).
Proof. intros Hd. unfold discard. rewrite Hd. apply get_set_same. Qed.

Lemma get_discard_other reg u0 u s :
  u0 <> u -> Dict.get (discard reg u0 s) u = Dict.get reg u.
Proof.
  intros Hne. unfold discard. destruct (Dict.get reg u0); [|reflexivity].
  now apply get_set_other.
Qed.

Lemma get_discard_none reg u0 u s :
  Dict.get reg u = None -> Dict.get (discard reg u0 s) u = None.
Proof.
  intros Hn. unfold discard. destruct (Dict.get reg u0) eqn:H0; [|exact Hn].
  rewrite get_set_other; [exact Hn | congruence].
Qed.

Lemma agrees_key t reg L u d s :
  agrees t reg L -> Dict.get reg u = Some d -> In s (Dict.keys d) ->
  exists b l, L u s = Some (b, l) /\ b < t.
Proof.
  intros (W & Hl & Hb & _) Hd Hin.
  specialize (Hl u s). unfold level_of in Hl. rewrite Hd in Hl.
  destruct (Dict.get d s) as [l|] eqn:Hg.
  - destruct (L u s) as [[b l']|] eqn:HL; [|discriminate].
    exists b, l'. split; [reflexivity | now apply (Hb u s b l')].
  - apply get_none_iff in Hg. contradiction.
Qed.

Lemma agrees_step t reg L m :
  agrees t reg L -> agrees (S t) (apply_mutation reg m) (ledger_step t L m).
Proof.
  intros A. pose proof A as (W & Hl & Hb & Hs).
  destruct m as [u0|u0 l0|u0 s0]; cbn [apply_mutation ledger_step].
  - (* Touch *)
    split; [now apply wf_touch|]. split; [|split].
    + intros u s. now rewrite level_of_touch.
    + intros u s b l HL. specialize (Hb u s b l HL). lia.
    + intros u d Hd. rewrite get_touch in Hd.
      destruct (Dict.get reg u) as [d'|] eqn:Hd'.
      * injection Hd as <-. now apply Hs.
      * destruct (u =? u0)%Z; [injection Hd as <-; constructor | discriminate].
  - (* Store *)
    destruct (get_touch_same reg u0) as (d0 & Hd0 & Hsame).
    pose proof (wf_touch reg u0 W) as Wt.
    split; [now apply wf_store|]. split; [|split].
    + intros u s. unfold level_of.
      destruct (Z.eqb_spec u u0) as [->|Hne]; simpl.
      * rewrite (get_store_same _ _ _ _ Hd0).
        destruct (String.eqb_spec s (symbol l0)) as [->|Hns].
        -- rewrite get_set_same.
           destruct (L u0 (symbol l0)) as [[b l]|]; reflexivity.
        -- rewrite get_set_other by congruence. rewrite Hsame. apply Hl.
      * rewrite get_store_other by congruence.
        fold (level_of (touch reg u0) u s). rewrite level_of_touch. apply Hl.
    + intros u s b l. destruct ((u =? u0)%Z && (s =? symbol l0)%string).
      * destruct (L u0 (symbol l0)) as [[b' l']|] eqn:HL.
        -- intros [= <- <-]. specialize (Hb _ _ _ _ HL). lia.
        -- intros [= <- <-]. lia.
      * intros HL. specialize (Hb _ _ _ _ HL). lia.
    + intros u d Hd.
      destruct (Z.eq_dec u0 u) as [<-|Hne].
      * rewrite (get_store_same _ _ _ _ Hd0) in Hd. injection Hd as <-.
        assert (Hs0 : StronglySorted lt (map (birth L u0) (Dict.keys d0))).
        { rewrite get_touch in Hd0. destruct (Dict.get reg u0) as [d'|] eqn:Hd'.
          - injection Hd0 as <-. now apply Hs.
          - rewrite Z.eqb_refl in Hd0. injection Hd0 as <-. constructor. }
        destruct (Dict.get d0 (symbol l0)) as [old|] eqn:Hold.
        -- (* an update: the key keeps its place and its time *)
           rewrite keys_set_present by (unfold Dict.mem; now rewrite Hold).
           erewrite map_ext; [exact Hs0|].
           intros s. unfold birth. rewrite Z.eqb_refl. simpl.
           destruct (String.eqb_spec s (symbol l0)) as [->|_]; [|reflexivity].
           specialize (Hl u0 (symbol l0)). rewrite <- Hsame, Hold in Hl.
           destruct (L u0 (symbol l0)) as [[b l]|]; [reflexivity | discriminate].
        -- (* an insertion: the key goes last, with the latest time *)
           rewrite (set_absent _ _ _ Hold). unfold Dict.keys.
           rewrite map_app, map_app. simpl.
           assert (HL0 : L u0 (symbol l0) = None).
           { specialize (Hl u0 (symbol l0)). rewrite <- Hsame, Hold in Hl.
             now destruct (L u0 (symbol l0)). }
           assert (Hold' : ~ In (symbol l0) (Dict.keys d0)) by now apply get_none_iff.
           assert (Hin : forall s, In s (Dict.keys d0) ->
                           exists b l, L u0 s = Some (b, l) /\ b < t).
           { intros s Hin. rewrite get_touch in Hd0.
             destruct (Dict.get reg u0) as [d'|] eqn:Hd'.
             - injection Hd0 as <-. now apply (agrees_key t reg L u0 d' s A Hd').
             - rewrite Z.eqb_refl in Hd0. injection Hd0 as <-. contradiction. }
           replace (birth _ u0 (symbol l0)) with t.
           2:{ unfold birth. now rewrite Z.eqb_refl, String.eqb_refl, HL0. }
           erewrite map_ext_in.
           ++ apply sorted_snoc; [exact Hs0|].
              rewrite Forall_forall. intros x Hx. apply in_map_iff in Hx.
              destruct Hx as (s & <- & Hs'). destruct (Hin s Hs') as (b & l & HL & Hlt).
              unfold birth. now rewrite HL.
           ++ intros s Hs'. unfold birth. rewrite Z.eqb_refl. simpl.
              destruct (String.eqb_spec s (symbol l0)) as [->|_]; [contradiction|].
              reflexivity.
      * rewrite get_store_other in Hd by exact Hne.
        rewrite get_touch in Hd.
        assert (Hb' : forall s, birth (ledger_step t L (Store u0 l0)) u s = birth L u s).
        { intros s. unfold birth. cbn [ledger_step].
          destruct (Z.eqb_spec u u0) as [E|_]; [congruence | reflexivity]. }
        cbn [ledger_step] in Hb'. erewrite map_ext by apply Hb'.
        destruct (Dict.get reg u) as [d'|] eqn:Hd'.
        -- injection Hd as <-. now apply Hs.
        -- destruct (u =? u0)%Z; [injection Hd as <-; constructor | discriminate].
  - (* Discard *)
    split; [now apply wf_discard|]. split; [|split].
    + intros u s. unfold level_of.
      destruct (Z.eqb_spec u u0) as [->|Hne]; simpl.
      * destruct (Dict.get reg u0) as [d|] eqn:Hd.
        -- rewrite (get_discard_same _ _ _ _ Hd).
           destruct (String.eqb_spec s s0) as [->|Hns].
           ++ apply get_remove_same. now apply (wf_registry_get _ _ _ W Hd).
           ++ rewrite get_remove_other by congruence.
              specialize (Hl u0 s). unfold level_of in Hl. now rewrite Hd in Hl.
        -- rewrite get_discard_none by exact Hd.
           specialize (Hl u0 s). unfold level_of in Hl. rewrite Hd in Hl.
           destruct (s =? s0)%string; [reflexivity | exact Hl].
      * rewrite get_discard_other by congruence. apply Hl.
    + intros u s b l. destruct ((u =? u0)%Z && (s =? s0)%string); [discriminate|].
      intros HL. specialize (Hb _ _ _ _ HL). lia.
    + intros u d Hd.
      destruct (Z.eq_dec u0 u) as [<-|Hne].
      * destruct (Dict.get reg u0) as [d0|] eqn:Hd0.
        -- rewrite (get_discard_same _ _ _ _ Hd0) in Hd. injection Hd as <-.
           destruct (wf_registry_get _ _ _ W Hd0) as [Wd _].
           erewrite map_ext_in.
           ++ apply sorted_remove. now apply (Hs u0 d0).
           ++ intros s Hin. unfold birth. rewrite Z.eqb_refl. simpl.
              destruct (String.eqb_spec s s0) as [->|_]; [|reflexivity].
              exfalso. pose proof (get_remove_same d0 s0 Wd) as Hr.
              now apply get_none_iff in Hr.
        -- rewrite get_discard_none in Hd by exact Hd0. discriminate.
      * rewrite get_discard_other in Hd by exact Hne.
        erewrite map_ext; [now apply (Hs u d)|].
        intros s. unfold birth.
        destruct (Z.eqb_spec u u0) as [E|_]; [congruence | reflexivity].
Qed.

Lemma agrees_run ms : forall t reg L,
  agrees t reg L ->
  agrees (t + List.length ms) (apply_mutations reg ms) (ledger_run t L ms).
Proof.
  unfold apply_mutations.
  induction ms as [|m ms IH]; intros t reg L A; simpl.
  - now rewrite Nat.add_0_r.
  - replace (t + S (List.length ms)) with (S t + List.length ms) by lia.
    apply IH. now apply agrees_step.
Qed.

Lemma agrees_empty : agrees 0 [] empty_ledger.
Proof.
  split; [split; constructor|]. split; [reflexivity|]. split; [discriminate|].
  discriminate.
Qed.

(** The items of a user's sub-map are in insertion order. *)
Lemma agrees_order t reg L u :
  agrees t reg L ->
  in_insertion_order L u
    (match Dict.get reg u with Some d => d | None => [] end).
Proof.
  intros (W & Hl & Hb & Hs). unfold in_insertion_order.
  destruct (Dict.get reg u) as [d|] eqn:Hd.
  - destruct (wf_registry_get _ _ _ W Hd) as [Wd _].
    assert (Hiff : forall s l, In (s, l) d <-> exists born, L u s = Some (born, l)).
    { intros s l. specialize (Hl u s). unfold level_of in Hl. rewrite Hd in Hl.
      split.
      - intros Hin. rewrite (in_get _ _ _ Wd Hin) in Hl.
        destruct (L u s) as [[b l']|]; [|discriminate].
        simpl in Hl. injection Hl as ->. now exists b.
      - intros [b HL]. rewrite HL in Hl. simpl in Hl. now apply get_in. }
    split; [exact Hiff|]. split; [exact Wd|].
    intros i j s1 l1 s2 l2 b1 b2 Hi Hj H1 H2 Hij.
    apply (sorted_nth _ (Hs u d Hd) i j); [exact Hij| |].
    + unfold Dict.keys. rewrite !nth_error_map, Hi. simpl.
      unfold birth. now rewrite H1.
    + unfold Dict.keys. rewrite !nth_error_map, Hj. simpl.
      unfold birth. now rewrite H2.
  - split; [|split; [constructor|]].
    + intros s l. split; [contradiction|]. intros [b HL].
      specialize (Hl u s). unfold level_of in Hl. rewrite Hd, HL in Hl. discriminate.
    + intros i j s1 l1 s2 l2 b1 b2 Hi. now destruct i.
Qed.

(** ** [list_levels_command] *)

Lemma list_row_quiet env sl rows w :
  quiet env ->
  exists r, shown r = sl /\
    list_row env sl rows w =
      (Ok (rows ++ [r]),
       mkWorld (user_levels w) (trace w ++ [Lookup (fst sl)]) (S (awaits w))
               (S (lookups w))).
Proof.
  intros Q. destruct sl as [sym level]. unfold list_row, bind.
  rewrite get_binance_price_quiet by exact Q. unfold ret.
  eexists. split; [|reflexivity].
  destruct (prices env (lookups w) sym) as [p|]; [|reflexivity].
  destruct (p =? 0)%float; [reflexivity|].
  now destruct (p <=? target_price level)%float.
Qed.

Lemma levels_of_run u d w :
  Dict.get (user_levels w) u = Some d -> levels_of u w = (Ok d, w).
Proof. intros Hd. unfold levels_of, bind, get_levels, ret. now rewrite Hd. Qed.

Lemma list_rows_quiet env u d : forall rest done rows w,
  quiet env ->
  Dict.get (user_levels w) u = Some d ->
  d = done ++ rest ->
  exists rows' evs a k,
    iterate (levels_of u) (List.length d) (List.length rest) (list_row env) rows w
      = (Ok rows', mkWorld (user_levels w) (trace w ++ evs) a k) /\
    map shown rows' = map shown rows ++ rest.
Proof.
  induction rest as [|x rest IH]; intros done rows w Q Hd Hsplit.
  - cbn [iterate List.length]. unfold bind. rewrite (levels_of_run u d w Hd).
    rewrite Nat.eqb_refl. cbn [negb]. unfold ret.
    exists rows, [], (awaits w), (lookups w).
    rewrite !app_nil_r. split; [now destruct w | reflexivity].
  - cbn [iterate List.length]. unfold bind at 1. rewrite (levels_of_run u d w Hd).
    rewrite Nat.eqb_refl. cbn [negb].
    assert (Hpos : List.length d - S (List.length rest) = List.length done).
    { rewrite Hsplit, length_app. simpl. lia. }
    rewrite Hpos.
    replace (nth_error d (List.length done)) with (Some x)
      by (rewrite Hsplit, nth_error_app2, Nat.sub_diag by lia; reflexivity).
    destruct (list_row_quiet env x rows w Q) as (r & Hr & E).
    unfold bind at 1. rewrite E.
    set (w1 := mkWorld _ _ _ _).
    assert (Hsplit1 : d = (done ++ [x]) ++ rest) by now rewrite <- app_assoc.
    destruct (IH (done ++ [x]) (rows ++ [r]) w1 Q Hd Hsplit1)
      as (rows' & evs & a & k & E' & M).
    exists rows', ([Lookup (fst x)] ++ evs), a, k. split.
    + rewrite E'. subst w1. cbn [user_levels trace]. now rewrite <- app_assoc.
    + rewrite M, map_app, <- app_assoc. simpl. now rewrite Hr.
Qed.

Lemma list_levels_command_calm env u w :
  calm env ->
  exists w' m evs,
    list_levels_command env u w = (Ok tt, w') /\
    since w w' = evs ++ [Reply u m] /\
    user_levels w' = user_levels w /\
    listed m = match Dict.get (user_levels w) u with Some d => d | None => [] end /\
    (Dict.get (user_levels w) u = None -> m = NoActiveLevels).
Proof.
  intros C. pose proof (calm_quiet env C) as Q.
  unfold list_levels_command, bind at 1, get_levels at 1. cbv beta iota.
  destruct (Dict.get (user_levels w) u) as [[|x d]|] eqn:Hd.
  - rewrite reply_text_calm by exact C.
    eexists. exists NoActiveLevels, []. split; [reflexivity|].
    split; [now apply since_app|]. repeat split.
  - unfold for_items, bind at 1, bind at 1.
    rewrite (levels_of_run u (x :: d) w Hd).
    destruct (list_rows_quiet env u (x :: d) (x :: d) [] [] w Q Hd eq_refl)
      as (rows & evs & a & k & E & M).
    rewrite E. rewrite reply_text_calm by exact C.
    cbn [user_levels trace awaits lookups].
    eexists. exists (LevelList rows), evs. split; [reflexivity|].
    split; [apply since_app; cbn [trace]; now rewrite <- app_assoc|].
    split; [reflexivity|]. split; [exact M | discriminate].
  - rewrite reply_text_calm by exact C.
    eexists. exists NoActiveLevels, []. split; [reflexivity|].
    split; [now apply since_app|]. repeat split.
Qed.

(** The registry writes of the coroutines are the mutations. *)
Lemma add_level_command_as_mutation py_float env u a0 a1 target p w :
  calm env ->
  py_float a1 = Some target ->
  prices env (lookups w) (upper a0) = Some p ->
  exists level,
    symbol level = upper a0 /\ target_price level = target /\
    user_levels (snd (add_level_command py_float env u [a0; a1] w))
      = apply_mutation (user_levels w) (Store u level).
Proof.
  intros C Hf Hp.
  destruct (add_level_command_stores py_float env u a0 a1 target p w C Hf Hp)
    as (w' & d & created & E & Hd & Hreg & _).
  exists (mkLevel (upper a0) target created). repeat split.
  rewrite E. cbn [snd apply_mutation]. unfold store. now rewrite Hd.
Qed.

Lemma remove_level_command_as_mutation env u s rest d lvl w :
  calm env ->
  Dict.get (user_levels w) u = Some d ->
  Dict.get d (upper s) = Some lvl ->
  user_levels (snd (remove_level_command env u (s :: rest) w))
    = apply_mutation (user_levels w) (Discard u (upper s)).
Proof.
  intros C Hd Hl. rewrite (remove_level_command_pops env u s rest d lvl w C Hd Hl).
  cbn [snd user_levels apply_mutation]. unfold discard. now rewrite Hd.
Qed.

Lemma del_level_as_mutation u s w w' :
  del_level u s w = (Ok tt, w') ->
  user_levels w' = apply_mutation (user_levels w) (Discard u s).
Proof.
  unfold del_level, levels_of, bind, get_levels, put_levels, ret, raise.
  cbn [apply_mutation]. unfold discard.
  destruct (Dict.get (user_levels w) u) as [d|]; [|discriminate].
  destruct (Dict.mem d s); [|discriminate]. now intros [= <-].
Qed.

(** Left alone, the command shows the user's pairs in the order of the sub-map,
    which is the order of insertion: for a registry made by any sequence of
    writes of the coroutines, the pairs shown are those the ledger of these
    writes holds for the user, oldest insertion first; and for a user the
    registry does not know nothing is shown. *)
Theorem list_levels_command_order (env : environment) (u : Z) (w : world)
    (ms : list mutation) :
  calm env ->
  user_levels w = apply_mutations [] ms ->
  exists w' m,
    list_levels_command env u w = (Ok tt, w') /\
    In (Reply u m) (since w w') /\
    listed m = match Dict.get (user_levels w) u with Some d => d | None => [] end /\
    in_insertion_order (ledger_run 0 empty_ledger ms) u (listed m) /\
    (Dict.get (user_levels w) u = None -> m = NoActiveLevels /\ listed m = []).
Proof.
  intros C Hreg.
  destruct (list_levels_command_calm env u w C) as (w' & m & evs & E & S & _ & Hm & Hn).
  exists w', m. split; [exact E|]. split; [|split; [exact Hm|split]].
  - rewrite S. apply in_or_app. right. now left.
  - rewrite Hm, Hreg.
    apply (agrees_order (0 + List.length ms)). apply agrees_run, agrees_empty.
  - intros Hnone. split; [now apply Hn|]. now rewrite Hm, Hnone.
Qed.

Lemma list_levels_command_order_witness :
  exists w' m,
    list_levels_command (steady 120) 7
      (mkWorld (apply_mutations []
                  [Store 7 (mkLevel "B" 10 0); Store 7 (mkLevel "A" 20 1);
                   Store 7 (mkLevel "B" 30 2); Discard 7 "A";
                   Store 7 (mkLevel "A" 40 4)]) [] 0 0) = (Ok tt, w') /\
    In (Reply 7 m) (since (mkWorld (apply_mutations []
                  [Store 7 (mkLevel "B" 10 0); Store 7 (mkLevel "A" 20 1);
                   Store 7 (mkLevel "B" 30 2); Discard 7 "A";
                   Store 7 (mkLevel "A" 40 4)]) [] 0 0) w') /\
    listed m = [("B"%string, mkLevel "B" 30 2); ("A"%string, mkLevel "A" 40 4)].
Proof.
  destruct (list_levels_command_order (steady 120) 7
              (mkWorld (apply_mutations []
                  [Store 7 (mkLevel "B" 10 0); Store 7 (mkLevel "A" 20 1);
                   Store 7 (mkLevel "B" 30 2); Discard 7 "A";
                   Store 7 (mkLevel "A" 40 4)]) [] 0 0)
              [Store 7 (mkLevel "B" 10 0); Store 7 (mkLevel "A" 20 1);
               Store 7 (mkLevel "B" 30 2); Discard 7 "A";
               Store 7 (mkLevel "A" 40 4)] (steady_calm 120) eq_refl)
    as (w' & m & E & Hin & Hm & _).
  exists w', m. repeat split; assumption.
Defined.

(** One turn of the loop of [list_levels_command], in any environment: it
    writes nothing and records its lookup. *)
Lemma list_row_world env sl rows w :
  exists rows',
    list_row env sl rows w =
      (Ok rows',
       mkWorld (apply_mutations (user_levels w) (during env (awaits w)))
               (trace w ++ [Lookup (fst sl)]) (S (awaits w)) (S (lookups w))).
Proof.
  destruct sl as [sym level]. unfold list_row. unfold_py.
  cbn [user_levels trace awaits lookups fst]. eexists. reflexivity.
Qed.

(** C9, where the code fails it: the loop of [list_levels_command] walks the
    live sub-map of the user.  When the sub-map has another size after the
    await of the first price than it had when the loop began (a scan or a
    [/remove] has deleted a level of the user meanwhile, or an [/add] has
    stored a new one), the next step of the loop raises RuntimeError: the
    command has looked up one price, answers nothing and raises, in every
    environment. *)
Theorem list_levels_command_live_dict (env : environment) (u : Z)
    (x : string * TargetLevel) (d d' : levels) (w : world) :
  Dict.get (user_levels w) u = Some (x :: d) ->
  Dict.get (apply_mutations (user_levels w) (during env (awaits w))) u = Some d' ->
  List.length d' <> List.length (x :: d) ->
  list_levels_command env u w =
    (Raise RuntimeError,
     mkWorld (apply_mutations (user_levels w) (during env (awaits w)))
             (trace w ++ [Lookup (fst x)]) (S (awaits w)) (S (lookups w))).
Proof.
  intros Hd Hd' Hlen.
  unfold list_levels_command, bind at 1, get_levels at 1. cbv beta iota.
  rewrite Hd. unfold for_items, bind at 1, bind at 1.
  rewrite (levels_of_run u (x :: d) w Hd).
  cbn [iterate List.length]. unfold bind at 1.
  rewrite (levels_of_run u (x :: d) w Hd).
  cbn [List.length]. rewrite Nat.eqb_refl, Nat.sub_diag. cbn [negb nth_error].
  destruct (list_row_world env x [] w) as [rows' E].
  unfold bind at 1. rewrite E.
  set (w1 := mkWorld _ _ _ _).
  assert (Hd1 : Dict.get (user_levels w1) u = Some d') by exact Hd'.
  assert (Hne : negb (Nat.eqb (List.length d') (S (List.length d))) = true).
  { apply negb_true_iff, Nat.eqb_neq. exact Hlen. }
  destruct (List.length d) as [|r] eqn:Hr; cbn [iterate]; unfold bind at 1;
    rewrite (levels_of_run u d' w1 Hd1), Hne; reflexivity.
Qed.

Lemma list_levels_command_live_dict_witness :
  list_levels_command (racing 120 7 "SYM" 0) 7 raced =
    (Raise RuntimeError,
     mkWorld (apply_mutations (user_levels raced)
                (during (racing 120 7 "SYM" 0) (awaits raced)))
             (trace raced ++ [Lookup (fst ("SYM"%string, mkLevel "SYM" 100 0))])
             (S (awaits raced)) (S (lookups raced))).
Proof.
  apply (list_levels_command_live_dict (racing 120 7 "SYM" 0) 7
           ("SYM"%string, mkLevel "SYM" 100 0) [] [] raced eq_refl eq_refl).
  discriminate.
Defined.

(** The same run, evaluated: user 7 asks for the list of the one level on SYM
    while that level is deleted; the command raises, the trace holds no
    reply, and the registry holds the emptied sub-map. *)
Example list_levels_command_while_deleted :
  list_levels_command (racing 120 7 "SYM" 0) 7 raced
  = (Raise RuntimeError, mkWorld [(7%Z, [])] [Lookup "SYM"] 1 1).
Proof. reflexivity. Qed.

(** * More about the commands *)

(** ** [remove_level_command] *)

(** X1: a [/remove] that finds nothing to remove answers so and leaves the
    registry exactly as it was: for a user the registry does not know and for
    a user without levels it answers that there are no levels to remove,
    whatever the arguments (unlike [/add] it makes no sub-map for a new
    user); for a user with levels and a symbol the user has no level for, it
    answers that there is no active level for that symbol, in upper case. *)
Theorem remove_level_command_finds_nothing (env : environment) (u : Z)
    (args : list string) (w : world) :
  calm env ->
  (Dict.get (user_levels w) u = None \/ Dict.get (user_levels w) u = Some [] ->
   remove_level_command env u args w =
     (Ok tt, mkWorld (user_levels w) (trace w ++ [Reply u NoLevelsToRemove])
                     (S (awaits w)) (lookups w))) /\
  (forall a rest d,
     args = a :: rest ->
     Dict.get (user_levels w) u = Some d ->
     d <> [] ->
     Dict.get d (upper a) = None ->
     remove_level_command env u args w =
       (Ok tt,
        mkWorld (user_levels w) (trace w ++ [Reply u (NoActiveLevelFor (upper a))])
                (S (awaits w)) (lookups w))).
Proof.
  intros C. split.
  - intros H. unfold remove_level_command, bind at 1, get_levels. cbv beta iota.
    destruct H as [-> | ->]; now apply reply_text_calm.
  - intros a rest d -> Hd Hne Hl.
    unfold remove_level_command, bind at 1, get_levels. cbv beta iota.
    rewrite Hd. destruct d as [|sl d]; [contradiction|].
    rewrite Hl. unfold try_except. now rewrite reply_text_calm.
Qed.

Lemma remove_level_command_finds_nothing_witness :
  remove_level_command (steady 120) 8 ["SYM"]%string raced =
    (Ok tt, mkWorld (user_levels raced) (trace raced ++ [Reply 8 NoLevelsToRemove])
                    (S (awaits raced)) (lookups raced)) /\
  remove_level_command (steady 120) 7 ["eth"]%string raced =
    (Ok tt,
     mkWorld (user_levels raced)
             (trace raced ++ [Reply 7 (NoActiveLevelFor (upper "eth"))])
             (S (awaits raced)) (lookups raced)).
Proof.
  destruct (remove_level_command_finds_nothing (steady 120) 8 ["SYM"]%string raced
              (steady_calm 120)) as [H1 _].
  destruct (remove_level_command_finds_nothing (steady 120) 7 ["eth"]%string raced
              (steady_calm 120)) as [_ H2].
  split.
  - apply H1. now left.
  - apply (H2 "eth"%string [] [("SYM"%string, mkLevel "SYM" 100 0)]);
      [reflexivity | reflexivity | discriminate | reflexivity].
Defined.

(** [/remove] without a symbol. *)
Lemma remove_level_command_select env u d w :
  calm env ->
  Dict.get (user_levels w) u = Some d ->
  d <> [] ->
  remove_level_command env u [] w =
    (Ok tt,
     mkWorld (user_levels w)
             (trace w ++ [Reply u (SelectLevel
                                     (map (fun sl => (fst sl, target_price (snd sl))) d))])
             (S (awaits w)) (lookups w)).
Proof.
  intros C Hd Hne. unfold remove_level_command, bind at 1, get_levels.
  cbv beta iota. rewrite Hd. destruct d as [|sl d]; [contradiction|].
  unfold try_except. now rewrite reply_text_calm.
Qed.

(** X2: [/remove] without a symbol shows, before the button that cancels,
    one button per level of the user, in the order of the sub-map, each with
    the symbol and the target price of its level; it removes nothing. *)
Theorem remove_level_command_keyboard (env : environment) (u : Z)
    (d : levels) (w : world) :
  calm env ->
  Dict.get (user_levels w) u = Some d ->
  d <> [] ->
  exists w' buttons,
    remove_level_command env u [] w = (Ok tt, w') /\
    since w w' = [Reply u (SelectLevel buttons)] /\
    user_levels w' = user_levels w /\
    map fst buttons = Dict.keys d /\
    (forall j k p, nth_error buttons j = Some (k, p) ->
       exists l, nth_error d j = Some (k, l) /\ p = target_price l) /\
    (forall k l, Dict.get d k = Some l -> In (k, target_price l) buttons).
Proof.
  intros C Hd Hne.
  exists (mkWorld (user_levels w)
            (trace w ++ [Reply u (SelectLevel
                                    (map (fun sl => (fst sl, target_price (snd sl))) d))])
            (S (awaits w)) (lookups w)),
         (map (fun sl => (fst sl, target_price (snd sl))) d).
  split; [now apply remove_level_command_select|].
  split; [now apply since_app|]. split; [reflexivity|]. split; [|split].
  - unfold Dict.keys. rewrite map_map. reflexivity.
  - intros j k p Hj. rewrite nth_error_map in Hj.
    destruct (nth_error d j) as [[k' l]|]; [|discriminate].
    injection Hj as <- <-. now exists l.
  - intros k l Hl. apply get_in in Hl.
    change (k, target_price l)
      with ((fun sl : string * TargetLevel => (fst sl, target_price (snd sl))) (k, l)).
    now apply in_map.
Qed.

Lemma remove_level_command_keyboard_witness :
  exists w' buttons,
    remove_level_command (steady 120) 7 [] raced = (Ok tt, w') /\
    since raced w' = [Reply 7 (SelectLevel buttons)] /\
    user_levels w' = user_levels raced /\
    map fst buttons = Dict.keys [("SYM"%string, mkLevel "SYM" 100 0)] /\
    (forall j k p, nth_error buttons j = Some (k, p) ->
       exists l, nth_error [("SYM"%string, mkLevel "SYM" 100 0)] j = Some (k, l) /\
                 p = target_price l) /\
    (forall k l, Dict.get [("SYM"%string, mkLevel "SYM" 100 0)] k = Some l ->
       In (k, target_price l) buttons).
Proof.
  apply (remove_level_command_keyboard (steady 120) 7
           [("SYM"%string, mkLevel "SYM" 100 0)] raced (steady_calm 120) eq_refl).
  discriminate.
Defined.

(** ** What a delete leaves *)

Lemma without_items_other (u u0 : Z) (k : string) (d : levels) :
  u0 <> u ->
  without u k (map (fun sl => (u0, fst sl, snd sl)) d)
  = map (fun sl => (u0, fst sl, snd sl)) d.
Proof.
  intros Hne. unfold without. induction d as [|[s0 l0] d IH]; simpl; [reflexivity|].
  destruct (Z.eqb_spec u0 u) as [E|_]; [contradiction|]. simpl. now rewrite IH.
Qed.

Lemma without_items_absent (u : Z) (k : string) (d : levels) :
  ~ In k (Dict.keys d) ->
  without u k (map (fun sl => (u, fst sl, snd sl)) d)
  = map (fun sl => (u, fst sl, snd sl)) d.
Proof.
  unfold without. induction d as [|[s0 l0] d IH]; simpl; intros Hn; [reflexivity|].
  rewrite Z.eqb_refl. destruct (String.eqb_spec s0 k) as [->|_]; [tauto|].
  simpl. rewrite IH; [reflexivity | tauto].
Qed.

Lemma without_items (u : Z) (k : string) (d : levels) :
  Dict.wf d ->
  without u k (map (fun sl => (u, fst sl, snd sl)) d)
  = map (fun sl => (u, fst sl, snd sl)) (Dict.remove d k).
Proof.
  unfold Dict.wf, Dict.keys. induction d as [|[s0 l0] d IH]; intros Hnd; [reflexivity|].
  simpl in Hnd. inversion Hnd as [|? ? Hnotin Hnd']; subst.
  cbn [map Dict.remove fst snd]. unfold without in *. cbn [filter fst snd].
  rewrite Z.eqb_refl. simpl keqb. rewrite (String.eqb_sym k s0).
  destruct (String.eqb_spec s0 k) as [->|Hne]; simpl.
  - now apply (without_items_absent u k d).
  - now rewrite IH.
Qed.

Lemma without_absent_user reg u k :
  ~ In u (Dict.keys reg) -> without u k (entries reg) = entries reg.
Proof.
  induction reg as [|[u0 d0] reg IH]; intros Hn; [reflexivity|].
  rewrite entries_cons. unfold without in *. rewrite filter_app.
  simpl in Hn. fold (without u k (map (fun sl => (u0, fst sl, snd sl)) d0)).
  rewrite without_items_other by tauto. rewrite IH by tauto. reflexivity.
Qed.

(** The entries after the delete of one key. *)
Lemma entries_discard reg u d k :
  wf_registry reg ->
  Dict.get reg u = Some d ->
  entries (Dict.set reg u (Dict.remove d k)) = without u k (entries reg).
Proof.
  induction reg as [|[u0 d0] reg IH]; intros W Hd; [discriminate|].
  destruct (wf_registry_cons _ _ _ W) as (Hu0 & Wd0 & Kd0 & W').
  simpl in Hd. cbn [Dict.set]. simpl keqb in *.
  destruct (Z.eqb_spec u u0) as [->|Hne].
  - injection Hd as <-. rewrite !entries_cons. unfold without. rewrite filter_app.
    fold (without u0 k (map (fun sl => (u0, fst sl, snd sl)) d0)).
    fold (without u0 k (entries reg)).
    now rewrite without_items, without_absent_user.
  - rewrite !entries_cons. unfold without. rewrite filter_app.
    fold (without u k (map (fun sl => (u0, fst sl, snd sl)) d0)).
    fold (without u k (entries reg)).
    rewrite without_items_other by congruence. now rewrite IH.
Qed.

(** X3: a [/remove] of a symbol the user has a level for takes that one entry
    out and nothing else: the other entries of all users stay, in their
    order. *)
Theorem remove_level_command_takes_one (env : environment) (u : Z)
    (s : string) (rest : list string) (l : TargetLevel) (w : world) :
  calm env ->
  wf_registry (user_levels w) ->
  level_of (user_levels w) u (upper s) = Some l ->
  exists w',
    remove_level_command env u (s :: rest) w = (Ok tt, w') /\
    entries (user_levels w') = without u (upper s) (entries (user_levels w)) /\
    Dict.keys (user_levels w') = Dict.keys (user_levels w) /\
    List.length (entries (user_levels w')) + 1
      = List.length (entries (user_levels w)).
Proof.
  intros C W Hl. unfold level_of in Hl.
  destruct (Dict.get (user_levels w) u) as [d|] eqn:Hd; [|discriminate].
  eexists. split; [apply (remove_level_command_pops env u s rest d l w C Hd Hl)|].
  cbn [user_levels].
  assert (E : entries (Dict.set (user_levels w) u (Dict.remove d (upper s)))
              = without u (upper s) (entries (user_levels w))).
  { now apply entries_discard. }
  split; [exact E|]. split.
  - apply keys_set_present. unfold Dict.mem. now rewrite Hd.
  - rewrite E. unfold without.
    pose proof (count_symbol_wf (user_levels w) u (upper s) W) as Hc.
    unfold level_of in Hc. rewrite Hd, Hl in Hc. unfold count_symbol in Hc.
    pose proof (filter_length
                  (fun e : Z * string * TargetLevel =>
                     (fst (fst e) =? u)%Z && (snd (fst e) =? upper s)%string)
                  (entries (user_levels w))) as Hf.
    rewrite Hc in Hf. lia.
Qed.

Lemma remove_level_command_takes_one_witness :
  exists w',
    remove_level_command (steady 120) 7 ["sym"]%string raced = (Ok tt, w') /\
    entries (user_levels w') = without 7 (upper "sym") (entries (user_levels raced)) /\
    Dict.keys (user_levels w') = Dict.keys (user_levels raced) /\
    List.length (entries (user_levels w')) + 1
      = List.length (entries (user_levels raced)).
Proof.
  apply (remove_level_command_takes_one (steady 120) 7 "sym" []
           (mkLevel "SYM" 100 0) raced (steady_calm 120) raced_wf eq_refl).
Defined.

(** ** [add_level_command] *)

Section MoreDictFacts.
Context {K V : Type} `{EqKey K}.
Implicit Types (d : Dict.t K V) (k : K) (v : V).

Lemma set_get_same d k v : Dict.get d k = Some v -> Dict.set d k v = d.
Proof.
  induction d as [|[k0 v0] d IH]; simpl; [discriminate|].
  destruct (keqb_case k k0) as [[-> E]|[Hne E]]; rewrite E.
  - now intros [= ->].
  - intros Hg. now rewrite IH.
Qed.

Lemma set_set_same d k v v' : Dict.set (Dict.set d k v) k v' = Dict.set d k v'.
Proof.
  induction d as [|[k0 v0] d IH]; simpl.
  - now rewrite keqb_refl.
  - destruct (keqb k k0) eqn:E; simpl; rewrite E; [reflexivity | now rewrite IH].
Qed.

Lemma remove_set_absent d k v :
  Dict.get d k = None -> Dict.remove (Dict.set d k v) k = d.
Proof.
  induction d as [|[k0 v0] d IH]; simpl.
  - now rewrite keqb_refl.
  - destruct (keqb k k0) eqn:E; [discriminate|]. simpl. rewrite E.
    intros Hg. now rewrite IH.
Qed.

Lemma keys_set d k v :
  Dict.keys (Dict.set d k v)
  = if Dict.mem d k then Dict.keys d else Dict.keys d ++ [k].
Proof.
  destruct (Dict.mem d k) eqn:Hm.
  - now apply keys_set_present.
  - apply mem_false_get in Hm. rewrite (set_absent d k v Hm).
    unfold Dict.keys. now rewrite map_app.
Qed.
Lemma get_split d k v :
  Dict.get d k = Some v ->
  exists pre post,
    d = pre ++ (k, v) :: post /\ ~ In k (Dict.keys pre) /\
    forall v', Dict.set d k v' = pre ++ (k, v') :: post.
Proof.
  induction d as [|[k0 v0] d IH]; simpl; [discriminate|].
  destruct (keqb_case k k0) as [[-> E]|[Hne E]]; rewrite E.
  - intros [= ->]. exists [], d. split; [reflexivity|]. split; [tauto|].
    reflexivity.
  - intros Hg. destruct (IH Hg) as (pre & post & Hd & Hpre & Hset).
    exists ((k0, v0) :: pre), post. split; [now rewrite Hd|]. split.
    + simpl. intros [Heq|Hin]; [now apply Hne | now apply Hpre].
    + intros v'. now rewrite Hset.
Qed.
End MoreDictFacts.

Lemma mem_touch reg u : Dict.mem (touch reg u) u = true.
Proof.
  destruct (get_touch_same reg u) as (d & Hd & _). unfold Dict.mem. now rewrite Hd.
Qed.

(** X4: [/add] with another number of arguments than two answers with the
    usage text: it asks no price and stores no level.  (It has by then made
    the empty sub-map of a user the registry did not know.) *)
Theorem add_level_command_arity (py_float : string -> option float)
    (env : environment) (u : Z) (args : list string) (w : world) :
  calm env ->
  List.length args <> 2 ->
  add_level_command py_float env u args w =
    (Ok tt, mkWorld (touch (user_levels w) u) (trace w ++ [Reply u InvalidFormat])
                    (S (awaits w)) (lookups w)) /\
  entries (touch (user_levels w) u) = entries (user_levels w) /\
  looked (since w (snd (add_level_command py_float env u args w))) = [].
Proof.
  intros C Hlen.
  assert (E : add_level_command py_float env u args w =
    (Ok tt, mkWorld (touch (user_levels w) u) (trace w ++ [Reply u InvalidFormat])
                    (S (awaits w)) (lookups w))).
  { destruct args as [|a [|b [|c rest]]]; try (simpl in Hlen; lia);
      calm_run C; reflexivity. }
  split; [exact E|]. split; [apply entries_touch|].
  rewrite E. cbn [snd]. erewrite since_app by (cbn [trace]; reflexivity).
  reflexivity.
Qed.

Lemma add_level_command_arity_witness :
  add_level_command float_of_token (steady 120) 7 ["SYM"]%string fresh =
    (Ok tt, mkWorld (touch (user_levels fresh) 7) (trace fresh ++ [Reply 7 InvalidFormat])
                    (S (awaits fresh)) (lookups fresh)) /\
  entries (touch (user_levels fresh) 7) = entries (user_levels fresh) /\
  looked (since fresh
            (snd (add_level_command float_of_token (steady 120) 7 ["SYM"]%string fresh)))
    = [].
Proof.
  apply (add_level_command_arity float_of_token (steady 120) 7 ["SYM"]%string fresh
           (steady_calm 120)).
  simpl. lia.
Defined.

(** X5: where [/add] stores, the registry after the command is the registry
    before it with one item put in its place: an update puts the new level
    where the old level of the symbol was, between the same levels before
    and after it; a new symbol goes after the last level of the user; and a
    user the registry did not know goes after the last user, with the new
    level alone.  No other sub-map and no other level changes. *)
Theorem add_level_command_place (py_float : string -> option float)
    (env : environment) (u : Z) (a0 a1 : string) (target p : float) (w : world) :
  calm env ->
  py_float a1 = Some target ->
  prices env (lookups w) (upper a0) = Some p ->
  exists w' created,
    add_level_command py_float env u [a0; a1] w = (Ok tt, w') /\
    match Dict.get (user_levels w) u with
    | None =>
        user_levels w'
          = user_levels w ++ [(u, [(upper a0, mkLevel (upper a0) target created)])]
    | Some d =>
        exists regL regR,
          user_levels w = regL ++ (u, d) :: regR /\
          ~ In u (Dict.keys regL) /\
          match Dict.get d (upper a0) with
          | None =>
              user_levels w'
                = regL ++ (u, d ++ [(upper a0, mkLevel (upper a0) target created)])
                            :: regR
          | Some old =>
              exists pre post,
                d = pre ++ (upper a0, old) :: post /\
                ~ In (upper a0) (Dict.keys pre) /\
                user_levels w'
                  = regL ++ (u, pre ++ (upper a0, mkLevel (upper a0) target created)
                                           :: post) :: regR
          end
    end.
Proof.
  intros C Hf Hp.
  destruct (add_level_command_stores py_float env u a0 a1 target p w C Hf Hp)
    as (w' & d' & created & E & Hd' & Hreg & _ & _).
  exists w', created. split; [exact E|].
  rewrite Hreg. clear E Hreg. revert Hd'. unfold touch, Dict.mem.
  destruct (Dict.get (user_levels w) u) as [d|] eqn:Hd.
  - (* a user of the registry *)
    rewrite Hd. intros [= <-].
    destruct (get_split (user_levels w) u d Hd) as (regL & regR & Hw & HL & Hset).
    exists regL, regR. split; [exact Hw|]. split; [exact HL|].
    rewrite Hset.
    destruct (Dict.get d (upper a0)) as [old|] eqn:Hold.
    + destruct (get_split d (upper a0) old Hold) as (pre & post & Hdd & Hpre & Hs).
      exists pre, post. split; [exact Hdd|]. split; [exact Hpre|]. now rewrite Hs.
    + now rewrite (set_absent d (upper a0) _ Hold).
  - (* a new user *)
    rewrite (set_absent (user_levels w) u [] Hd).
    pose proof (proj1 (get_none_iff (user_levels w) u) Hd) as Hnot.
    rewrite (get_app_skip (user_levels w) [(u, [])] u Hnot). simpl.
    rewrite Z.eqb_refl. intros [= <-].
    rewrite (set_app_skip (user_levels w) [(u, [])] u _ Hnot). simpl.
    now rewrite Z.eqb_refl.
Qed.

Lemma add_level_command_place_witness :
  exists w' created,
    add_level_command float_of_token (steady 120) 7 ["sym"; "90"]%string raced
      = (Ok tt, w') /\
    match Dict.get (user_levels raced) 7%Z with
    | None =>
        user_levels w'
          = user_levels raced
              ++ [(7%Z, [(upper "sym", mkLevel (upper "sym") 90 created)])]
    | Some d =>
        exists regL regR,
          user_levels raced = regL ++ (7%Z, d) :: regR /\
          ~ In 7%Z (Dict.keys regL) /\
          match Dict.get d (upper "sym") with
          | None =>
              user_levels w'
                = regL ++ (7%Z, d ++ [(upper "sym", mkLevel (upper "sym") 90 created)])
                            :: regR
          | Some old =>
              exists pre post,
                d = pre ++ (upper "sym", old) :: post /\
                ~ In (upper "sym") (Dict.keys pre) /\
                user_levels w'
                  = regL ++ (7%Z, pre ++ (upper "sym", mkLevel (upper "sym") 90 created)
                                             :: post) :: regR
          end
    end.
Proof.
  apply (add_level_command_place float_of_token (steady 120) 7 "sym" "90" 90 120
           raced (steady_calm 120)); reflexivity.
Defined.

(** X6: when the source quotes a new symbol at 0.0, [/add] stores the level
    and then fails on the distance to the current price, a division by that
    price: the user is told that an error occurred, although the level is
    being monitored. *)
Theorem add_level_command_zero_price (py_float : string -> option float)
    (env : environment) (u : Z) (a0 a1 : string) (target p : float) (w : world) :
  calm env ->
  py_float a1 = Some target ->
  prices env (lookups w) (upper a0) = Some p ->
  (p =? 0)%float = true ->
  level_of (user_levels w) u (upper a0) = None ->
  exists w' created,
    add_level_command py_float env u [a0; a1] w = (Ok tt, w') /\
    level_of (user_levels w') u (upper a0)
      = Some (mkLevel (upper a0) target created) /\
    since w w'
      = Lookup (upper a0)
        :: (if (p <=? target)%float then [Reply u (WarningAboveCurrent target p)]
            else [])
        ++ [Log (Failed InAdd ZeroDivisionError); Reply u ErrorTryAgain].
Proof.
  intros C Hf Hp Hz Hnew.
  destruct (add_level_command_level py_float env u a0 a1 target p w C Hf Hp)
    as (w' & created & E & Hl & _ & Hs & _).
  exists w', created. split; [exact E|]. split; [exact Hl|].
  rewrite Hs. unfold add_report. now rewrite Hnew, Hz.
Qed.

Lemma add_level_command_zero_price_witness :
  exists w' created,
    add_level_command float_of_token (steady 0) 7 ["sym"; "100"]%string fresh
      = (Ok tt, w') /\
    level_of (user_levels w') 7 (upper "sym")
      = Some (mkLevel (upper "sym") 100 created) /\
    since fresh w'
      = Lookup (upper "sym")
        :: (if (0 <=? 100)%float then [Reply 7 (WarningAboveCurrent 100 0)]
            else [])
        ++ [Log (Failed InAdd ZeroDivisionError); Reply 7 ErrorTryAgain].
Proof.
  apply (add_level_command_zero_price float_of_token (steady 0) 7 "sym" "100" 100 0
           fresh (steady_calm 0)); reflexivity.
Defined.

(** The level that [/add] stores carries the time of the clock after the
    lookup and the warning. *)
Lemma add_level_command_created py_float env u a0 a1 target p w :
  calm env ->
  py_float a1 = Some target ->
  prices env (lookups w) (upper a0) = Some p ->
  exists w',
    add_level_command py_float env u [a0; a1] w = (Ok tt, w') /\
    level_of (user_levels w') u (upper a0)
      = Some (mkLevel (upper a0) target
                (now env (if (p <=? target)%float then S (S (awaits w))
                          else S (awaits w)))).
Proof.
  intros C Hf Hp.
  destruct (get_touch_same (user_levels w) u) as (d & Hd & _).
  pose proof (fun n => proj1 (C n)) as Cq.
  pose proof (fun n => proj2 (C n)) as Cd.
  exists (snd (add_level_command py_float env u [a0; a1] w)).
  unfold_py.
  rewrite Hf. unfold_py. cbn [user_levels trace awaits lookups].
  rewrite !Cq, ?Cd. cbn [apply_mutations fold_left]. rewrite Hp.
  destruct (p <=? target)%float; cbn [user_levels trace awaits lookups];
    rewrite ?Cq, ?Cd; cbn [apply_mutations fold_left user_levels trace awaits lookups];
    rewrite Hd; destruct (Dict.get d (upper a0)) as [old|];
    try destruct (p =? 0)%float;
    cbn [user_levels trace awaits lookups];
    rewrite ?Cq, ?Cd; cbn [apply_mutations fold_left user_levels trace awaits lookups snd];
    (split; [reflexivity|]); rewrite level_of_set_same; apply get_set_same.
Qed.

(** X7: an update replaces the whole level, the time of creation too: after
    an [/add] for a symbol the user has a level for, the level stored for
    the symbol is the new one, with the symbol in upper case, the target
    given, and the time of this command as its time of creation (the clock
    read after the lookup and the warning), whatever the old level held; the
    answer names the old target. *)
Theorem add_level_command_restamps (py_float : string -> option float)
    (env : environment) (u : Z) (a0 a1 : string) (target p : float)
    (old : TargetLevel) (w : world) :
  calm env ->
  py_float a1 = Some target ->
  prices env (lookups w) (upper a0) = Some p ->
  level_of (user_levels w) u (upper a0) = Some old ->
  exists w',
    add_level_command py_float env u [a0; a1] w = (Ok tt, w') /\
    level_of (user_levels w') u (upper a0)
      = Some (mkLevel (upper a0) target
                (now env (if (p <=? target)%float then S (S (awaits w))
                          else S (awaits w)))) /\
    since w w'
      = Lookup (upper a0)
        :: (if (p <=? target)%float then [Reply u (WarningAboveCurrent target p)]
            else [])
        ++ [Reply u (LevelUpdated (upper a0) (target_price old) target p)].
Proof.
  intros C Hf Hp Hold.
  destruct (add_level_command_created py_float env u a0 a1 target p w C Hf Hp)
    as (w' & E & Hl).
  destruct (add_level_command_level py_float env u a0 a1 target p w C Hf Hp)
    as (w2 & created & E2 & _ & _ & Hs & _).
  rewrite E in E2. injection E2 as <-.
  exists w'. split; [exact E|]. split; [exact Hl|].
  rewrite Hs. unfold add_report. now rewrite Hold.
Qed.

Lemma add_level_command_restamps_witness :
  exists w',
    add_level_command float_of_token (steady 120) 7 ["sym"; "90"]%string
      (mkWorld (user_levels raced) [] 5 0) = (Ok tt, w') /\
    level_of (user_levels w') 7 (upper "sym")
      = Some (mkLevel (upper "sym") 90
                (now (steady 120) (if (120 <=? 90)%float then 7 else 6))) /\
    since (mkWorld (user_levels raced) [] 5 0) w'
      = Lookup (upper "sym")
        :: (if (120 <=? 90)%float then [Reply 7 (WarningAboveCurrent 90 120)]
            else [])
        ++ [Reply 7 (LevelUpdated (upper "sym") (target_price (mkLevel "SYM" 100 0))
                       90 120)].
Proof.
  apply (add_level_command_restamps float_of_token (steady 120) 7 "sym" "90" 90 120
           (mkLevel "SYM" 100 0) (mkWorld (user_levels raced) [] 5 0)
           (steady_calm 120)); reflexivity.
Defined.

(** X8: [/add] of a symbol the user has no level for, followed by [/remove]
    of that symbol, leaves the registry as the first command found it, but
    for the empty sub-map of a user it did not know. *)
Theorem add_then_remove (py_float : string -> option float)
    (env : environment) (u : Z) (a0 a1 : string) (rest : list string)
    (target p : float) (w : world) :
  calm env ->
  py_float a1 = Some target ->
  prices env (lookups w) (upper a0) = Some p ->
  level_of (user_levels w) u (upper a0) = None ->
  exists w1 w2,
    add_level_command py_float env u [a0; a1] w = (Ok tt, w1) /\
    remove_level_command env u (a0 :: rest) w1 = (Ok tt, w2) /\
    user_levels w2 = touch (user_levels w) u /\
    entries (user_levels w2) = entries (user_levels w) /\
    In (Reply u (LevelRemoved (upper a0) target)) (since w1 w2).
Proof.
  intros C Hf Hp Hnew.
  destruct (add_level_command_stores py_float env u a0 a1 target p w C Hf Hp)
    as (w1 & d & created & E1 & Hd & Hreg & _ & _).
  destruct (get_touch_same (user_levels w) u) as (d' & Hd' & Hlev).
  rewrite Hd in Hd'. injection Hd' as <-.
  assert (Hg1 : Dict.get (user_levels w1) u
                = Some (Dict.set d (upper a0) (mkLevel (upper a0) target created))).
  { rewrite Hreg. apply get_set_same. }
  eexists w1, _. split; [exact E1|]. split.
  - apply (remove_level_command_pops env u a0 rest _
             (mkLevel (upper a0) target created) w1 C Hg1).
    apply get_set_same.
  - cbn [user_levels]. 
    assert (R : Dict.set (user_levels w1) u
                  (Dict.remove (Dict.set d (upper a0) (mkLevel (upper a0) target created))
                     (upper a0))
                = touch (user_levels w) u).
    { rewrite remove_set_absent by (rewrite Hlev; exact Hnew).
      rewrite Hreg, set_set_same. now apply set_get_same. }
    split; [exact R|]. split; [rewrite R; apply entries_touch|].
    erewrite since_app by (cbn [trace]; reflexivity). now left.
Qed.

Lemma add_then_remove_witness :
  exists w1 w2,
    add_level_command float_of_token (steady 120) 7 ["eth"; "90"]%string raced
      = (Ok tt, w1) /\
    remove_level_command (steady 120) 7 ["eth"]%string w1 = (Ok tt, w2) /\
    user_levels w2 = touch (user_levels raced) 7 /\
    entries (user_levels w2) = entries (user_levels raced) /\
    In (Reply 7 (LevelRemoved (upper "eth") 90)) (since w1 w2).
Proof.
  apply (add_then_remove float_of_token (steady 120) 7 "eth" "90" [] 90 120 raced
           (steady_calm 120)); reflexivity.
Defined.

(** ** [list_levels_command] *)

(** One turn of the loop, in any environment. *)
Lemma list_row_run env sl rows w :
  list_row env sl rows w =
    (Ok (rows ++ [row_of (S (List.length rows)) sl (prices env (lookups w) (fst sl))]),
     mkWorld (apply_mutations (user_levels w) (during env (awaits w)))
             (trace w ++ [Lookup (fst sl)]) (S (awaits w)) (S (lookups w))).
Proof.
  destruct sl as [sym level]. unfold list_row, row_of. unfold_py.
  cbn [user_levels trace awaits lookups fst snd].
  destruct (prices env (lookups w) sym) as [p|]; [|reflexivity].
  destruct (p =? 0)%float; [reflexivity|].
  now destruct (p <=? target_price level)%float.
Qed.

Lemma rows_of_length env d : forall k i, List.length (rows_of env k i d) = List.length d.
Proof. induction d as [|sl d IH]; intros k i; simpl; [reflexivity | now rewrite IH]. Qed.

(** The loop of [list_levels_command] where no other coroutine writes. *)
Lemma list_rows_closed env u d : forall rest done rows w,
  quiet env ->
  Dict.get (user_levels w) u = Some d ->
  d = done ++ rest ->
  iterate (levels_of u) (List.length d) (List.length rest) (list_row env) rows w
    = (Ok (rows ++ rows_of env (lookups w) (S (List.length rows)) rest),
       mkWorld (user_levels w) (trace w ++ map Lookup (Dict.keys rest))
               (awaits w + List.length rest) (lookups w + List.length rest)).
Proof.
  induction rest as [|x rest IH]; intros done rows w Q Hd Hsplit.
  - cbn [iterate List.length]. unfold bind. rewrite (levels_of_run u d w Hd).
    rewrite Nat.eqb_refl. cbn [negb]. unfold ret. simpl.
    rewrite !app_nil_r, !Nat.add_0_r. now destruct w.
  - cbn [iterate List.length]. unfold bind at 1. rewrite (levels_of_run u d w Hd).
    rewrite Nat.eqb_refl. cbn [negb].
    assert (Hpos : List.length d - S (List.length rest) = List.length done).
    { rewrite Hsplit, length_app. simpl. lia. }
    rewrite Hpos.
    replace (nth_error d (List.length done)) with (Some x)
      by (rewrite Hsplit, nth_error_app2, Nat.sub_diag by lia; reflexivity).
    unfold bind at 1. rewrite list_row_run, (Q (awaits w)).
    cbn [apply_mutations fold_left].
    assert (Hsplit1 : d = (done ++ [x]) ++ rest) by now rewrite <- app_assoc.
    set (w1 := mkWorld _ _ _ _).
    rewrite (IH (done ++ [x]) _ w1 Q Hd Hsplit1). subst w1.
    cbn [user_levels trace awaits lookups].
    rewrite length_app. cbn [List.length rows_of Dict.keys map].
    rewrite <- !app_assoc. cbn [app].
    replace (List.length rows + 1) with (S (List.length rows)) by lia.
    rewrite !Nat.add_succ_r. reflexivity.
Qed.

Lemma rows_of_at env d : forall k i j sl,
  nth_error d j = Some sl ->
  nth_error (rows_of env k i d) j
  = Some (row_of (i + j) sl (prices env (k + j) (fst sl))).
Proof.
  induction d as [|sl0 d IH]; intros k i j sl; [now destruct j|].
  destruct j as [|j]; cbn [nth_error rows_of].
  - intros [= <-]. now rewrite !Nat.add_0_r.
  - intros Hn. rewrite (IH (S k) (S i) j sl Hn).
    now replace (i + S j) with (S i + j) by lia;
        replace (k + S j) with (S k + j) by lia.
Qed.

(** X9: [/list], for a user with levels, asks one price per level, in the
    order of the sub-map, and answers with one row per level, in that order
    and numbered from 1, each with the symbol and the level.  A row shows no
    price and an unknown state when the source gave no price or the price
    0.0; for any other price it shows the price, and says that the level
    should have triggered when the price is at or below the target and that
    it is monitored when it is not.  The registry is as before. *)
Theorem list_levels_command_rows (env : environment) (u : Z) (d : levels)
    (w : world) :
  calm env ->
  Dict.get (user_levels w) u = Some d ->
  d <> [] ->
  exists rows,
    list_levels_command env u w =
      (Ok tt,
       mkWorld (user_levels w)
         (trace w ++ map Lookup (Dict.keys d) ++ [Reply u (LevelList rows)])
         (S (awaits w + List.length d)) (lookups w + List.length d)) /\
    List.length rows = List.length d /\
    (forall j s l, nth_error d j = Some (s, l) ->
     exists r,
       nth_error rows j = Some r /\
       row_index r = S j /\ row_symbol r = s /\ row_level r = l /\
       (prices env (lookups w + j) s = None ->
        row_status r = Unknown /\ row_current r = None) /\
       (forall p, prices env (lookups w + j) s = Some p ->
          ((p =? 0)%float = true ->
           row_status r = Unknown /\ row_current r = None) /\
          ((p =? 0)%float = false -> (p <=? target_price l)%float = true ->
           row_status r = ShouldHaveTriggered /\ row_current r = Some p) /\
          ((p =? 0)%float = false -> (p <=? target_price l)%float = false ->
           row_status r = Monitoring /\ row_current r = Some p))).
Proof.
  intros C Hd Hne. pose proof (calm_quiet env C) as Q.
  exists (rows_of env (lookups w) 1 d). split; [|split].
  - unfold list_levels_command, bind at 1, get_levels at 1. cbv beta iota.
    rewrite Hd. destruct d as [|x d]; [contradiction|].
    unfold for_items, bind at 1, bind at 1.
    rewrite (levels_of_run u (x :: d) w Hd).
    rewrite (list_rows_closed env u (x :: d) (x :: d) [] [] w Q Hd eq_refl).
    rewrite reply_text_calm by exact C.
    cbn [user_levels trace awaits lookups app List.length].
    now rewrite <- app_assoc.
  - apply rows_of_length.
  - intros j s l Hj.
    exists (row_of (S j) (s, l) (prices env (lookups w + j) s)).
    split; [exact (rows_of_at env d (lookups w) 1 j (s, l) Hj)|].
    unfold row_of. cbn [fst snd].
    destruct (prices env (lookups w + j) s) as [p|].
    + destruct (p =? 0)%float eqn:Hz; [|destruct (p <=? target_price l)%float eqn:Hle];
        cbn [row_index row_symbol row_level row_status row_current];
        (split; [reflexivity|]); (split; [reflexivity|]); (split; [reflexivity|]);
        (split; [discriminate|]); intros p' [= <-];
        rewrite ?Hz, ?Hle; repeat split; intros; congruence.
    + cbn [row_index row_symbol row_level row_status row_current].
      split; [reflexivity|]. split; [reflexivity|]. split; [reflexivity|].
      split; [now split | discriminate].
Qed.

Lemma list_levels_command_rows_witness :
  exists rows,
    list_levels_command (steady 120) 7 raced =
      (Ok tt,
       mkWorld (user_levels raced)
         (trace raced ++ map Lookup (Dict.keys [("SYM"%string, mkLevel "SYM" 100 0)])
            ++ [Reply 7 (LevelList rows)])
         (S (awaits raced + 1)) (lookups raced + 1)) /\
    List.length rows = 1 /\
    exists r,
      nth_error rows 0 = Some r /\
      row_index r = 1 /\ row_symbol r = "SYM"%string /\
      row_level r = mkLevel "SYM" 100 0 /\
      row_status r = Monitoring /\ row_current r = Some 120%float.
Proof.
  destruct (list_levels_command_rows (steady 120) 7
              [("SYM"%string, mkLevel "SYM" 100 0)] raced (steady_calm 120) eq_refl)
    as (rows & E & Hlen & Hrows); [discriminate|].
  exists rows. split; [exact E|]. split; [exact Hlen|].
  destruct (Hrows 0 "SYM"%string (mkLevel "SYM" 100 0) eq_refl)
    as (r & Hr & Hi & Hs & Hl & _ & Hp).
  exists r. split; [exact Hr|]. split; [exact Hi|]. split; [exact Hs|].
  split; [exact Hl|].
  destruct (Hp 120%float eq_refl) as (_ & _ & Hm). apply Hm; reflexivity.
Defined.

(** X10: a price of 0.0 is no price for [/list], which shows the level with
    an unknown price as it does when the source is unavailable; the scan
    takes the same answer for a price: it alerts when the target is not
    below 0.0, and it counts the check whether it alerts or not. *)
Theorem zero_price_listed_unknown (env : environment) (u : Z) (s : string)
    (l : TargetLevel) (rows : list row) (t : nat) (w : world) (p : float)
    (d : levels) :
  prices env (lookups w) s = Some p ->
  (p =? 0)%float = true ->
  fst (list_row env (s, l) rows w)
    = Ok (rows ++ [mkRow Unknown (S (List.length rows)) s l None]) /\
  ((p <=? target_price l)%float = true ->
   since w (snd (check_level env u (s, l) t w))
     = Lookup s :: Notify u l p :: alert_outcome env (S (awaits w)) u l p) /\
  ((p <=? target_price l)%float = false ->
   check_level env u (s, l) t w =
     (Ok (S t),
      mkWorld (apply_mutations (user_levels w) (during env (awaits w)))
              (trace w ++ [Lookup s]) (S (awaits w)) (S (lookups w)))) /\
  (quiet env ->
   Dict.get (user_levels w) u = Some d ->
   Dict.mem d s = true ->
   fst (check_level env u (s, l) t w) = Ok (S t)).
Proof.
  intros Hp Hz.
  assert (Hpass : (p <=? target_price l)%float = false ->
                  check_level env u (s, l) t w =
                    (Ok (S t),
                     mkWorld (apply_mutations (user_levels w) (during env (awaits w)))
                             (trace w ++ [Lookup s]) (S (awaits w)) (S (lookups w)))).
  { intros Hle.
    assert (F : fires env (lookups w) (s, l) = None).
    { unfold fires. cbn [fst snd]. now rewrite Hp, Hle. }
    rewrite (check_level_passes env u s l t w F). now rewrite Hp. }
  split; [|split; [|split; [exact Hpass|]]].
  - rewrite list_row_run. cbn [fst]. unfold row_of. now rewrite Hp, Hz.
  - intros Hle.
    destruct (check_level_fires_after env u s l t w p Hp Hle) as [Ht _].
    now apply since_app.
  - intros Q Hd Hm. destruct (p <=? target_price l)%float eqn:Hle.
    + now rewrite (check_level_fires_quiet env u s l t w d p Q Hd Hm Hp Hle).
    + now rewrite Hpass.
Qed.

Lemma zero_price_listed_unknown_witness :
  fst (list_row (steady 0) ("SYM"%string, mkLevel "SYM" 100 0) [] raced)
    = Ok ([] ++ [mkRow Unknown 1 "SYM" (mkLevel "SYM" 100 0) None]) /\
  since raced (snd (check_level (steady 0) 7 ("SYM"%string, mkLevel "SYM" 100 0) 0 raced))
    = Lookup "SYM" :: Notify 7 (mkLevel "SYM" 100 0) 0
        :: alert_outcome (steady 0) 1 7 (mkLevel "SYM" 100 0) 0 /\
  fst (check_level (steady 0) 7 ("SYM"%string, mkLevel "SYM" 100 0) 0 raced) = Ok 1.
Proof.
  destruct (zero_price_listed_unknown (steady 0) 7 "SYM" (mkLevel "SYM" 100 0) [] 0
              raced 0%float [("SYM"%string, mkLevel "SYM" 100 0)] eq_refl eq_refl)
    as (H1 & H2 & _ & H4).
  split; [exact H1|]. split; [apply H2; reflexivity|].
  apply H4; [apply steady_quiet | reflexivity | reflexivity].
Defined.

(** The sub-map of a user under writes that delete nothing: its keys stay,
    in their order, before any new key. *)
Lemma submap_apply_mutation reg u d m :
  is_discard m = false ->
  Dict.get reg u = Some d ->
  exists d' ks, Dict.get (apply_mutation reg m) u = Some d' /\
    Dict.keys d' = Dict.keys d ++ ks.
Proof.
  intros Hm Hd.
  assert (T : forall u0, Dict.get (touch reg u0) u = Some d).
  { intros u0. now rewrite get_touch, Hd. }
  destruct m as [u0|u0 l|u0 s]; [| |discriminate]; cbn [apply_mutation].
  - exists d, []. now rewrite app_nil_r.
  - unfold store. destruct (Dict.get (touch reg u0) u0) as [d0|] eqn:Hd0.
    + destruct (Z.eq_dec u0 u) as [->|Hne].
      * rewrite T in Hd0. injection Hd0 as <-.
        rewrite get_set_same. eexists _, _. split; [reflexivity|].
        destruct (Dict.mem d (symbol l)) eqn:Hmem.
        -- rewrite keys_set_present by exact Hmem.
           instantiate (1 := if Dict.mem d (symbol l) then [] else [symbol l]).
           rewrite Hmem. now rewrite app_nil_r.
        -- apply mem_false_get in Hmem. rewrite (set_absent d _ l Hmem).
           unfold Dict.keys. rewrite map_app. unfold Dict.mem. now rewrite Hmem.
      * rewrite get_set_other by exact Hne. exists d, [].
        now rewrite app_nil_r.
    + exists d, []. now rewrite app_nil_r.
Qed.

Lemma submap_apply_mutations ms : forall reg u d,
  forallb (fun m => negb (is_discard m)) ms = true ->
  Dict.get reg u = Some d ->
  exists d' ks, Dict.get (apply_mutations reg ms) u = Some d' /\
    Dict.keys d' = Dict.keys d ++ ks.
Proof.
  unfold apply_mutations.
  induction ms as [|m ms IH]; intros reg u d Hms Hd; cbn [fold_left].
  - exists d, []. now rewrite app_nil_r.
  - cbn [forallb] in Hms. apply andb_prop in Hms. destruct Hms as [Hm Hms].
    apply negb_true_iff in Hm.
    destruct (submap_apply_mutation reg u d m Hm Hd) as (d1 & ks1 & Hd1 & Hk1).
    destruct (IH _ u d1 Hms Hd1) as (d' & ks & Hd' & Hk).
    exists d', (ks1 ++ ks). split; [exact Hd'|]. now rewrite Hk, Hk1, app_assoc.
Qed.

Lemma row_of_symbol i sl price : row_symbol (row_of i sl price) = fst sl.
Proof.
  unfold row_of. destruct price as [p|]; [|reflexivity].
  destruct (p =? 0)%float; [reflexivity|].
  now destruct (p <=? target_price (snd sl))%float.
Qed.

Lemma skipn_nth {X} (l : list X) : forall j x,
  nth_error l j = Some x -> skipn j l = x :: skipn (S j) l.
Proof.
  induction l as [|y l IH]; intros j x; [now destruct j|].
  destruct j as [|j]; cbn [nth_error skipn].
  - now intros [= ->].
  - intros Hn. now rewrite (IH j x Hn).
Qed.

Lemma drift_last env : forall k a reg,
  drift env a (S k) reg = apply_mutations (drift env a k reg) (during env (a + k)).
Proof.
  induction k as [|k IH]; intros a reg.
  - cbn [drift]. now rewrite Nat.add_0_r.
  - change (drift env a (S (S k)) reg)
      with (drift env (S a) (S k) (apply_mutations reg (during env a))).
    rewrite IH. cbn [drift]. now replace (S a + k) with (a + S k) by lia.
Qed.

Lemma size_of_get reg u d : Dict.get reg u = Some d -> size_of reg u = List.length d.
Proof. intros H. unfold size_of. now rewrite H. Qed.

Lemma keys_length {V} (d : Dict.t string V) : List.length (Dict.keys d) = List.length d.
Proof. unfold Dict.keys. apply length_map. Qed.

(** The size tells whether the sub-map got a new key. *)
Lemma same_size_same_keys (d : levels) ks0 ks :
  Dict.keys d = ks0 ++ ks -> List.length d = List.length ks0 -> ks = [].
Proof.
  intros Hk Hl. rewrite <- keys_length, Hk, length_app in Hl.
  destruct ks; [reflexivity | simpl in Hl; lia].
Qed.

Section ListSchedule.
Variable env : environment.
Hypothesis no_delete : no_discard env.
Variable u : Z.
Variable ks0 : list string.

(** The loop of [list_levels_command] when the sub-map has the size it had at
    the start at every step: it makes a row for every symbol. *)
Lemma list_rows_steady : forall remaining rows w dcur ks,
  remaining <= List.length ks0 ->
  Dict.get (user_levels w) u = Some dcur ->
  Dict.keys dcur = ks0 ++ ks ->
  (forall k, k <= remaining ->
     size_of (drift env (awaits w) k (user_levels w)) u = List.length ks0) ->
  exists rows',
    iterate (levels_of u) (List.length ks0) remaining (list_row env) rows w
      = (Ok rows',
         mkWorld (drift env (awaits w) remaining (user_levels w))
                 (trace w ++ map Lookup (skipn (List.length ks0 - remaining) ks0))
                 (awaits w + remaining) (lookups w + remaining)) /\
    map row_symbol rows'
      = map row_symbol rows ++ skipn (List.length ks0 - remaining) ks0.
Proof.
  induction remaining as [|r IH]; intros rows w dcur ks Hle Hd Hk Hsz.
  - pose proof (Hsz 0 (le_n 0)) as H0. cbn [drift] in H0.
    rewrite (size_of_get _ _ _ Hd) in H0.
    cbn [iterate]. unfold bind at 1. rewrite (levels_of_run u dcur w Hd).
    rewrite H0, Nat.eqb_refl. cbn [negb]. unfold ret.
    exists rows. rewrite Nat.sub_0_r, skipn_all. cbn [drift map].
    rewrite !app_nil_r, !Nat.add_0_r. split; [now destruct w | reflexivity].
  - pose proof (Hsz 0 (Nat.le_0_l _)) as H0. cbn [drift] in H0.
    rewrite (size_of_get _ _ _ Hd) in H0.
    pose proof (same_size_same_keys dcur ks0 ks Hk H0) as ->.
    rewrite app_nil_r in Hk.
    cbn [iterate]. unfold bind at 1. rewrite (levels_of_run u dcur w Hd).
    rewrite H0, Nat.eqb_refl. cbn [negb].
    destruct (nth_error dcur (List.length ks0 - S r)) as [kv|] eqn:Hn.
    2:{ apply nth_error_None in Hn. lia. }
    assert (Hkey : nth_error ks0 (List.length ks0 - S r) = Some (fst kv)).
    { rewrite <- Hk at 1. unfold Dict.keys. now rewrite nth_error_map, Hn. }
    unfold bind at 1. rewrite list_row_run.
    set (w1 := mkWorld _ _ _ _).
    destruct (submap_apply_mutations (during env (awaits w)) (user_levels w) u dcur
                (no_delete (awaits w)) Hd) as (d1 & ks1 & Hd1 & Hk1).
    rewrite Hk in Hk1.
    assert (Hsz1 : forall k, k <= r ->
              size_of (drift env (awaits w1) k (user_levels w1)) u
              = List.length ks0).
    { intros k Hkr. exact (Hsz (S k) (le_n_S _ _ Hkr)). }
    set (rows1 := rows ++ _).
    destruct (IH rows1 w1 d1 ks1 ltac:(lia) Hd1 Hk1 Hsz1) as (rows' & E & Hrows).
    exists rows'. rewrite E. subst w1. cbn [user_levels trace awaits lookups drift].
    rewrite (skipn_nth ks0 _ _ Hkey).
    replace (S (List.length ks0 - S r)) with (List.length ks0 - r) by lia.
    split.
    + f_equal. f_equal; [|lia|lia]. cbn [map]. now rewrite <- app_assoc.
    + rewrite Hrows. subst rows1. rewrite map_app. cbn [map].
      rewrite row_of_symbol. now rewrite <- app_assoc.
Qed.

(** The loop when the sub-map has another size after [k] awaits, for the
    first time: it raises there, after [k] lookups. *)
Lemma list_rows_resized : forall remaining rows w dcur ks k,
  remaining <= List.length ks0 ->
  Dict.get (user_levels w) u = Some dcur ->
  Dict.keys dcur = ks0 ++ ks ->
  k <= remaining ->
  (forall j, j < k ->
     size_of (drift env (awaits w) j (user_levels w)) u = List.length ks0) ->
  size_of (drift env (awaits w) k (user_levels w)) u <> List.length ks0 ->
  iterate (levels_of u) (List.length ks0) remaining (list_row env) rows w
    = (Raise RuntimeError,
       mkWorld (drift env (awaits w) k (user_levels w))
               (trace w
                  ++ map Lookup (firstn k (skipn (List.length ks0 - remaining) ks0)))
               (awaits w + k) (lookups w + k)).
Proof.
  induction remaining as [|r IH]; intros rows w dcur ks k Hle Hd Hk Hkr Hsame Hdiff.
  - assert (k = 0) by lia. subst k. cbn [drift] in Hdiff.
    rewrite (size_of_get _ _ _ Hd) in Hdiff.
    cbn [iterate]. unfold bind at 1. rewrite (levels_of_run u dcur w Hd).
    apply Nat.eqb_neq in Hdiff. rewrite Hdiff. cbn [negb firstn map drift].
    unfold raise. rewrite app_nil_r, !Nat.add_0_r. now destruct w.
  - destruct k as [|k].
    + cbn [drift] in Hdiff. rewrite (size_of_get _ _ _ Hd) in Hdiff.
      cbn [iterate]. unfold bind at 1. rewrite (levels_of_run u dcur w Hd).
      apply Nat.eqb_neq in Hdiff. rewrite Hdiff. cbn [negb firstn map drift].
      unfold raise. rewrite app_nil_r, !Nat.add_0_r. now destruct w.
    + pose proof (Hsame 0 (Nat.lt_0_succ _)) as H0. cbn [drift] in H0.
      rewrite (size_of_get _ _ _ Hd) in H0.
      pose proof (same_size_same_keys dcur ks0 ks Hk H0) as ->.
      rewrite app_nil_r in Hk.
      cbn [iterate]. unfold bind at 1. rewrite (levels_of_run u dcur w Hd).
      rewrite H0, Nat.eqb_refl. cbn [negb].
      destruct (nth_error dcur (List.length ks0 - S r)) as [kv|] eqn:Hn.
      2:{ apply nth_error_None in Hn. lia. }
      assert (Hkey : nth_error ks0 (List.length ks0 - S r) = Some (fst kv)).
      { rewrite <- Hk at 1. unfold Dict.keys. now rewrite nth_error_map, Hn. }
      unfold bind at 1. rewrite list_row_run.
      set (w1 := mkWorld _ _ _ _).
      destruct (submap_apply_mutations (during env (awaits w)) (user_levels w) u dcur
                  (no_delete (awaits w)) Hd) as (d1 & ks1 & Hd1 & Hk1).
      rewrite Hk in Hk1.
      assert (Hsame1 : forall j, j < k ->
                size_of (drift env (awaits w1) j (user_levels w1)) u
                = List.length ks0).
      { intros j Hj. exact (Hsame (S j) (proj1 (Nat.succ_lt_mono _ _) Hj)). }
      set (rows1 := rows ++ _).
      rewrite (IH rows1 w1 d1 ks1 k ltac:(lia) Hd1 Hk1 ltac:(lia) Hsame1 Hdiff).
      subst w1. cbn [user_levels trace awaits lookups drift].
      rewrite (skipn_nth ks0 _ _ Hkey).
      replace (S (List.length ks0 - S r)) with (List.length ks0 - r) by lia.
      cbn [firstn map]. f_equal. f_equal; [|lia|lia]. now rewrite <- app_assoc.
Qed.
End ListSchedule.

(** X11: [/list] never shows a part of the list, whatever levels the other
    coroutines store meanwhile (none of them deleting one).  For a user with
    [n] levels: when the sub-map of the user has [n] levels after each of the
    [n] price lookups, the command answers with one row for every symbol the
    user had when it began, in the order of the sub-map, or, when that answer
    is not delivered, answers nothing and raises; and when the sub-map has
    got another size, for the first time after [k] of the lookups, the
    command raises RuntimeError there: it has made [k] lookups and answers
    nothing. *)
Theorem list_levels_command_whole (env : environment) (u : Z) (d : levels)
    (w : world) :
  no_discard env ->
  Dict.get (user_levels w) u = Some d ->
  d <> [] ->
  ((forall k, k <= List.length d ->
      size_of (drift env (awaits w) k (user_levels w)) u = List.length d) ->
   (delivered env (awaits w + List.length d) = true ->
    exists rows,
      list_levels_command env u w =
        (Ok tt,
         mkWorld (drift env (awaits w) (S (List.length d)) (user_levels w))
                 (trace w ++ map Lookup (Dict.keys d) ++ [Reply u (LevelList rows)])
                 (S (awaits w + List.length d)) (lookups w + List.length d)) /\
      map row_symbol rows = Dict.keys d) /\
   (delivered env (awaits w + List.length d) = false ->
    list_levels_command env u w =
      (Raise TransportError,
       mkWorld (drift env (awaits w) (S (List.length d)) (user_levels w))
               (trace w ++ map Lookup (Dict.keys d))
               (S (awaits w + List.length d)) (lookups w + List.length d)))) /\
  (forall k, k <= List.length d ->
     (forall j, j < k ->
        size_of (drift env (awaits w) j (user_levels w)) u = List.length d) ->
     size_of (drift env (awaits w) k (user_levels w)) u <> List.length d ->
     list_levels_command env u w =
       (Raise RuntimeError,
        mkWorld (drift env (awaits w) k (user_levels w))
                (trace w ++ map Lookup (firstn k (Dict.keys d)))
                (awaits w + k) (lookups w + k))).
Proof.
  intros N Hd Hne.
  assert (Hrun : list_levels_command env u w =
            (rows <- iterate (levels_of u) (List.length (Dict.keys d))
                       (List.length (Dict.keys d)) (list_row env) [] ;;
             reply_text env u (LevelList rows)) w).
  { unfold list_levels_command, bind at 1, get_levels at 1. cbv beta iota.
    rewrite Hd. destruct d as [|x d]; [contradiction|].
    unfold for_items, bind. rewrite (levels_of_run u (x :: d) w Hd).
    now rewrite keys_length. }
  rewrite Hrun. clear Hrun. rewrite <- (keys_length d).
  split.
  - intros Hsz.
    destruct (list_rows_steady env N u (Dict.keys d) (List.length (Dict.keys d)) [] w
                d [] (le_n _) Hd (eq_sym (app_nil_r _)) Hsz) as (rows & E & Hrows).
    rewrite Nat.sub_diag in E, Hrows. cbn [skipn map app] in E, Hrows.
    unfold bind. rewrite E.
    unfold reply_text, bind, await, emit, raise.
    cbn [user_levels trace awaits lookups]. rewrite <- drift_last.
    split; intros Hdel; rewrite Hdel; cbn [user_levels trace awaits lookups].
    + exists rows. split; [|exact Hrows]. now rewrite <- app_assoc.
    + reflexivity.
  - intros k Hk Hsame Hdiff. unfold bind.
    rewrite (list_rows_resized env N u (Dict.keys d) (List.length (Dict.keys d)) [] w
               d [] k (le_n _) Hd (eq_sym (app_nil_r _)) Hk Hsame Hdiff).
    now rewrite Nat.sub_diag.
Qed.

Lemma list_levels_command_whole_witness :
  (exists rows,
     list_levels_command (steady 120) 7 raced =
       (Ok tt,
        mkWorld (drift (steady 120) (awaits raced) 2 (user_levels raced))
                (trace raced ++ map Lookup (Dict.keys [("SYM"%string, mkLevel "SYM" 100 0)])
                   ++ [Reply 7 (LevelList rows)])
                (S (awaits raced + 1)) (lookups raced + 1)) /\
     map row_symbol rows = Dict.keys [("SYM"%string, mkLevel "SYM" 100 0)]) /\
  list_levels_command (adding 120 7 (mkLevel "ETH" 50 9) 0) 7 raced =
    (Raise RuntimeError,
     mkWorld (drift (adding 120 7 (mkLevel "ETH" 50 9) 0) (awaits raced) 1
                (user_levels raced))
             (trace raced
                ++ map Lookup (firstn 1 (Dict.keys [("SYM"%string, mkLevel "SYM" 100 0)])))
             (awaits raced + 1) (lookups raced + 1)).
Proof.
  split.
  - destruct (list_levels_command_whole (steady 120) 7
                [("SYM"%string, mkLevel "SYM" 100 0)] raced) as [HA _].
    + intros n. reflexivity.
    + reflexivity.
    + discriminate.
    + destruct HA as [Hok _].
      * intros k Hk. simpl in Hk.
        destruct k as [|[|k]]; [reflexivity | reflexivity | lia].
      * apply Hok. reflexivity.
  - destruct (list_levels_command_whole (adding 120 7 (mkLevel "ETH" 50 9) 0) 7
                [("SYM"%string, mkLevel "SYM" 100 0)] raced) as [_ HB].
    + intros n. unfold adding. cbn [during]. now destruct (Nat.eqb n 0).
    + reflexivity.
    + discriminate.
    + apply (HB 1).
      * simpl. lia.
      * intros j Hj. assert (j = 0) by lia. subst j. reflexivity.
      * discriminate.
Defined.

Example list_levels_command_new_symbol :
  list_levels_command (adding 120 7 (mkLevel "ETH" 50 9) 0) 7 raced
  = (Raise RuntimeError,
     mkWorld [(7%Z, [("SYM"%string, mkLevel "SYM" 100 0);
                     ("ETH"%string, mkLevel "ETH" 50 9)])]
             [Lookup "SYM"] 1 1).
Proof. reflexivity. Qed.

(** * More about the scan *)

(** ** Targets and prices that are no numbers, and the target 0.0 *)

Lemma Prim2SF_nan (x : float) : is_nan x = true -> Prim2SF x = S754_nan.
Proof. intros H. unfold Prim2SF. now rewrite H. Qed.

Lemma leb_nan_r (x y : float) : is_nan y = true -> (x <=? y)%float = false.
Proof.
  intros H. rewrite leb_spec, (Prim2SF_nan y H). unfold SFleb.
  now destruct (Prim2SF x).
Qed.

Lemma fires_nan_target env k s l :
  is_nan (target_price l) = true -> fires env k (s, l) = None.
Proof.
  intros H. unfold fires. cbn [fst snd].
  destruct (prices env k s) as [p|]; [|reflexivity].
  now rewrite leb_nan_r.
Qed.

Lemma level_entry_at reg u s l :
  level_of reg u s = Some l -> exists i, nth_error (entries reg) i = Some (u, s, l).
Proof. intros Hl. apply In_nth_error. now apply level_entries. Qed.

Lemma monitoring_turns_keep env u s l :
  (forall k, fires env k (s, l) = None) ->
  forall n w,
    quiet env -> wf_registry (user_levels w) ->
    level_of (user_levels w) u s = Some l ->
    exists w' evs, monitoring_turns env n w = (Ok tt, w') /\
      trace w' = trace w ++ evs /\
      level_of (user_levels w') u s = Some l /\
      count_alerts u s (alerts evs) = 0.
Proof.
  intros F. induction n as [|n IH]; intros w Q W Hl.
  - exists w, []. simpl. unfold ret. now rewrite app_nil_r.
  - destruct (monitoring_turn_quiet env w Q W) as (a & ev1 & E1 & A1 & _).
    destruct (level_entry_at _ _ _ _ Hl) as [i Hi].
    destruct (sweep_all_at env (user_levels w) (lookups w) i u s l W Hi) as [H1 H2].
    rewrite F in H1, H2.
    cbn [monitoring_turns]. unfold bind. rewrite E1.
    set (w1 := mkWorld _ _ _ _).
    destruct (IH w1 Q (sweep_all_wf env w Q W) H1) as (w' & evs & E & T & L & C).
    exists w', (ev1 ++ evs). split; [exact E|]. split; [|split; [exact L|]].
    + rewrite T. subst w1. cbn [trace]. now rewrite app_assoc.
    + now rewrite alerts_app, count_alerts_app, A1, H2, C.
Qed.

(** X12: a level whose target is not a number (the text [nan], which the
    builtin [float] accepts) never triggers: no check of it alerts or
    deletes, whatever the price, and left alone the loop keeps it for
    ever. *)
Theorem nan_target_never_triggers (env : environment) (u : Z) (s : string)
    (l : TargetLevel) (w : world) :
  is_nan (target_price l) = true ->
  (forall t w0,
     check_level env u (s, l) t w0 =
       (Ok (match prices env (lookups w0) s with Some _ => S t | None => t end),
        mkWorld (apply_mutations (user_levels w0) (during env (awaits w0)))
                (trace w0 ++ [Lookup s]) (S (awaits w0)) (S (lookups w0)))) /\
  (quiet env ->
   wf_registry (user_levels w) ->
   level_of (user_levels w) u s = Some l ->
   forall n, exists w',
     price_monitoring_loop env n w = (Ok tt, w') /\
     level_of (user_levels w') u s = Some l /\
     notified u s (since w w') = 0).
Proof.
  intros Hnan. split.
  - intros t w0. apply check_level_passes. now apply fires_nan_target.
  - intros Q W Hl n.
    unfold price_monitoring_loop, bind, logger, emit.
    set (w0 := mkWorld _ _ _ _).
    destruct (monitoring_turns_keep env u s l
                (fun k => fires_nan_target env k s l Hnan) n w0 Q W Hl)
      as (w' & evs & E & T & L & C).
    exists w'. split; [exact E|]. split; [exact L|].
    unfold notified.
    erewrite since_app by (rewrite T; subst w0; cbn [trace];
                           rewrite <- app_assoc; reflexivity).
    rewrite alerts_app, count_alerts_app, C. reflexivity.
Qed.

Lemma nan_target_never_triggers_witness :
  (forall t w0,
     check_level (steady 95) 7 ("SYM"%string, mkLevel "SYM" nan 0) t w0 =
       (Ok (match prices (steady 95) (lookups w0) "SYM" with
            | Some _ => S t | None => t end),
        mkWorld (apply_mutations (user_levels w0) (during (steady 95) (awaits w0)))
                (trace w0 ++ [Lookup "SYM"]) (S (awaits w0)) (S (lookups w0)))) /\
  forall n, exists w',
    price_monitoring_loop (steady 95) n (one_level 7 "SYM" nan) = (Ok tt, w') /\
    level_of (user_levels w') 7 "SYM" = Some (mkLevel "SYM" nan 0) /\
    notified 7 "SYM" (since (one_level 7 "SYM" nan) w') = 0.
Proof.
  destruct (nan_target_never_triggers (steady 95) 7 "SYM" (mkLevel "SYM" nan 0)
              (one_level 7 "SYM" nan) eq_refl) as [H1 H2].
  split; [exact H1|].
  apply H2; [apply steady_quiet | | reflexivity].
  split; repeat constructor; simpl; tauto.
Defined.

(** X13: when a level with the target 0.0 triggers, the alert text cannot be
    made (the drop is a division by the target): nothing is sent, the
    failure is logged, and the level is deleted all the same. *)
Theorem zero_target_alert_lost (env : environment) (u : Z) (s : string)
    (l : TargetLevel) (t : nat) (w : world) (p : float) :
  prices env (lookups w) s = Some p ->
  (p <=? target_price l)%float = true ->
  (target_price l =? 0)%float = true ->
  send_target_hit_alert env u l p w =
    (Ok tt, mkWorld (user_levels w)
              (trace w ++ [Notify u l p; Log (Failed InAlert ZeroDivisionError)])
              (awaits w) (lookups w)) /\
  since w (snd (check_level env u (s, l) t w))
    = [Lookup s; Notify u l p; Log (Failed InAlert ZeroDivisionError)] /\
  (wf_registry (user_levels w) ->
   level_of (user_levels (snd (check_level env u (s, l) t w))) u s = None).
Proof.
  intros Hp Hle Hz. split; [|split].
  - rewrite send_target_hit_alert_run. unfold alert_outcome. now rewrite Hz.
  - destruct (check_level_fires_after env u s l t w p Hp Hle) as [Ht _].
    apply since_app. rewrite Ht. unfold alert_outcome. now rewrite Hz.
  - apply (check_level_fires_after env u s l t w p Hp Hle).
Qed.

Lemma zero_target_alert_lost_witness :
  send_target_hit_alert (steady 0) 7 (mkLevel "SYM" 0 0) 0 (one_level 7 "SYM" 0) =
    (Ok tt, mkWorld (user_levels (one_level 7 "SYM" 0))
              (trace (one_level 7 "SYM" 0)
                 ++ [Notify 7 (mkLevel "SYM" 0 0) 0;
                     Log (Failed InAlert ZeroDivisionError)])
              (awaits (one_level 7 "SYM" 0)) (lookups (one_level 7 "SYM" 0))) /\
  since (one_level 7 "SYM" 0)
        (snd (check_level (steady 0) 7 ("SYM"%string, mkLevel "SYM" 0 0) 0
                (one_level 7 "SYM" 0)))
    = [Lookup "SYM"; Notify 7 (mkLevel "SYM" 0 0) 0;
       Log (Failed InAlert ZeroDivisionError)] /\
  (wf_registry (user_levels (one_level 7 "SYM" 0)) ->
   level_of (user_levels
               (snd (check_level (steady 0) 7 ("SYM"%string, mkLevel "SYM" 0 0) 0
                       (one_level 7 "SYM" 0)))) 7 "SYM" = None).
Proof.
  apply (zero_target_alert_lost (steady 0) 7 "SYM" (mkLevel "SYM" 0 0) 0
           (one_level 7 "SYM" 0) 0%float); reflexivity.
Defined.

(** ** The number of checks *)

Lemma del_level_lookups u s w : lookups (snd (del_level u s w)) = lookups w.
Proof.
  unfold del_level, levels_of, bind, get_levels, put_levels, ret, raise.
  destruct (Dict.get (user_levels w) u) as [d|]; [|reflexivity].
  now destruct (Dict.mem d s).
Qed.

(** A check that returns has counted the item if and only if the source gave
    a price, in any environment. *)
Lemma check_level_counts env u sl t w t' w' :
  check_level env u sl t w = (Ok t', w') ->
  t' = match prices env (lookups w) (fst sl) with Some _ => S t | None => t end /\
  lookups w' = S (lookups w).
Proof.
  destruct sl as [s l]. cbn [fst].
  destruct (fires env (lookups w) (s, l)) as [p|] eqn:F.
  - unfold fires in F. cbn [fst snd] in F.
    destruct (prices env (lookups w) s) as [p'|] eqn:Hp; [|discriminate].
    destruct (p' <=? target_price l)%float eqn:Hle; [|discriminate].
    rewrite (check_level_fires_run env u s l t w p' Hp Hle).
    set (w1 := mkWorld _ _ _ _).
    pose proof (del_level_lookups u s w1) as Hk.
    unfold bind, ret. destruct (del_level u s w1) as [[[]|e] w2]; [|discriminate].
    intros [= <- <-]. split; [reflexivity|]. exact Hk.
  - rewrite (check_level_passes env u s l t w F). now intros [= <- <-].
Qed.

Lemma for_each_counts env u : forall snap t w t' w',
  for_each snap (check_level env u) t w = (Ok t', w') ->
  t' = t + priced env (lookups w) (map (fun sl => (u, fst sl, snd sl)) snap) /\
  lookups w' = lookups w + List.length snap.
Proof.
  induction snap as [|sl snap IH]; intros t w t' w'; cbn [for_each].
  - unfold ret. intros [= <- <-]. simpl. lia.
  - unfold bind at 1.
    destruct (check_level env u sl t w) as [[t1|e] w1] eqn:E1; [|discriminate].
    destruct (check_level_counts env u sl t w t1 w1 E1) as [Ht1 Hk1].
    intros E. destruct (IH t1 w1 t' w' E) as [Ht' Hk'].
    rewrite Hk1 in Ht', Hk'. cbn [map priced List.length fst snd].
    destruct sl as [s l]. cbn [fst snd] in *.
    destruct (prices env (lookups w) s); lia.
Qed.

Lemma priced_app env a : forall k b,
  priced env k (a ++ b) = priced env k a + priced env (k + List.length a) b.
Proof.
  induction a as [|[[u s] l] a IH]; intros k b; simpl.
  - now rewrite Nat.add_0_r.
  - rewrite IH. replace (S k + List.length a) with (k + S (List.length a)) by lia.
    now destruct (prices env k s).
Qed.

(** The outer loop with its total, where no other coroutine writes. *)
Lemma scan_all_total env : forall rest done used t w,
  quiet env ->
  user_levels w = done ++ rest ->
  used = List.length (done ++ rest) ->
  Dict.wf (done ++ rest) ->
  Forall (fun ud => Dict.wf (snd ud)) rest ->
  exists w',
    iterate get_levels used (List.length rest)
      (fun ul total => for_each (snd ul) (check_level env (fst ul)) total) t w =
      (Ok (t + priced env (lookups w) (entries rest)), w').
Proof.
  induction rest as [|[u d] rest IH]; intros done used t w Q Hreg Hused Hwf Hds.
  - exists w. cbn [iterate List.length]. unfold bind, get_levels, ret.
    rewrite Hreg, <- Hused, Nat.eqb_refl. cbn [negb]. simpl.
    now rewrite Nat.add_0_r.
  - cbn [iterate List.length]. unfold bind at 1, get_levels at 1.
    rewrite Hreg, <- Hused, Nat.eqb_refl. cbn [negb].
    assert (Hpos : used - S (List.length rest) = List.length done).
    { rewrite Hused, length_app. simpl. lia. }
    rewrite Hpos, nth_error_app2, Nat.sub_diag by lia. cbn [nth_error fst snd].
    pose proof (wf_users_app _ _ _ _ Hwf) as Hu.
    inversion Hds as [|? ? Hd Hds']; subst x l. cbn [snd] in Hd.
    destruct (scan_user_quiet env u done rest d [] t w Q Hreg Hu Hd)
      as (t1 & a1 & ev1 & E1 & _ & _).
    destruct (for_each_counts env u d t w _ _ E1) as [Ht1 _].
    unfold bind at 1. rewrite E1. cbn [app] in *.
    set (w1 := mkWorld _ _ _ _) in *.
    assert (Hreg1 : user_levels w1
                    = (done ++ [(u, sweep env (lookups w) d)]) ++ rest).
    { subst w1. cbn [user_levels]. now rewrite <- app_assoc. }
    assert (Hused1 : used
                     = List.length ((done ++ [(u, sweep env (lookups w) d)]) ++ rest)).
    { rewrite Hused, !length_app. simpl. lia. }
    assert (Hwf1 : Dict.wf ((done ++ [(u, sweep env (lookups w) d)]) ++ rest)).
    { unfold Dict.wf, Dict.keys in *. rewrite <- app_assoc.
      rewrite map_app in *. exact Hwf. }
    destruct (IH _ used t1 w1 Q Hreg1 Hused1 Hwf1 Hds') as (w' & E).
    exists w'. rewrite E. subst w1. cbn [lookups].
    rewrite entries_cons, priced_app, length_map, Ht1. f_equal. f_equal. lia.
Qed.

Lemma checked_not_checked evs : Forall not_checked evs -> checked evs = [].
Proof.
  induction 1 as [|e evs He _ IH]; [reflexivity|].
  cbn [checked flat_map]. fold (checked evs). rewrite IH.
  destruct e as [| | | |[]|]; try reflexivity. contradiction.
Qed.

Lemma scan_not_checked env :
  appends not_checked
    (for_items get_levels
       (fun ul total => for_each (snd ul) (check_level env (fst ul)) total) 0).
Proof.
  apply appends_for_items; [apply appends_get_levels|]. intros ul t.
  apply appends_for_each. intros [sym level] t'.
  unfold check_level, del_level, send_target_hit_alert, get_binance_price,
    send_message, logger.
  appends_auto.
Qed.

(** X14: an undisturbed scan counts the lookups that gave a price, alerts
    or not, and logs this total once, at its end; when no lookup gave a price
    (or there is no level) it logs no total. *)
Theorem check_all_levels_total_checks (env : environment) (w : world) :
  quiet env ->
  wf_registry (user_levels w) ->
  exists w' evs,
    check_all_levels env w = (Ok tt, w') /\
    since w w'
      = evs ++ (if (0 <? priced env (lookups w) (entries (user_levels w)))%nat
                then [Log (Checked (priced env (lookups w) (entries (user_levels w))))]
                else []) /\
    checked evs = [] /\
    looked evs = map (fun e => snd (fst e)) (entries (user_levels w)).
Proof.
  intros Q W. pose proof W as [Wu Wd].
  assert (Wd' : Forall (fun ud : Z * levels => Dict.wf (snd ud)) (user_levels w)).
  { revert Wd. apply Forall_impl. now intros ud [H _]. }
  destruct (scan_all_quiet env (user_levels w) [] (List.length (user_levels w))
              0 w Q eq_refl eq_refl Wu Wd')
    as (t' & a & evs & E & _ & L).
  destruct (scan_all_total env (user_levels w) [] (List.length (user_levels w))
              0 w Q eq_refl eq_refl Wu Wd') as (w1 & E1).
  rewrite E in E1. injection E1 as Ht _. cbn [Nat.add] in Ht.
  destruct (scan_not_checked env w) as (evs' & Ht' & Hnc).
  unfold for_items, bind at 1, get_levels at 1 in Ht'. cbv beta iota in Ht'.
  rewrite E in Ht'. cbn [snd trace] in Ht'. apply app_inv_head in Ht'. subst evs'.
  unfold check_all_levels, for_items, bind at 1, bind at 1, get_levels at 1.
  cbv beta iota. rewrite E. cbn [app]. rewrite <- Ht.
  destruct (0 <? t') eqn:Hpos.
  - eexists _, evs. unfold logger, emit. cbn [user_levels trace awaits lookups].
    split; [reflexivity|]. split; [|split; [now apply checked_not_checked | exact L]].
    apply since_app. cbn [trace]. now rewrite <- app_assoc.
  - eexists _, evs. unfold ret.
    split; [reflexivity|]. split; [|split; [now apply checked_not_checked | exact L]].
    apply since_app. cbn [trace]. now rewrite app_nil_r.
Qed.

Lemma check_all_levels_total_checks_witness :
  exists w' evs,
    check_all_levels (steady 120) raced = (Ok tt, w') /\
    since raced w'
      = evs ++ (if (0 <? priced (steady 120) (lookups raced)
                           (entries (user_levels raced)))%nat
                then [Log (Checked (priced (steady 120) (lookups raced)
                                      (entries (user_levels raced))))]
                else []) /\
    checked evs = [] /\
    looked evs = map (fun e => snd (fst e)) (entries (user_levels raced)).
Proof.
  apply (check_all_levels_total_checks (steady 120) raced (steady_quiet 120) raced_wf).
Defined.

(** ** What every coroutine keeps *)

(** The registry writes of the coroutines are the three mutations: an
    invariant that these keep is kept by every coroutine, in any
    environment. *)
Section Stable.
Variable env : environment.
Variable I : registry -> Prop.
Hypothesis I_stable : stable I.

Lemma stable_touch reg u : I reg -> I (touch reg u).
Proof. intros Hr. exact (I_stable reg (Touch u) Hr). Qed.

Lemma stable_store reg u d l :
  I reg -> Dict.get reg u = Some d ->
  I (Dict.set reg u (Dict.set d (symbol l) l)).
Proof.
  intros Hr Hd. pose proof (I_stable reg (Store u l) Hr) as H.
  cbn [apply_mutation] in H. unfold store, touch, Dict.mem in H.
  now rewrite Hd, Hd in H.
Qed.

Lemma stable_discard reg u d s :
  I reg -> Dict.get reg u = Some d -> I (Dict.set reg u (Dict.remove d s)).
Proof.
  intros Hr Hd. pose proof (I_stable reg (Discard u s) Hr) as H.
  cbn [apply_mutation] in H. unfold discard in H. now rewrite Hd in H.
Qed.

Lemma keeps_levels_update {A} u (k : levels -> M A) :
  (forall d, hoare (fun reg => I reg /\ Dict.get reg u = Some d)
                   (k d) (fun _ reg => I reg)) ->
  keeps I (d <- levels_of u ;; k d).
Proof.
  intros Hk w W. unfold levels_of, bind, get_levels.
  destruct (Dict.get (user_levels w) u) as [d|] eqn:Hg; simpl.
  - apply (Hk d w). now split.
  - exact W.
Qed.

Lemma keeps_telegram_call : keeps I (telegram_call env).
Proof.
  apply keeps_bind; [now apply keeps_await|]. intros n.
  apply keeps_if; [apply keeps_ret | apply keeps_raise].
Qed.

Lemma keeps_ensure_user u : keeps I (ensure_user u).
Proof. apply keeps_update. intros reg. apply stable_touch. Qed.

Lemma del_level_keeps u sym : keeps I (del_level u sym).
Proof.
  unfold del_level. apply keeps_levels_update.
  intros d w [W Hg]. destruct (Dict.mem d sym); simpl; [|exact W].
  now apply stable_discard.
Qed.

Lemma add_level_command_keeps py_float u args :
  keeps I (add_level_command py_float env u args).
Proof.
  unfold add_level_command.
  apply keeps_bind; [apply keeps_ensure_user|].
  intros _. apply keeps_try.
  2:{ intros e. destruct e; try (apply keeps_bind; [apply keeps_emit | intros _]);
        now apply keeps_reply_text. }
  destruct args as [|a0 [|a1 [|a2 rest]]]; try now apply keeps_reply_text.
  apply keeps_bind.
  { destruct (py_float a1); [apply keeps_ret | apply keeps_raise]. }
  intros target. apply keeps_bind; [now apply keeps_get_binance_price|].
  intros [current|]; [|now apply keeps_reply_text].
  apply keeps_bind.
  { apply keeps_if; [now apply keeps_reply_text | apply keeps_ret]. }
  intros _. apply keeps_levels_update. intros d w [W Hg].
  unfold bind at 1, datetime_now. cbv beta iota.
  unfold bind at 1, get_levels. cbv beta iota.
  unfold bind at 1, put_levels. cbv beta iota.
  set (level := mkLevel (upper a0) target (now env (awaits w))).
  assert (W' : I (Dict.set (user_levels w) u (Dict.set d (upper a0) level))).
  { exact (stable_store (user_levels w) u d level W Hg). }
  destruct (Dict.get d (upper a0)) as [old|].
  - now apply (keeps_reply_text env I I_stable).
  - destruct (current =? 0)%float; [exact W'|].
    now apply (keeps_reply_text env I I_stable).
Qed.

Lemma remove_level_command_keeps u args :
  keeps I (remove_level_command env u args).
Proof.
  intros w W. unfold remove_level_command, bind at 1, get_levels. cbv beta iota.
  destruct (Dict.get (user_levels w) u) as [[|sl d]|] eqn:Hg;
    try now apply (keeps_reply_text env I I_stable).
  assert (Hh : forall e, keeps I (logger (Failed InRemove e) ;;
                                  reply_text env u ErrorOccurred)).
  { intros e. apply keeps_bind; [apply keeps_emit | intros _].
    now apply keeps_reply_text. }
  unfold try_except.
  destruct args as [|a0 rest].
  - pose proof (keeps_reply_text env I I_stable u
                  (SelectLevel (map (fun sl0 => (fst sl0, target_price (snd sl0)))
                                    (sl :: d))) w W) as H.
    destruct (reply_text env u _ w) as [[[]|e] w1]; [exact H|].
    now apply Hh.
  - destruct (Dict.get (sl :: d) (upper a0)) as [lvl|].
    + unfold bind at 1, put_levels. cbv beta iota.
      set (w0 := mkWorld _ _ _ _).
      assert (W0 : I (user_levels w0)) by now apply stable_discard.
      pose proof (keeps_reply_text env I I_stable u
                    (LevelRemoved (upper a0) (target_price lvl)) w0 W0) as H.
      destruct (reply_text env u _ w0) as [[[]|e] w1]; [exact H|].
      now apply Hh.
    + pose proof (keeps_reply_text env I I_stable u
                    (NoActiveLevelFor (upper a0)) w W) as H.
      destruct (reply_text env u _ w) as [[[]|e] w1]; [exact H|].
      now apply Hh.
Qed.

Lemma list_levels_command_keeps u : keeps I (list_levels_command env u).
Proof.
  intros w W. unfold list_levels_command, bind at 1, get_levels. cbv beta iota.
  assert (H : keeps I (rows <- for_items (levels_of u) (list_row env) [] ;;
                       reply_text env u (LevelList rows))).
  { apply keeps_bind; [|intros rows; now apply keeps_reply_text].
    apply keeps_for_items; [apply keeps_levels_of |].
    intros [sym level] rows. unfold list_row.
    apply keeps_bind; [now apply keeps_get_binance_price | intros p; apply keeps_ret]. }
  destruct (Dict.get (user_levels w) u) as [[|sl d]|];
    try now apply (keeps_reply_text env I I_stable).
  now apply H.
Qed.

Lemma check_level_keeps u sl t : keeps I (check_level env u sl t).
Proof.
  unfold check_level. destruct sl as [sym level].
  apply keeps_bind; [now apply keeps_get_binance_price|].
  intros [current|]; [|apply keeps_ret].
  apply keeps_bind; [|intros _; apply keeps_ret].
  apply keeps_if; [|apply keeps_ret].
  apply keeps_bind; [now apply keeps_send_target_hit_alert|].
  intros _. apply del_level_keeps.
Qed.

Lemma check_all_levels_keeps : keeps I (check_all_levels env).
Proof.
  unfold check_all_levels.
  apply keeps_bind.
  - apply keeps_for_items.
    + intros w W. exact W.
    + intros ul t. apply keeps_for_each. intros sl t'. apply check_level_keeps.
  - intros t. apply keeps_if; [apply keeps_emit | apply keeps_ret].
Qed.

Lemma monitoring_turns_keeps n : keeps I (monitoring_turns env n).
Proof.
  induction n as [|n IH]; simpl; [apply keeps_ret|].
  apply keeps_bind; [|intros _; exact IH].
  apply keeps_try.
  - apply keeps_bind; [apply check_all_levels_keeps | intros _; now apply keeps_sleep].
  - intros e. apply keeps_bind; [apply keeps_emit | intros _; now apply keeps_sleep].
Qed.

Lemma price_monitoring_loop_keeps n : keeps I (price_monitoring_loop env n).
Proof.
  unfold price_monitoring_loop.
  apply keeps_bind; [apply keeps_emit | intros _; apply monitoring_turns_keeps].
Qed.

Lemma start_command_keeps u : keeps I (start_command env u).
Proof.
  unfold start_command.
  apply keeps_bind; [apply keeps_ensure_user | intros _].
  apply keeps_bind; [apply keeps_telegram_call | intros _; apply keeps_ret].
Qed.

Lemma help_command_keeps : keeps I (help_command env).
Proof.
  unfold help_command.
  apply keeps_bind; [apply keeps_telegram_call | intros _; apply keeps_ret].
Qed.

Lemma button_callback_keeps u data : keeps I (button_callback env u data).
Proof.
  unfold button_callback.
  apply keeps_bind; [apply keeps_telegram_call | intros _].
  apply keeps_if.
  { apply keeps_bind; [apply keeps_telegram_call | intros _; apply keeps_ret]. }
  apply keeps_if; [|apply keeps_ret].
  intros w W. unfold bind at 1, get_levels. cbv beta iota.
  assert (Hn : keeps I (telegram_call env ;; ret (Some LevelNotFound))).
  { apply keeps_bind; [apply keeps_telegram_call | intros _; apply keeps_ret]. }
  destruct (Dict.get (user_levels w) u) as [d|] eqn:Hg; [|now apply Hn].
  destruct (Dict.get d (str_replace "remove_" EmptyString data)) as [lvl|];
    [|now apply Hn].
  unfold bind at 1, put_levels. cbv beta iota.
  set (w0 := mkWorld _ _ _ _).
  assert (W0 : I (user_levels w0)) by now apply stable_discard.
  revert w0 W0.
  apply keeps_bind; [apply keeps_telegram_call | intros _; apply keeps_ret].
Qed.
End Stable.

(** X15: the bot writes the registry in three ways only: it makes the empty
    sub-map of a user, it stores a level under the level's own symbol, and
    it deletes a symbol of a user.  So whatever these three writes keep true
    of the registry stays true under every handler, under the scan and under
    the loop, also when they raise and whatever the other coroutines do. *)
Theorem coroutines_keep_stable (I : registry -> Prop) :
  stable I ->
  forall (py_float : string -> option float) (env : environment) (u : Z)
         (args : list string) (data : string) (n : nat),
    keeps I (start_command env u) /\
    keeps I (help_command env) /\
    keeps I (add_level_command py_float env u args) /\
    keeps I (list_levels_command env u) /\
    keeps I (remove_level_command env u args) /\
    keeps I (button_callback env u data) /\
    keeps I (check_all_levels env) /\
    keeps I (price_monitoring_loop env n).
Proof.
  intros S py_float env u args data n.
  split; [now apply start_command_keeps|].
  split; [now apply help_command_keeps|].
  split; [now apply add_level_command_keeps|].
  split; [now apply list_levels_command_keeps|].
  split; [now apply remove_level_command_keeps|].
  split; [now apply button_callback_keeps|].
  split; [now apply check_all_levels_keeps | now apply price_monitoring_loop_keeps].
Qed.

Lemma coroutines_keep_stable_witness :
  keeps wf_registry (start_command (racing 95 7 "SYM" 1) 7) /\
  keeps wf_registry (help_command (racing 95 7 "SYM" 1)) /\
  keeps wf_registry (add_level_command float_of_token (racing 95 7 "SYM" 1) 7 []) /\
  keeps wf_registry (list_levels_command (racing 95 7 "SYM" 1) 7) /\
  keeps wf_registry (remove_level_command (racing 95 7 "SYM" 1) 7 []) /\
  keeps wf_registry (button_callback (racing 95 7 "SYM" 1) 7 "cancel") /\
  keeps wf_registry (check_all_levels (racing 95 7 "SYM" 1)) /\
  keeps wf_registry (price_monitoring_loop (racing 95 7 "SYM" 1) 2).
Proof.
  apply (coroutines_keep_stable wf_registry wf_stable float_of_token
           (racing 95 7 "SYM" 1) 7 [] "cancel" 2).
Defined.

(** ** The users of the registry *)

Lemma keys_set_extends {V} (reg : Dict.t Z V) u v :
  exists ks, Dict.keys (Dict.set reg u v) = Dict.keys reg ++ ks.
Proof.
  rewrite keys_set. destruct (Dict.mem reg u); [exists [] | exists [u]];
    now rewrite ?app_nil_r.
Qed.

Lemma keys_apply_mutation reg m :
  exists ks, Dict.keys (apply_mutation reg m) = Dict.keys reg ++ ks.
Proof.
  assert (T : forall u, exists ks, Dict.keys (touch reg u) = Dict.keys reg ++ ks).
  { intros u. unfold touch. destruct (Dict.mem reg u); [|apply keys_set_extends].
    exists []. now rewrite app_nil_r. }
  destruct m as [u|u l|u s]; cbn [apply_mutation].
  - apply T.
  - destruct (T u) as [ks Hks]. unfold store.
    destruct (Dict.get (touch reg u) u) as [d|] eqn:Hd; [|now exists ks].
    exists ks. rewrite keys_set_present; [exact Hks|].
    unfold Dict.mem. now rewrite Hd.
  - unfold discard. destruct (Dict.get reg u) as [d|] eqn:Hd.
    + exists []. rewrite app_nil_r. apply keys_set_present.
      unfold Dict.mem. now rewrite Hd.
    + exists []. now rewrite app_nil_r.
Qed.

Lemma users_from_stable ks0 : stable (users_from ks0).
Proof.
  intros reg m [ks Hks]. destruct (keys_apply_mutation reg m) as [ks' Hks'].
  exists (ks ++ ks'). now rewrite Hks', Hks, app_assoc.
Qed.

Lemma users_from_refl reg : users_from (Dict.keys reg) reg.
Proof. exists []. now rewrite app_nil_r. Qed.

(** A loop over the live dictionary that returns has found, at its last
    step, the size that the dictionary had when the loop began. *)
Lemma iterate_ok_length {A} (body : Z * levels -> A -> M A) used :
  forall remaining acc w a w',
    iterate get_levels used remaining body acc w = (Ok a, w') ->
    List.length (user_levels w') = used.
Proof.
  induction remaining as [|r IH]; intros acc w a w'; cbn [iterate];
    unfold bind at 1, get_levels at 1; cbv beta iota;
    (destruct (Nat.eqb_spec (List.length (user_levels w)) used) as [Hlen|Hlen];
     cbn [negb]; [|discriminate]).
  - unfold ret. now intros [= _ <-].
  - destruct (nth_error (user_levels w) (used - S r)) as [kv|].
    + unfold bind at 1. destruct (body kv acc w) as [[acc'|e] w1]; [|discriminate].
      apply IH.
    + unfold ret. now intros [= _ <-].
Qed.

(** X16: no scan removes a user or changes the order of the users; and a
    scan that returns has seen no new user either: the users after it are
    the users before it.  (When a user the registry did not know signs up
    while the scan awaits, the scan does not return: its loop over the live
    registry raises.) *)
Theorem check_all_levels_same_users (env : environment) (w : world) :
  users_from (Dict.keys (user_levels w))
             (user_levels (snd (check_all_levels env w))) /\
  (fst (check_all_levels env w) = Ok tt ->
   Dict.keys (user_levels (snd (check_all_levels env w)))
     = Dict.keys (user_levels w)).
Proof.
  pose proof (check_all_levels_keeps env _
                (users_from_stable (Dict.keys (user_levels w))) w
                (users_from_refl (user_levels w))) as Hk.
  cbv beta in Hk. split; [exact Hk|].
  destruct Hk as [ks Hks].
  destruct (check_all_levels env w) as [r w'] eqn:E0. cbn [fst snd] in *.
  intros ->. revert E0.
  unfold check_all_levels, for_items, bind at 1, bind at 1, get_levels at 1.
  cbv beta iota.
  destruct (iterate get_levels (List.length (user_levels w))
              (List.length (user_levels w))
              (fun ul total => for_each (snd ul) (check_level env (fst ul)) total)
              0 w) as [[t|e] w1] eqn:E; [|discriminate].
  apply iterate_ok_length in E. intros E0.
  assert (Hsame : user_levels w' = user_levels w1).
  { destruct (0 <? t)%nat; unfold logger, emit, ret in E0;
      injection E0 as <-; reflexivity. }
  assert (Hl : List.length (Dict.keys (user_levels w'))
               = List.length (Dict.keys (user_levels w))).
  { rewrite Hsame. unfold Dict.keys. now rewrite !length_map. }
  rewrite Hks, length_app in Hl.
  destruct ks as [|k ks]; [now rewrite Hks, app_nil_r | simpl in Hl; lia].
Qed.

Lemma check_all_levels_same_users_witness :
  users_from (Dict.keys (user_levels raced))
             (user_levels (snd (check_all_levels (steady 95) raced))) /\
  Dict.keys (user_levels (snd (check_all_levels (steady 95) raced)))
    = Dict.keys (user_levels raced).
Proof.
  destruct (check_all_levels_same_users (steady 95) raced) as [H1 H2].
  split; [exact H1 | apply H2; reflexivity].
Defined.

Example check_all_levels_new_user :
  fst (check_all_levels (growing 120 8 0) raced) = Raise RuntimeError /\
  Dict.keys (user_levels (snd (check_all_levels (growing 120 8 0) raced)))
    = [7%Z; 8%Z].
Proof. split; reflexivity. Qed.

(** ** The periods of the undisturbed loop *)

Lemma monitoring_turns_sleeps_quiet env : forall n w,
  quiet env -> wf_registry (user_levels w) ->
  exists w' evs, monitoring_turns env n w = (Ok tt, w') /\
    trace w' = trace w ++ evs /\
    sleeps evs = repeat 300 n /\
    lookups w' >= lookups w.
Proof.
  induction n as [|n IH]; intros w Q W.
  - exists w, []. simpl. unfold ret. rewrite app_nil_r.
    split; [reflexivity|]. split; [reflexivity|]. split; [reflexivity | lia].
  - destruct (check_all_levels_quiet env w Q W) as (a & ev1 & E1 & _ & _).
    destruct (check_all_levels_no_sleep env w) as (ev1' & T1 & N1).
    rewrite E1 in T1. cbn [snd trace] in T1. apply app_inv_head in T1. subst ev1'.
    cbn [monitoring_turns]. unfold bind at 1, monitoring_turn, try_except, bind at 1.
    rewrite E1. unfold sleep, bind at 1, emit, bind at 1, await, ret.
    cbn [user_levels trace awaits lookups]. rewrite Q. cbn [apply_mutations fold_left].
    set (w1 := mkWorld _ _ _ _).
    destruct (IH w1 Q (sweep_all_wf env w Q W)) as (w' & evs & E & T & Sl & Lk).
    exists w', (ev1 ++ Sleep 300 :: evs). split; [exact E|]. split; [|split].
    + rewrite T. subst w1. cbn [trace]. now rewrite <- !app_assoc.
    + rewrite sleeps_app, (sleeps_no_sleep ev1 N1). cbn [app repeat].
      change (sleeps (Sleep 300 :: evs)) with (300 :: sleeps evs). now rewrite Sl.
    + subst w1. cbn [lookups] in Lk. lia.
Qed.

(** X17: left alone, the loop waits 300 seconds after every scan and never
    takes the short wait of 60 seconds; alerts that cannot be delivered do
    not change this. *)
Theorem undisturbed_loop_periods (env : environment) (w : world) (n : nat) :
  quiet env ->
  wf_registry (user_levels w) ->
  exists w',
    price_monitoring_loop env n w = (Ok tt, w') /\
    sleeps (since w w') = repeat 300 n.
Proof.
  intros Q W. unfold price_monitoring_loop, bind, logger, emit.
  set (w0 := mkWorld _ _ _ _).
  destruct (monitoring_turns_sleeps_quiet env n w0 Q W) as (w' & evs & E & T & Sl & _).
  exists w'. split; [exact E|].
  erewrite since_app by (rewrite T; subst w0; cbn [trace];
                         rewrite <- app_assoc; reflexivity).
  rewrite sleeps_app, Sl. reflexivity.
Qed.

Lemma undisturbed_loop_periods_witness :
  exists w',
    price_monitoring_loop (mute 95) 3 raced = (Ok tt, w') /\
    sleeps (since raced w') = repeat 300 3.
Proof.
  apply (undisturbed_loop_periods (mute 95) raced 3 (mute_quiet 95) raced_wf).
Defined.

(** ** After the alert of the last level *)

Lemma sweep_all_fire env d : forall k,
  (forall j sl, In sl d -> fires env j sl <> None) -> sweep env k d = [].
Proof.
  induction d as [|sl d IH]; intros k F; [reflexivity|].
  cbn [sweep]. destruct (fires env k sl) eqn:E.
  - apply IH. intros j sl' Hin. apply F. now right.
  - exfalso. apply (F k sl); [now left | exact E].
Qed.

Lemma get_sweep_all env reg u d : forall k,
  Dict.get reg u = Some d ->
  exists k', Dict.get (sweep_all env k reg) u = Some (sweep env k' d).
Proof.
  induction reg as [|[u0 d0] reg IH]; intros k; [discriminate|].
  cbn [sweep_all Dict.get]. simpl keqb.
  destruct (u =? u0)%Z.
  - intros [= ->]. now exists k.
  - apply IH.
Qed.

(** X18: when every level of a user has triggered in an undisturbed scan,
    the user is still in the registry, with an empty sub-map, and [/list]
    and [/remove] answer as they do for a user the registry does not
    know. *)
Theorem list_after_last_alert (env : environment) (u : Z) (d : levels)
    (args : list string) (w : world) :
  calm env ->
  wf_registry (user_levels w) ->
  Dict.get (user_levels w) u = Some d ->
  (forall j sl, In sl d -> fires env j sl <> None) ->
  exists w1,
    check_all_levels env w = (Ok tt, w1) /\
    Dict.get (user_levels w1) u = Some [] /\
    list_levels_command env u w1 =
      (Ok tt, mkWorld (user_levels w1) (trace w1 ++ [Reply u NoActiveLevels])
                      (S (awaits w1)) (lookups w1)) /\
    remove_level_command env u args w1 =
      (Ok tt, mkWorld (user_levels w1) (trace w1 ++ [Reply u NoLevelsToRemove])
                      (S (awaits w1)) (lookups w1)).
Proof.
  intros C W Hd F. pose proof (calm_quiet env C) as Q.
  destruct (check_all_levels_quiet env w Q W) as (a & evs & E & _ & _).
  destruct (get_sweep_all env (user_levels w) u d (lookups w) Hd) as [k' Hk'].
  rewrite (sweep_all_fire env d k' F) in Hk'.
  eexists. split; [exact E|]. cbn [user_levels]. split; [exact Hk'|]. split.
  - unfold list_levels_command, bind at 1, get_levels. cbv beta iota.
    cbn [user_levels]. rewrite Hk'. now apply reply_text_calm.
  - unfold remove_level_command, bind at 1, get_levels. cbv beta iota.
    cbn [user_levels]. rewrite Hk'. now apply reply_text_calm.
Qed.

Lemma list_after_last_alert_witness :
  exists w1,
    check_all_levels (steady 95) raced = (Ok tt, w1) /\
    Dict.get (user_levels w1) 7%Z = Some [] /\
    list_levels_command (steady 95) 7 w1 =
      (Ok tt, mkWorld (user_levels w1) (trace w1 ++ [Reply 7 NoActiveLevels])
                      (S (awaits w1)) (lookups w1)) /\
    remove_level_command (steady 95) 7 ["SYM"]%string w1 =
      (Ok tt, mkWorld (user_levels w1) (trace w1 ++ [Reply 7 NoLevelsToRemove])
                      (S (awaits w1)) (lookups w1)).
Proof.
  apply (list_after_last_alert (steady 95) 7 [("SYM"%string, mkLevel "SYM" 100 0)]
           ["SYM"]%string raced (steady_calm 95) raced_wf eq_refl).
  intros j sl [<-|[]]. discriminate.
Defined.

(** ** A target at or above the price *)

(** X22: a level that [/add] stores with a warning, the target being at or
    above the current price, is alerted and deleted by the next undisturbed
    scan when the price is still at or below the target then. *)
Theorem add_above_price_then_scan (py_float : string -> option float)
    (env : environment) (u : Z) (a0 a1 : string) (target p : float) (w : world) :
  calm env ->
  wf_registry (user_levels w) ->
  py_float a1 = Some target ->
  (forall k, prices env k (upper a0) = Some p) ->
  (p <=? target)%float = true ->
  exists w1 w2 l,
    add_level_command py_float env u [a0; a1] w = (Ok tt, w1) /\
    In (Reply u (WarningAboveCurrent target p)) (since w w1) /\
    level_of (user_levels w1) u (upper a0) = Some l /\
    target_price l = target /\
    check_all_levels env w1 = (Ok tt, w2) /\
    In (Notify u l p) (since w1 w2) /\
    level_of (user_levels w2) u (upper a0) = None.
Proof.
  intros C W Hf Hp Hle. pose proof (calm_quiet env C) as Q.
  destruct (add_level_command_level py_float env u a0 a1 target p w C Hf (Hp _))
    as (w1 & created & E1 & Hl1 & _ & Hs1 & _ & W1).
  specialize (W1 W).
  destruct (check_all_levels_quiet env w1 Q W1) as (a & evs & E2 & A2 & _).
  destruct (level_entry_at _ _ _ _ Hl1) as [i Hi].
  assert (F : fires env (lookups w1 + i) (upper a0, mkLevel (upper a0) target created)
              = Some p).
  { apply fires_le; [apply Hp | exact Hle]. }
  destruct (sweep_all_at env (user_levels w1) (lookups w1) i u (upper a0) _ W1 Hi)
    as [H1 _].
  rewrite F in H1.
  eexists w1, _, _. split; [exact E1|]. split; [|split; [exact Hl1|split; [reflexivity|]]].
  - rewrite Hs1. right. unfold add_report. rewrite Hle. now left.
  - split; [exact E2|]. split; [|exact H1].
    erewrite since_app by (cbn [trace]; reflexivity).
    apply in_alerts. rewrite A2.
    exact (fired_in env _ (lookups w1) i u (upper a0) _ p Hi F).
Qed.

Lemma add_above_price_then_scan_witness :
  exists w1 w2 l,
    add_level_command float_of_token (steady 95) 7 ["sym"; "100"]%string fresh
      = (Ok tt, w1) /\
    In (Reply 7 (WarningAboveCurrent 100 95)) (since fresh w1) /\
    level_of (user_levels w1) 7 (upper "sym") = Some l /\
    target_price l = 100%float /\
    check_all_levels (steady 95) w1 = (Ok tt, w2) /\
    In (Notify 7 l 95) (since w1 w2) /\
    level_of (user_levels w2) 7 (upper "sym") = None.
Proof.
  apply (add_above_price_then_scan float_of_token (steady 95) 7 "sym" "100" 100 95
           fresh (steady_calm 95)); try reflexivity.
  split; constructor.
Defined.

(** ** The alerts of a scan *)

Lemma fires_iff env k s l p :
  fires env k (s, l) = Some p <->
  prices env k s = Some p /\ (p <=? target_price l)%float = true.
Proof.
  unfold fires. cbn [fst snd]. destruct (prices env k s) as [p'|].
  - destruct (p' <=? target_price l)%float eqn:Hle.
    + split; [intros [= <-]; now split | now intros [[= <-] _]].
    + split; [discriminate | intros [[= <-] H]; congruence].
  - split; [discriminate | now intros [H _]].
Qed.

Lemma fired_sound env es : forall k u l p,
  In (u, l, p) (fired env k es) ->
  exists i s, nth_error es i = Some (u, s, l) /\ fires env (k + i) (s, l) = Some p.
Proof.
  induction es as [|[[u0 s0] l0] es IH]; intros k u l p; cbn [fired]; [intros H; destruct H|].
  intros Hin.
  assert (Hrest : In (u, l, p) (fired env (S k) es) ->
                  exists i s, nth_error ((u0, s0, l0) :: es) i = Some (u, s, l) /\
                              fires env (k + i) (s, l) = Some p).
  { intros H. destruct (IH (S k) u l p H) as (i & s & Hn & Hf).
    exists (S i), s. split; [exact Hn|].
    now replace (k + S i) with (S k + i) by lia. }
  destruct (fires env k (s0, l0)) as [p0|] eqn:F; [|now apply Hrest].
  destruct Hin as [[= <- <- <-]|Hin]; [|now apply Hrest].
  exists 0, s0. split; [reflexivity|]. now rewrite Nat.add_0_r.
Qed.

(** X23: an undisturbed scan alerts exactly the entries whose lookup gave a
    price at or below the target, and deletes exactly those: every other
    entry, be its price above the target, unavailable or not a number, is
    left as it was, without an alert. *)
Theorem scan_alerts_exactly (env : environment) (w : world) :
  quiet env ->
  wf_registry (user_levels w) ->
  exists w',
    check_all_levels env w = (Ok tt, w') /\
    (forall u l p,
       In (Notify u l p) (since w w') <->
       exists i s, nth_error (entries (user_levels w)) i = Some (u, s, l) /\
         prices env (lookups w + i) s = Some p /\
         (p <=? target_price l)%float = true) /\
    (forall i u s l,
       nth_error (entries (user_levels w)) i = Some (u, s, l) ->
       (level_of (user_levels w') u s = None <->
        exists p, prices env (lookups w + i) s = Some p /\
                  (p <=? target_price l)%float = true) /\
       (level_of (user_levels w') u s <> None ->
        level_of (user_levels w') u s = Some l)).
Proof.
  intros Q W.
  destruct (check_all_levels_quiet env w Q W) as (a & evs & E & A & _).
  eexists. split; [exact E|].
  erewrite since_app by (cbn [trace]; reflexivity). cbn [user_levels]. split.
  - intros u l p. rewrite <- in_alerts, A. split.
    + intros Hin. destruct (fired_sound env _ _ u l p Hin) as (i & s & Hn & Hf).
      exists i, s. split; [exact Hn|]. now apply fires_iff.
    + intros (i & s & Hn & Hp & Hle).
      apply (fired_in env _ (lookups w) i u s l p Hn). now apply fires_iff.
  - intros i u s l Hn.
    destruct (sweep_all_at env (user_levels w) (lookups w) i u s l W Hn) as [H _].
    rewrite H. destruct (fires env (lookups w + i) (s, l)) as [p|] eqn:F.
    + split; [|congruence]. split; [|reflexivity].
      intros _. exists p. now apply fires_iff.
    + split; [|reflexivity]. split; [discriminate|].
      intros (p & Hp & Hle). 
      assert (F' : fires env (lookups w + i) (s, l) = Some p) by now apply fires_iff.
      congruence.
Qed.

Lemma scan_alerts_exactly_witness :
  exists w',
    check_all_levels (steady 95) raced = (Ok tt, w') /\
    (forall u l p,
       In (Notify u l p) (since raced w') <->
       exists i s, nth_error (entries (user_levels raced)) i = Some (u, s, l) /\
         prices (steady 95) (lookups raced + i) s = Some p /\
         (p <=? target_price l)%float = true) /\
    (forall i u s l,
       nth_error (entries (user_levels raced)) i = Some (u, s, l) ->
       (level_of (user_levels w') u s = None <->
        exists p, prices (steady 95) (lookups raced + i) s = Some p /\
                  (p <=? target_price l)%float = true) /\
       (level_of (user_levels w') u s <> None ->
        level_of (user_levels w') u s = Some l)).
Proof.
  apply (scan_alerts_exactly (steady 95) raced (steady_quiet 95) raced_wf).
Defined.

(** ** Answers that are not delivered *)

Lemma reply_text_undelivered env u m w :
  quiet env -> (forall n, delivered env n = false) ->
  reply_text env u m w =
    (Raise TransportError,
     mkWorld (user_levels w) (trace w) (S (awaits w)) (lookups w)).
Proof.
  intros Q U. unfold reply_text, bind, await, raise. now rewrite Q, U.
Qed.

(** X24: the commands write before they answer and take nothing back when the
    answer cannot be delivered: [/remove] has then removed the level, and
    [/add] has stored it unless it first had to warn that the target is not
    below the price, in which case nothing is stored.  Either command logs
    the failure, fails again on its error message, and raises. *)
Theorem undelivered_answers_keep_writes (py_float : string -> option float)
    (env : environment) (u : Z) (w : world) :
  quiet env ->
  (forall n, delivered env n = false) ->
  (forall s rest d l,
     Dict.get (user_levels w) u = Some d ->
     Dict.get d (upper s) = Some l ->
     remove_level_command env u (s :: rest) w =
       (Raise TransportError,
        mkWorld (Dict.set (user_levels w) u (Dict.remove d (upper s)))
                (trace w ++ [Log (Failed InRemove TransportError)])
                (S (S (awaits w))) (lookups w))) /\
  (forall a0 a1 target p old,
     py_float a1 = Some target ->
     prices env (lookups w) (upper a0) = Some p ->
     level_of (user_levels w) u (upper a0) = Some old ->
     exists w',
       add_level_command py_float env u [a0; a1] w = (Raise TransportError, w') /\
       since w w' = [Lookup (upper a0); Log (Failed InAdd TransportError)] /\
       level_of (user_levels w') u (upper a0)
         = if (p <=? target)%float then Some old
           else Some (mkLevel (upper a0) target (now env (S (awaits w))))).
Proof.
  intros Q U. split.
  - intros s rest d l Hd Hl.
    unfold remove_level_command, bind at 1, get_levels. cbv beta iota.
    rewrite Hd. destruct d as [|sl d]; [discriminate|].
    rewrite Hl. unfold try_except, bind at 1, put_levels. cbv beta iota.
    rewrite reply_text_undelivered by assumption.
    unfold bind, logger, emit. cbn [user_levels trace awaits lookups].
    now rewrite reply_text_undelivered by assumption.
  - intros a0 a1 target p old Hf Hp Hold.
    destruct (get_touch_same (user_levels w) u) as (d & Hd & Hlev).
    assert (Ht : touch (user_levels w) u = user_levels w).
    { unfold touch, Dict.mem. unfold level_of in Hold.
      now destruct (Dict.get (user_levels w) u). }
    rewrite Ht in Hd.
    exists (snd (add_level_command py_float env u [a0; a1] w)).
    unfold_py. rewrite Hf. unfold_py. cbn [user_levels trace awaits lookups].
    rewrite !Q, ?U. cbn [apply_mutations fold_left]. rewrite Hp, Ht.
    destruct (p <=? target)%float; cbn [user_levels trace awaits lookups];
      rewrite ?Q, ?U; cbn [apply_mutations fold_left user_levels trace awaits lookups].
    + rewrite ?Q, ?U. cbn [snd user_levels trace].
      split; [reflexivity|]. split; [|exact Hold].
      apply since_app. cbn [trace]. now rewrite <- app_assoc.
    + rewrite Hd, (Hlev (upper a0)), Hold.
      cbn [user_levels trace awaits lookups].
      rewrite ?Q, ?U. cbn [apply_mutations fold_left user_levels trace awaits lookups].
      rewrite ?Q, ?U. cbn [snd user_levels trace].
      split; [reflexivity|]. split.
      * apply since_app. cbn [trace]. now rewrite <- app_assoc.
      * cbn [apply_mutations fold_left]. rewrite level_of_set_same. apply get_set_same.
Qed.

Lemma undelivered_answers_keep_writes_witness :
  remove_level_command (mute 120) 7 ["sym"]%string raced =
    (Raise TransportError,
     mkWorld (Dict.set (user_levels raced) 7%Z
                (Dict.remove [("SYM"%string, mkLevel "SYM" 100 0)] (upper "sym")))
             (trace raced ++ [Log (Failed InRemove TransportError)])
             (S (S (awaits raced))) (lookups raced)) /\
  exists w',
    add_level_command float_of_token (mute 120) 7 ["sym"; "90"]%string raced
      = (Raise TransportError, w') /\
    since raced w' = [Lookup (upper "sym"); Log (Failed InAdd TransportError)] /\
    level_of (user_levels w') 7 (upper "sym")
      = if (120 <=? 90)%float then Some (mkLevel "SYM" 100 0)
        else Some (mkLevel (upper "sym") 90 (now (mute 120) (S (awaits raced)))).
Proof.
  destruct (undelivered_answers_keep_writes float_of_token (mute 120) 7 raced
              (mute_quiet 120) (fun _ => eq_refl)) as [H1 H2].
  split.
  - apply (H1 "sym"%string [] [("SYM"%string, mkLevel "SYM" 100 0)]
              (mkLevel "SYM" 100 0)); reflexivity.
  - apply (H2 "sym"%string "90"%string 90%float 120%float (mkLevel "SYM" 100 0));
      reflexivity.
Defined.

(** * The buttons and [/start] *)

(** ** The callback data of a button *)

Lemma prefix_empty (s : string) : prefix EmptyString s = true.
Proof. now destruct s. Qed.

Lemma prefix_other_head (c c' : ascii) (old s : string) :
  c <> c' -> prefix (String c old) (String c' s) = false.
Proof. intros Hne. simpl. now destruct (ascii_dec c c'). Qed.

Lemma upper_char_not_r (c : ascii) : upper_char c = c -> "r"%char <> c.
Proof. intros H <-. discriminate H. Qed.

(** Text in upper case has no occurrence of [remove_]. *)
Lemma replace_from_upper (new s : string) :
  upper s = s -> replace_from "remove_" new 0 s = s.
Proof.
  induction s as [|c s IH]; intros Hu; [reflexivity|].
  cbn [upper] in Hu. injection Hu as Hc Hs.
  cbn [replace_from].
  rewrite (prefix_other_head "r" c _ s (upper_char_not_r c Hc)).
  now rewrite IH.
Qed.

Lemma str_replace_callback_data (k : string) :
  upper k = k -> str_replace "remove_" EmptyString (callback_data k) = k.
Proof.
  intros Hu. unfold str_replace, callback_data.
  cbn [append replace_from]. 
  assert (P : prefix "remove_" (String "r" (String "e" (String "m" (String "o"
                (String "v" (String "e" (String "_" k))))))) = true).
  { simpl. apply prefix_empty. }
  rewrite P. cbn [String.length Nat.sub append replace_from].
  now apply replace_from_upper.
Qed.

Lemma callback_data_prefix (k : string) : prefix "remove_" (callback_data k) = true.
Proof. unfold callback_data. simpl. apply prefix_empty. Qed.

Lemma callback_data_not_cancel (k : string) :
  (callback_data k =? "cancel")%string = false.
Proof. reflexivity. Qed.

Lemma telegram_call_calm env w :
  calm env ->
  telegram_call env w =
    (Ok tt, mkWorld (user_levels w) (trace w) (S (awaits w)) (lookups w)).
Proof.
  intros C. unfold telegram_call, bind, await, ret.
  destruct (C (awaits w)) as [Hq Hd]. now rewrite Hq, Hd.
Qed.

(** A press of the button of a level that the user has. *)
Lemma button_callback_pops env u k d l w :
  calm env ->
  upper k = k ->
  Dict.get (user_levels w) u = Some d ->
  Dict.get d k = Some l ->
  button_callback env u (callback_data k) w =
    (Ok (Some (Removed k (target_price l))),
     mkWorld (Dict.set (user_levels w) u (Dict.remove d k)) (trace w)
             (S (S (awaits w))) (lookups w)).
Proof.
  intros C Hu Hd Hl. unfold button_callback.
  rewrite callback_data_not_cancel, callback_data_prefix,
    (str_replace_callback_data k Hu).
  unfold bind at 1. rewrite (telegram_call_calm env w C).
  unfold bind at 1, get_levels. cbn [user_levels]. rewrite Hd, Hl.
  unfold bind at 1, put_levels. cbn [user_levels trace awaits lookups].
  unfold bind. rewrite telegram_call_calm by exact C. reflexivity.
Qed.

(** A press of a button whose level is not there. *)
Lemma button_callback_misses env u k w :
  calm env ->
  upper k = k ->
  level_of (user_levels w) u k = None ->
  button_callback env u (callback_data k) w =
    (Ok (Some LevelNotFound),
     mkWorld (user_levels w) (trace w) (S (S (awaits w))) (lookups w)).
Proof.
  intros C Hu Hl. unfold button_callback.
  rewrite callback_data_not_cancel, callback_data_prefix,
    (str_replace_callback_data k Hu).
  unfold bind at 1. rewrite (telegram_call_calm env w C).
  unfold bind at 1, get_levels. cbn [user_levels].
  unfold level_of in Hl.
  destruct (Dict.get (user_levels w) u) as [d|]; [rewrite Hl|];
    unfold bind; rewrite telegram_call_calm by exact C; reflexivity.
Qed.

(** X19: the buttons that [/remove] shows work for the levels that [/add]
    stores: a press of the button of a symbol in upper case removes the
    level of that symbol of the user who pressed, names the symbol and the
    target in its answer, and leaves every other entry. *)
Theorem button_removes_its_level (env : environment) (u : Z) (k : string)
    (d : levels) (l : TargetLevel) (w : world) :
  calm env ->
  wf_registry (user_levels w) ->
  upper k = k ->
  Dict.get (user_levels w) u = Some d ->
  Dict.get d k = Some l ->
  exists w1 w2,
    remove_level_command env u [] w = (Ok tt, w1) /\
    In (Reply u (SelectLevel (map (fun sl => (fst sl, target_price (snd sl))) d)))
       (since w w1) /\
    In (k, target_price l) (map (fun sl => (fst sl, target_price (snd sl))) d) /\
    button_callback env u (callback_data k) w1
      = (Ok (Some (Removed k (target_price l))), w2) /\
    level_of (user_levels w2) u k = None /\
    entries (user_levels w2) = without u k (entries (user_levels w)).
Proof.
  intros C W Hu Hd Hl.
  assert (Hne : d <> []) by (intros ->; discriminate).
  destruct (wf_registry_get _ _ _ W Hd) as [Wd _].
  eexists _, _. split; [|split; [|split; [|split; [|split]]]].
  - exact (remove_level_command_select env u d w C Hd Hne).
  - erewrite since_app by (cbn [trace]; reflexivity). now left.
  - apply get_in in Hl.
    change (k, target_price l)
      with ((fun sl : string * TargetLevel => (fst sl, target_price (snd sl))) (k, l)).
    now apply in_map.
  - now apply (button_callback_pops env u k d l _ C Hu).
  - cbn [user_levels]. rewrite level_of_set_same. now apply get_remove_same.
  - cbn [user_levels]. now apply entries_discard.
Qed.

Lemma button_removes_its_level_witness :
  exists w1 w2,
    remove_level_command (steady 120) 7 [] raced = (Ok tt, w1) /\
    In (Reply 7 (SelectLevel (map (fun sl => (fst sl, target_price (snd sl)))
                                  [("SYM"%string, mkLevel "SYM" 100 0)])))
       (since raced w1) /\
    In ("SYM"%string, target_price (mkLevel "SYM" 100 0))
       (map (fun sl => (fst sl, target_price (snd sl)))
            [("SYM"%string, mkLevel "SYM" 100 0)]) /\
    button_callback (steady 120) 7 (callback_data "SYM") w1
      = (Ok (Some (Removed "SYM" (target_price (mkLevel "SYM" 100 0)))), w2) /\
    level_of (user_levels w2) 7 "SYM" = None /\
    entries (user_levels w2) = without 7 "SYM" (entries (user_levels raced)).
Proof.
  apply (button_removes_its_level (steady 120) 7 "SYM"
           [("SYM"%string, mkLevel "SYM" 100 0)] (mkLevel "SYM" 100 0) raced
           (steady_calm 120) raced_wf); reflexivity.
Defined.

(** X20: a second press of the same button finds the level gone: it answers
    that the level was not found and leaves the registry as the first press
    left it; and a press by a user the registry does not know makes no
    sub-map for that user. *)
Theorem button_pressed_twice (env : environment) (u : Z) (k : string)
    (l : TargetLevel) (w : world) :
  calm env ->
  wf_registry (user_levels w) ->
  upper k = k ->
  (level_of (user_levels w) u k = Some l ->
   exists w1 w2,
     button_callback env u (callback_data k) w
       = (Ok (Some (Removed k (target_price l))), w1) /\
     button_callback env u (callback_data k) w1 = (Ok (Some LevelNotFound), w2) /\
     user_levels w2 = user_levels w1) /\
  (level_of (user_levels w) u k = None ->
   exists w1,
     button_callback env u (callback_data k) w = (Ok (Some LevelNotFound), w1) /\
     user_levels w1 = user_levels w).
Proof.
  intros C W Hu. split.
  - intros Hl. unfold level_of in Hl.
    destruct (Dict.get (user_levels w) u) as [d|] eqn:Hd; [|discriminate].
    destruct (wf_registry_get _ _ _ W Hd) as [Wd _].
    eexists _, _. split; [exact (button_callback_pops env u k d l w C Hu Hd Hl)|].
    split.
    + rewrite button_callback_misses; [reflexivity | exact C | exact Hu |].
      cbn [user_levels]. rewrite level_of_set_same. now apply get_remove_same.
    + reflexivity.
  - intros Hl. eexists. split; [now apply button_callback_misses | reflexivity].
Qed.

Lemma button_pressed_twice_witness :
  (exists w1 w2,
     button_callback (steady 120) 7 (callback_data "SYM") raced
       = (Ok (Some (Removed "SYM" (target_price (mkLevel "SYM" 100 0)))), w1) /\
     button_callback (steady 120) 7 (callback_data "SYM") w1
       = (Ok (Some LevelNotFound), w2) /\
     user_levels w2 = user_levels w1) /\
  (exists w1,
     button_callback (steady 120) 8 (callback_data "SYM") raced
       = (Ok (Some LevelNotFound), w1) /\
     user_levels w1 = user_levels raced).
Proof.
  split.
  - apply (button_pressed_twice (steady 120) 7 "SYM" (mkLevel "SYM" 100 0) raced
             (steady_calm 120) raced_wf eq_refl). reflexivity.
  - apply (button_pressed_twice (steady 120) 8 "SYM" (mkLevel "SYM" 100 0) raced
             (steady_calm 120) raced_wf eq_refl). reflexivity.
Defined.

(** ** [/start] *)

Lemma mem_keys {V} (reg : Dict.t Z V) u : Dict.mem reg u = true <-> In u (Dict.keys reg).
Proof.
  unfold Dict.mem. pose proof (get_none_iff reg u) as H.
  destruct (Dict.get reg u) as [d|].
  - split; [|reflexivity]. intros _.
    destruct (in_dec Z.eq_dec u (Dict.keys reg)) as [Hin|Hn]; [exact Hin|].
    apply H in Hn. discriminate.
  - split; [discriminate|]. intros Hin. now apply H in Hin.
Qed.

(** A user that the registry knows stays known. *)
Lemma known_stable u : stable (fun reg => Dict.mem reg u = true).
Proof.
  intros reg m Hm. destruct (keys_apply_mutation reg m) as [ks Hks].
  apply mem_keys. rewrite Hks. apply in_or_app. left. now apply mem_keys.
Qed.

(** X21: [/start] makes the user known to the registry before it sends the
    welcome, so also when the welcome cannot be delivered, and whatever the
    other coroutines do meanwhile.  It changes no level: for a known user it
    leaves the registry as it is, and for a new user it adds an empty
    sub-map, for which [/list] answers that there are no levels. *)
Theorem start_command_registers (env : environment) (u : Z) (w : world) :
  Dict.mem (user_levels (snd (start_command env u w))) u = true /\
  (calm env ->
   start_command env u w =
     (Ok Welcome,
      mkWorld (touch (user_levels w) u) (trace w) (S (awaits w)) (lookups w)) /\
   entries (touch (user_levels w) u) = entries (user_levels w) /\
   (Dict.mem (user_levels w) u = true -> touch (user_levels w) u = user_levels w) /\
   (Dict.mem (user_levels w) u = false ->
    forall w1, user_levels w1 = touch (user_levels w) u ->
      list_levels_command env u w1 =
        (Ok tt, mkWorld (user_levels w1) (trace w1 ++ [Reply u NoActiveLevels])
                        (S (awaits w1)) (lookups w1)))).
Proof.
  split.
  - unfold start_command, bind at 1, ensure_user, bind at 1, get_levels, put_levels.
    cbv beta iota.
    set (w0 := mkWorld _ _ _ _).
    assert (H0 : Dict.mem (user_levels w0) u = true) by apply mem_touch.
    clearbody w0. revert w0 H0.
    change (keeps (fun reg => Dict.mem reg u = true)
              (telegram_call env ;; ret Welcome)).
    apply keeps_bind; [|intros _; apply keeps_ret].
    apply keeps_telegram_call, known_stable.
  - intros C. split; [|split; [|split]].
    + unfold start_command, bind at 1, ensure_user, bind at 1, get_levels, put_levels.
      cbv beta iota. unfold bind. now rewrite telegram_call_calm by exact C.
    + apply entries_touch.
    + intros Hm. unfold touch. now rewrite Hm.
    + intros Hm w1 Hw1.
      unfold list_levels_command, bind at 1, get_levels. cbv beta iota.
      rewrite Hw1, get_touch, (mem_false_get _ _ Hm), Z.eqb_refl.
      rewrite <- Hw1. now apply reply_text_calm.
Qed.

Lemma start_command_registers_witness :
  Dict.mem (user_levels (snd (start_command (mute 120) 8 raced))) 8%Z = true /\
  start_command (steady 120) 8 raced =
    (Ok Welcome,
     mkWorld (touch (user_levels raced) 8) (trace raced) (S (awaits raced))
             (lookups raced)) /\
  entries (touch (user_levels raced) 8) = entries (user_levels raced) /\
  (forall w1, user_levels w1 = touch (user_levels raced) 8 ->
     list_levels_command (steady 120) 8 w1 =
       (Ok tt, mkWorld (user_levels w1) (trace w1 ++ [Reply 8 NoActiveLevels])
                       (S (awaits w1)) (lookups w1))).
Proof.
  destruct (start_command_registers (mute 120) 8 raced) as [H0 _].
  destruct (start_command_registers (steady 120) 8 raced) as [_ H].
  destruct (H (steady_calm 120)) as (H1 & H2 & _ & H4).
  split; [exact H0|]. split; [exact H1|]. split; [exact H2|].
  apply H4. reflexivity.
Defined.
